(** * Aggregation pipeline of [generate_data.py]

    A shallow embedding of the reducers of [yelp-dataset/generate_data.py]
    and of the parts of the Python runtime they rely on (text coercion,
    binary64 arithmetic, insertion-ordered dictionaries, stable sorting),
    followed by the properties of the pipeline.

    Conventions.
    - Python [str] is [string]; every [ascii] stands for the code point of
      the same number, so the model covers text over the code points below
      256.  Cells that [csv.DictReader] fills with [None] (rows shorter than
      the header) are outside the model: a row maps field names to text.
    - Python [int] is [Z] (the interpreter's limit on the number of digits
      [int] accepts in a text, 4300 by default, is not modelled); Python
      [float] is [spec_float] at precision 53 and maximal exponent 1024
      (IEEE binary64), with the operations of the standard library's
      [SpecFloat].
    - A call that can raise returns [result]; the exceptions are the ones
      the modelled code can raise. *)

From Stdlib Require Import ZArith String Ascii List Lia DecimalString.
From Stdlib Require Import Floats.SpecFloat.
From stdpp Require Import gmap strings list sorting.

Set Warnings "-clear-no-such-hyp".

Open Scope string_scope.
Open Scope list_scope.
Open Scope Z_scope.

(* ================================================================== *)
(** * Part I: the Python runtime the program uses                      *)
(* ================================================================== *)

Module Py.

(** ** Exceptions *)

Inductive exn : Type :=
| KeyError (key : string)
| ValueError
| OverflowError
| ZeroDivisionError
| FileNotFoundError (path : string).

Inductive result (A : Type) : Type :=
| Ok (a : A)
| Raise (e : exn).
Arguments Ok {A} a.
Arguments Raise {A} e.

Definition bind {A B} (x : result A) (k : A -> result B) : result B :=
  match x with
  | Ok a => k a
  | Raise e => Raise e
  end.

(** [try: x  except (ValueError, KeyError): h] *)
Definition caught (e : exn) : bool :=
  match e with
  | ValueError | KeyError _ => true
  | _ => false
  end.

Definition try_except {A} (x : result A) (h : result A) : result A :=
  match x with
  | Ok a => Ok a
  | Raise e => if caught e then h else Raise e
  end.

(** [for x in xs: body], threading the loop state and stopping at the first
    exception. *)
Fixpoint for_each {A St} (xs : list A) (body : A -> St -> result St) (s : St)
  : result St :=
  match xs with
  | [] => Ok s
  | x :: xs' => bind (body x s) (for_each xs' body)
  end.

(** A list comprehension whose element expression can raise. *)
Fixpoint map_result {A B} (f : A -> result B) (xs : list A) : result (list B) :=
  match xs with
  | [] => Ok []
  | x :: xs' =>
      bind (f x) (fun y => bind (map_result f xs') (fun ys => Ok (y :: ys)))
  end.

(** ** Text *)

Definition ord (c : ascii) : N := N_of_ascii c.

(** [str.isspace] on the code points below 256. *)
Definition isspace (c : ascii) : bool :=
  let n := ord c in
  ((9 <=? n) && (n <=? 13) || (28 <=? n) && (n <=? 32)
   || (n =? 133) || (n =? 160))%N.

(** C's [Py_ISSPACE]: the ASCII white space only. *)
Definition c_isspace (c : ascii) : bool :=
  let n := ord c in ((9 <=? n) && (n <=? 13) || (n =? 32))%N.

Definition is_digit (c : ascii) : bool :=
  let n := ord c in ((48 <=? n) && (n <=? 57))%N.

Definition digit_val (c : ascii) : Z := Z.of_N (ord c) - 48.

Definition is_char (a c : ascii) : bool := (ord a =? ord c)%N.

Fixpoint lstrip_with (sp : ascii -> bool) (s : string) : string :=
  match s with
  | String c s' => if sp c then lstrip_with sp s' else s
  | EmptyString => EmptyString
  end.

Definition strip_with (sp : ascii -> bool) (s : string) : string :=
  String.rev (lstrip_with sp (String.rev (lstrip_with sp s))).

(** [s.strip()] *)
Definition strip (s : string) : string := strip_with isspace s.

(** [s.split(",")]: the pieces between the separators, empty ones kept. *)
Fixpoint split_go (sep : ascii) (cur : string) (s : string) : list string :=
  match s with
  | EmptyString => [String.rev cur]
  | String c s' =>
      if is_char sep c then String.rev cur :: split_go sep EmptyString s'
      else split_go sep (String c cur) s'
  end.

Definition split (sep : ascii) (s : string) : list string :=
  split_go sep EmptyString s.

(** Truth value of a [str]: non-empty. *)
Definition truthy (s : string) : bool :=
  match s with
  | EmptyString => false
  | String _ _ => true
  end.

(** ** Numeric text: what [int(str)] and [float(str)] share *)

(** Before parsing, both constructors replace every white-space code point
    above ASCII by a blank and every other code point above ASCII by a
    character no numeral contains. *)
Definition to_ascii_char (c : ascii) : ascii :=
  if (ord c <? 128)%N then c
  else if isspace c then " "%char else "?"%char.

Fixpoint to_ascii (s : string) : string :=
  match s with
  | EmptyString => EmptyString
  | String c s' => String (to_ascii_char c) (to_ascii s')
  end.

Definition read_sign (s : string) : bool * string :=
  match s with
  | String c s' =>
      if is_char "-" c then (true, s')
      else if is_char "+" c then (false, s')
      else (false, s)
  | EmptyString => (false, s)
  end.

(** The longest run of decimal digits at the head of [s]: its value on top
    of [acc], the number of digits read on top of [n], and the rest. *)
Fixpoint read_digits (acc : Z) (n : nat) (s : string) : Z * nat * string :=
  match s with
  | String c s' =>
      if is_digit c then read_digits (10 * acc + digit_val c) (S n) s'
      else (acc, n, s)
  | EmptyString => (acc, n, s)
  end.

(** ** [int(str)] *)

(** Digits in which single underscores may separate two digits. *)
Fixpoint read_int_digits (after_us : bool) (acc : Z) (n : nat) (s : string)
  : option (Z * nat * string) :=
  match s with
  | String c s' =>
      if is_digit c then
        read_int_digits false (10 * acc + digit_val c) (S n) s'
      else if is_char "_" c then
        if after_us then None else read_int_digits true acc n s'
      else if after_us then None else Some (acc, n, s)
  | EmptyString => if after_us then None else Some (acc, n, s)
  end.

Definition starts_with (a : ascii) (s : string) : bool :=
  match s with
  | String c _ => is_char a c
  | EmptyString => false
  end.

Definition int_of_str (s : string) : result Z :=
  let '(neg, s1) := read_sign (lstrip_with c_isspace (to_ascii s)) in
  if starts_with "_" s1 then Raise ValueError
  else
    match read_int_digits false 0 0 s1 with
    | Some (v, n, rest) =>
        if (n =? 0)%nat then Raise ValueError
        else
          match lstrip_with c_isspace rest with
          | EmptyString => Ok (if neg then - v else v)
          | String _ _ => Raise ValueError
          end
    | None => Raise ValueError
    end.

(** ** [float]: IEEE binary64 *)

Abbreviation float := spec_float.

Definition prec : Z := 53.
Definition emax : Z := 1024.

(** The binary64 number nearest to [n / d], ties to even, with sign [s];
    [0 <= n] and [0 < d].  This is the rounding every correctly rounded
    conversion to [float] performs. *)
Definition float_of_ratio (s : bool) (n d : Z) : float :=
  let '(q, e, l) := SFdiv_core_binary prec emax n 0 d 0 in
  binary_round_aux prec emax s q e l.

(** The value [m * 10^e] of a decimal numeral. *)
Definition float_of_decimal (s : bool) (m e : Z) : float :=
  if 0 <=? e then float_of_ratio s (m * 10 ^ e) 1
  else float_of_ratio s m (10 ^ (- e)).

(** [float(n)] for an [int]: exact below [2^53], rounded above, and an
    error when the rounding overflows. *)
Definition float_of_int (n : Z) : result float :=
  match float_of_ratio (n <? 0) (Z.abs n) 1 with
  | S754_infinity _ => Raise OverflowError
  | x => Ok x
  end.

(** [int(x)] for a [float]: truncation toward zero. *)
Definition int_of_float (x : float) : result Z :=
  match x with
  | S754_zero _ => Ok 0
  | S754_finite s m e =>
      let a := Z.shiftl (Z.pos m) e in Ok (if s then - a else a)
  | S754_infinity _ => Raise OverflowError
  | S754_nan => Raise ValueError
  end.

Definition fadd : float -> float -> float := SFadd prec emax.
Definition fdiv : float -> float -> float := SFdiv prec emax.
Definition fneg : float -> float := SFopp.
Definition feqb : float -> float -> bool := SFeqb.
Definition fltb : float -> float -> bool := SFltb.
Definition fleb : float -> float -> bool := SFleb.

(** A number that is an [int] or a [float], as the running star total is. *)
Inductive num : Type :=
| Int (n : Z)
| Float (x : float).

(** [a + x] with [x] a [float]. *)
Definition num_add (a : num) (x : float) : result num :=
  match a with
  | Int n => bind (float_of_int n) (fun y => Ok (Float (fadd y x)))
  | Float y => Ok (Float (fadd y x))
  end.

(** [a / n] with [n] an [int]: true division, always a [float]. *)
Definition num_truediv (a : num) (n : Z) : result float :=
  if n =? 0 then Raise ZeroDivisionError
  else
    match a with
    | Int m =>
        match float_of_ratio (xorb (m <? 0) (n <? 0)) (Z.abs m) (Z.abs n) with
        | S754_infinity _ => Raise OverflowError
        | x => Ok x
        end
    | Float x => bind (float_of_int n) (fun y => Ok (fdiv x y))
    end.

(** The integer nearest to [n / d], ties to even; [0 <= n], [0 < d]. *)
Definition round_half_even (n d : Z) : Z :=
  let q := n / d in
  match 2 * (n mod d) ?= d with
  | Lt => q
  | Eq => if Z.even q then q else q + 1
  | Gt => q + 1
  end.

(** [round(x, ndigits)] for [0 <= ndigits <= 323]: the exact value of [x]
    is rounded half-even to [ndigits] decimals and the resulting numeral is
    converted back to a [float]. *)
Definition round_ndigits (x : float) (ndigits : Z) : float :=
  match x with
  | S754_finite s m e =>
      let p := 10 ^ ndigits in
      let n :=
        if 0 <=? e then Z.pos m * 2 ^ e * p
        else round_half_even (Z.pos m * p) (2 ^ (- e)) in
      float_of_ratio s n p
  | _ => x
  end.

(** ** [float(str)] *)

(** Underscores may stand between two digits and nowhere else; they are
    dropped before the numeral is read.  [prev] is the previous character
    (NUL at the start). *)
Fixpoint strip_underscores (prev : ascii) (s : string) : option string :=
  match s with
  | EmptyString => if is_char "_" prev then None else Some EmptyString
  | String c s' =>
      if is_char "_" c then
        if is_digit prev then strip_underscores c s' else None
      else if is_char "_" prev && negb (is_digit c) then None
      else
        match strip_underscores c s' with
        | Some t => Some (String c t)
        | None => None
        end
  end.

Definition lower (c : ascii) : ascii :=
  let n := ord c in
  if ((65 <=? n) && (n <=? 90))%N then ascii_of_N (n + 32) else c.

Fixpoint lower_str (s : string) : string :=
  match s with
  | EmptyString => EmptyString
  | String c s' => String (lower c) (lower_str s')
  end.

Definition parse_inf_or_nan (s : string) : option float :=
  let '(neg, s1) := read_sign s in
  let w := lower_str s1 in
  if String.eqb w "inf" || String.eqb w "infinity" then Some (S754_infinity neg)
  else if String.eqb w "nan" then Some S754_nan
  else None.

(** An optional exponent part [e[+-]digits]; without digits after the [e]
    nothing is consumed. *)
Definition read_exponent (s : string) : Z * string :=
  match s with
  | String c s' =>
      if is_char "e" (lower c) then
        let '(eneg, s1) := read_sign s' in
        let '(v, n, s2) := read_digits 0 0 s1 in
        if (n =? 0)%nat then (0, s) else (if eneg then - v else v, s2)
      else (0, s)
  | EmptyString => (0, s)
  end.

(** A decimal numeral: sign, digits with an optional point (at least one
    digit in all), optional exponent, and nothing after it. *)
Definition strtod (s : string) : option float :=
  let '(neg, s1) := read_sign s in
  let '(ip, ni, s2) := read_digits 0 0 s1 in
  let '(m, nf, s3) :=
    match s2 with
    | String c s' => if is_char "." c then read_digits ip 0 s' else (ip, 0%nat, s2)
    | EmptyString => (ip, 0%nat, s2)
    end in
  if (ni + nf =? 0)%nat then None
  else
    let '(ex, s4) := read_exponent s3 in
    match s4 with
    | EmptyString => Some (float_of_decimal neg m (ex - Z.of_nat nf))
    | String _ _ => None
    end.

Definition float_of_str (s : string) : result float :=
  match strip_underscores "000" (to_ascii s) with
  | None => Raise ValueError
  | Some s1 =>
      let s2 := strip_with c_isspace s1 in
      match parse_inf_or_nan s2 with
      | Some x => Ok x
      | None =>
          match strtod s2 with
          | Some x => Ok x
          | None => Raise ValueError
          end
      end
  end.

End Py.

(** ** Insertion-ordered dictionaries, [Counter], [sorted] *)

Module Coll.

Section Dict.
Context {K V : Type} `{EqDecision K}.

(** A [dict] lists its items in the order in which the keys were first
    inserted. *)
Definition dict : Type := list (K * V).

Fixpoint get (k : K) (d : dict) : option V :=
  match d with
  | [] => None
  | (k', v) :: d' => if decide (k' = k) then Some v else get k d'
  end.

(** [d[k] = v]: a present key keeps its place, a new one goes last. *)
Fixpoint set (k : K) (v : V) (d : dict) : dict :=
  match d with
  | [] => [(k, v)]
  | (k', v') :: d' =>
      if decide (k' = k) then (k, v) :: d' else (k', v') :: set k v d'
  end.

Definition keys (d : dict) : list K := fst <$> d.
End Dict.

Arguments dict : clear implicits.

Section Counter.
Context {K : Type} `{EqDecision K}.

(** [c[k] += 1], a missing key counting as 0. *)
Definition incr (k : K) (c : dict K Z) : dict K Z :=
  set k (default 0 (get k c) + 1) c.

(** [Counter(iterable)] *)
Definition Counter (ks : list K) : dict K Z :=
  fold_left (fun c k => incr k c) ks [].
End Counter.

Section Sorted.
Context {A K : Type} (lt : K -> K -> bool) (key : A -> K).

(** [sorted(xs, key=key)] and [xs.sort(key=key)]: only [<] on keys is
    used and items with equal keys keep their order.  [x] stood before
    every item of [l], so it passes only the items whose key is smaller. *)
Fixpoint insert_asc (x : A) (l : list A) : list A :=
  match l with
  | [] => [x]
  | y :: l' =>
      if lt (key y) (key x) then y :: insert_asc x l' else x :: l
  end.

Definition sorted (xs : list A) : list A := foldr insert_asc [] xs.

(** [sorted(xs, key=key, reverse=True)]: descending, items with equal
    keys still in their original order. *)
Fixpoint insert_desc (x : A) (l : list A) : list A :=
  match l with
  | [] => [x]
  | y :: l' =>
      if lt (key x) (key y) then y :: insert_desc x l' else x :: l
  end.

Definition sorted_reverse (xs : list A) : list A := foldr insert_desc [] xs.
End Sorted.

(** [c.most_common(n)]: [heapq.nlargest(n, c.items(), key=itemgetter(1))],
    which is [sorted(c.items(), key=itemgetter(1), reverse=True)[:n]]. *)
Definition most_common {K : Type} (n : nat) (c : dict K Z) : list (K * Z) :=
  take n (sorted_reverse Z.ltb snd c).

End Coll.

(* ================================================================== *)
(** * Part II: [generate_data.py]                                      *)
(* ================================================================== *)

Import Py Coll.

(** One record of [csv.DictReader]: field name to raw text. *)
Abbreviation Row := (gmap string string).

(** [r[k]] *)
Definition getitem (r : Row) (k : string) : result string :=
  match r !! k with
  | Some v => Ok v
  | None => Raise (KeyError k)
  end.

(** [r.get(k, d)] *)
Definition get_or (r : Row) (k : string) (d : string) : string :=
  default d (r !! k).

(** A generator expression over the rows, each row yielding the keys in
    [f r], consumed up to the first exception. *)
Fixpoint generate {B} (f : Row -> result (list B)) (rows : list Row)
  : result (list B) :=
  match rows with
  | [] => Ok []
  | r :: rows' =>
      bind (f r) (fun ks => bind (generate f rows') (fun ks' => Ok (ks ++ ks')))
  end.

(** [f"{c}, {s}"] *)
Definition city_state (c s : string) : string := c +:+ ", " +:+ s.

(** ** [process_flavor] *)

(** [r["year"] for r in rows if r["year"]] *)
Definition year_of (r : Row) : result (list string) :=
  bind (getitem r "year") (fun y => Ok (if truthy y then [y] else [])).

(** [f"{r['city']}, {r['state']}" for r in rows if r["city"] and r["state"]] *)
Definition city_of (r : Row) : result (list string) :=
  bind (getitem r "city") (fun c =>
  if truthy c then
    bind (getitem r "state") (fun s =>
    Ok (if truthy s then [city_state c s] else []))
  else Ok []).

(** [r["state"] for r in rows if r["state"]] *)
Definition state_of (r : Row) : result (list string) :=
  bind (getitem r "state") (fun s => Ok (if truthy s then [s] else [])).

(** [int(float(r["stars_x"]))] *)
Definition star_of (r : Row) : result Z :=
  bind (getitem r "stars_x") (fun s =>
  bind (float_of_str s) int_of_float).

(** Body of the star loop: [try: ...; star_counts[star] += 1  except
    (ValueError, KeyError): pass]. *)
Definition star_step (r : Row) (c : dict Z Z) : result (dict Z Z) :=
  try_except (bind (star_of r) (fun star => Ok (incr star c))) (Ok c).

Definition star_counts (rows : list Row) : result (dict Z Z) :=
  for_each rows star_step [].

(** [[{"stars": s, "count": star_counts.get(s, 0)} for s in range(1, 6)]] *)
Definition star_dist_of (c : dict Z Z) : list (Z * Z) :=
  (fun s => (s, default 0 (get s c))) <$> [1; 2; 3; 4; 5].

(** The categories a row counts for: the non-empty stripped pieces of its
    [categories] text, none when the field is absent or empty. *)
Definition cats_of (r : Row) : list string :=
  match r !! "categories" with
  | Some s =>
      if truthy s then filter (fun c => truthy c = true) (strip <$> split "," s)
      else []
  | None => []
  end.

(** The accumulator of one business. *)
Record Acc : Type := mkAcc {
  acc_reviews : Z;
  acc_total_stars : num;
  acc_location : string
}.

(** [defaultdict]'s factory. *)
Definition new_acc : Acc := mkAcc 0 (Int 0) "".

(** [try: biz["total_stars"] += float(r["stars_x"])  except (ValueError,
    KeyError): pass] *)
Definition add_stars (r : Row) (total : num) : result num :=
  try_except
    (bind (getitem r "stars_x") (fun s =>
     bind (float_of_str s) (fun x => num_add total x)))
    (Ok total).

(** Body of the business loop. *)
Definition biz_step (r : Row) (d : dict string Acc) : result (dict string Acc) :=
  let name := strip (get_or r "name" "") in
  if negb (truthy name) then Ok d
  else
    let biz := default new_acc (get name d) in
    let n := acc_reviews biz + 1 in
    bind (add_stars r (acc_total_stars biz)) (fun total =>
    bind (getitem r "city") (fun c =>
    bind (getitem r "state") (fun s =>
    Ok (set name (mkAcc n total (city_state c s)) d)))).

Definition biz_reviews (rows : list Row) : result (dict string Acc) :=
  for_each rows biz_step [].

Record Business : Type := mkBusiness {
  name : string;
  location : string;
  reviews : Z;
  rating : num
}.

(** [round(d["total_stars"] / d["reviews"], 2) if d["reviews"] else 0] *)
Definition rating_of (d : Acc) : result num :=
  if acc_reviews d =? 0 then Ok (Int 0)
  else
    bind (num_truediv (acc_total_stars d) (acc_reviews d)) (fun q =>
    Ok (Float (round_ndigits q 2))).

Definition finalize (item : string * Acc) : result Business :=
  bind (rating_of item.2) (fun x =>
  Ok (mkBusiness item.1 (acc_location item.2) (acc_reviews item.2) x)).

(** [sorted(biz_reviews.items(), key=lambda x: x[1]["reviews"],
    reverse=True)[:10]] *)
Definition top_biz (d : dict string Acc) : list (string * Acc) :=
  take 10 (sorted_reverse Z.ltb (fun item => acc_reviews item.2) d).

Record Summary : Type := mkSummary {
  totalReviews : Z;
  yearTrends : list (string * Z);
  topCities : list (string * Z);
  topStates : list (string * Z);
  starDistribution : list (Z * Z);
  topCategories : list (string * Z);
  topBusinesses : list Business
}.

(** [process_flavor] after [rows = read_csv(filename)]. *)
Definition process_flavor_rows (rows : list Row) : result Summary :=
  bind (generate year_of rows) (fun ys =>
  let year_counts := Counter ys in
  let years := sorted String.ltb id (keys year_counts) in
  let year_trends := (fun y => (y, default 0 (get y year_counts))) <$> years in
  bind (generate city_of rows) (fun cs =>
  let top_cities := most_common 10 (Counter cs) in
  bind (generate state_of rows) (fun ss =>
  let top_states := most_common 10 (Counter ss) in
  bind (star_counts rows) (fun sc =>
  let star_dist := star_dist_of sc in
  let top_cats := most_common 10 (Counter (concat (cats_of <$> rows))) in
  bind (biz_reviews rows) (fun bz =>
  bind (map_result finalize (top_biz bz)) (fun top_businesses =>
  Ok (mkSummary (Z.of_nat (length rows)) year_trends top_cities top_states
        star_dist top_cats top_businesses))))))).

(** ** The comparison tables *)

Record FlavorComparison : Type := mkFlavorComparison {
  flavor : string;
  totalMentions : Z;
  uniqueBusinesses : Z;
  cities : Z;
  avgRating : float
}.

Definition comparison_row (r : Row) : result FlavorComparison :=
  bind (getitem r "Flavor") (fun f =>
  bind (bind (getitem r "Total Mentions") int_of_str) (fun tm =>
  bind (bind (getitem r "Unique Businesses") int_of_str) (fun ub =>
  bind (bind (getitem r "Cities") int_of_str) (fun ci =>
  bind (bind (getitem r "Avg Review Rating") float_of_str) (fun ar =>
  Ok (mkFlavorComparison f tm ub ci ar)))))).

(** [process_comparison_summary] after [read_csv]. *)
Definition process_comparison_summary_rows (rows : list Row)
  : result (list FlavorComparison) :=
  map_result comparison_row rows.

Record CityComparison : Type := mkCityComparison {
  cc_flavor : string;
  cc_city : string;
  businessCount : Z
}.

Definition city_comparison_row (r : Row) : result CityComparison :=
  bind (getitem r "flavor") (fun f =>
  bind (getitem r "city") (fun c =>
  bind (bind (getitem r "business_count") int_of_str) (fun n =>
  Ok (mkCityComparison f c n)))).

(** [process_2025_comparison] after [read_csv]. *)
Definition process_2025_comparison_rows (rows : list Row)
  : result (list CityComparison) :=
  map_result city_comparison_row rows.

(** ** [process_2025_businesses] *)

(** [f"{r['city']}, {r['state']}" for r in rows if r["city"]] *)
Definition city_of_2025 (r : Row) : result (list string) :=
  bind (getitem r "city") (fun c =>
  if truthy c then bind (getitem r "state") (fun s => Ok [city_state c s])
  else Ok []).

Record Rated : Type := mkRated {
  rated_name : string;
  rated_city : string;
  rated_rating : float;
  reviewCount : Z;
  rated_categories : string
}.

(** [rating = float(r["rating"]); review_count = int(r["review_count"])] *)
Definition rated_fields (r : Row) : result (float * Z) :=
  bind (bind (getitem r "rating") float_of_str) (fun x =>
  bind (bind (getitem r "review_count") int_of_str) (fun n =>
  Ok (x, n))).

(** Body of the top-rated loop: a row whose fields do not parse is passed
    over ([continue]); one with at least 10 reviews is appended. *)
Definition rated_step (r : Row) (acc : list Rated) : result (list Rated) :=
  match rated_fields r with
  | Ok (x, n) =>
      if 10 <=? n then
        bind (getitem r "name") (fun nm =>
        bind (getitem r "city") (fun c =>
        bind (getitem r "state") (fun s =>
        Ok (acc ++ [mkRated nm (city_state c s) x n (get_or r "categories" "")]))))
      else Ok acc
  | Raise e => if caught e then Ok acc else Raise e
  end.

(** [(-x["rating"], -x["reviewCount"])] *)
Definition rated_key (x : Rated) : float * Z :=
  (fneg (rated_rating x), - reviewCount x).

(** [<] on such pairs: the first components decide unless they are [==]. *)
Definition key_ltb (a b : float * Z) : bool :=
  if feqb a.1 b.1 then a.2 <? b.2 else fltb a.1 b.1.

(** The sort is modelled by [sorted]; it is the list [list.sort] returns
    whenever no rating is a NaN (with NaN keys [<] is no order and the
    outcome depends on the sorting algorithm). *)
Definition top_rated_of (rows : list Row) : result (list Rated) :=
  bind (for_each rows rated_step []) (fun l =>
  Ok (take 10 (sorted key_ltb rated_key l))).

Record Businesses2025 : Type := mkBusinesses2025 {
  total : Z;
  topCities2025 : list (string * Z);
  topStates2025 : list (string * Z);
  topRated : list Rated
}.

(** [process_2025_businesses] after [read_csv]. *)
Definition process_2025_businesses_rows (rows : list Row)
  : result Businesses2025 :=
  bind (generate city_of_2025 rows) (fun cs =>
  let top_cities := most_common 10 (Counter cs) in
  bind (generate state_of rows) (fun ss =>
  let top_states := most_common 10 (Counter ss) in
  bind (top_rated_of rows) (fun top_rated =>
  Ok (mkBusinesses2025 (Z.of_nat (length rows)) top_cities top_states
        top_rated)))).

(** ** [main]: the report and the files *)

(** The value handed to [json.dumps]: objects list their items in
    insertion order. *)
#[warnings="-register-all"]
Inductive json : Type :=
| JInt (n : Z)
| JFloat (x : float)
| JStr (s : string)
| JList (l : list json)
| JObj (items : list (string * json)).

Definition json_num (a : num) : json :=
  match a with
  | Int n => JInt n
  | Float x => JFloat x
  end.

(** [[{k: key, v: count} for key, count in items]] *)
Definition json_counts (k v : string) (items : list (string * Z)) : json :=
  JList ((fun it => JObj [(k, JStr it.1); (v, JInt it.2)]) <$> items).

Definition json_business (b : Business) : json :=
  JObj [("name", JStr (name b)); ("location", JStr (location b));
        ("reviews", JInt (reviews b)); ("rating", json_num (rating b))].

Definition json_summary (s : Summary) : json :=
  JObj [("totalReviews", JInt (totalReviews s));
        ("yearTrends", json_counts "year" "reviews" (yearTrends s));
        ("topCities", json_counts "city" "reviews" (topCities s));
        ("topStates", json_counts "state" "reviews" (topStates s));
        ("starDistribution",
          JList ((fun it => JObj [("stars", JInt it.1); ("count", JInt it.2)])
                   <$> starDistribution s));
        ("topCategories", json_counts "category" "count" (topCategories s));
        ("topBusinesses", JList (json_business <$> topBusinesses s))].

Definition json_comparison (c : FlavorComparison) : json :=
  JObj [("flavor", JStr (flavor c)); ("totalMentions", JInt (totalMentions c));
        ("uniqueBusinesses", JInt (uniqueBusinesses c));
        ("cities", JInt (cities c)); ("avgRating", JFloat (avgRating c))].

Definition json_city_comparison (c : CityComparison) : json :=
  JObj [("flavor", JStr (cc_flavor c)); ("city", JStr (cc_city c));
        ("businessCount", JInt (businessCount c))].

Definition json_rated (x : Rated) : json :=
  JObj [("name", JStr (rated_name x)); ("city", JStr (rated_city x));
        ("rating", JFloat (rated_rating x));
        ("reviewCount", JInt (reviewCount x));
        ("categories", JStr (rated_categories x))].

Definition json_2025 (b : Businesses2025) : json :=
  JObj [("total", JInt (total b));
        ("topCities", json_counts "city" "count" (topCities2025 b));
        ("topStates", json_counts "state" "count" (topStates2025 b));
        ("topRated", JList (json_rated <$> topRated b))].

(** [str(n)] for an [int]. *)
Definition str_of_int (n : Z) : string := NilZero.string_of_int (Z.to_int n).

(** The line feed. *)
Definition newline : string := String "010" "".

Definition OUTPUT : string := "../black-sesame-trends/data.js".

(** What a run can observe and change: the text of the files by path, and
    the lines printed so far. *)
Record World : Type := mkWorld {
  files : gmap string string;
  stdout : list string
}.

(** A computation that reads and changes the world and may raise. *)
Definition IO (A : Type) : Type := World -> result A * World.

Definition ret {A} (a : A) : IO A := fun w => (Ok a, w).

Definition bindIO {A B} (m : IO A) (k : A -> IO B) : IO B :=
  fun w =>
    match m w with
    | (Ok a, w') => k a w'
    | (Raise e, w') => (Raise e, w')
    end.

Definition lift {A} (x : result A) : IO A := fun w => (x, w).

Definition print (line : string) : IO unit :=
  fun w => (Ok tt, mkWorld (files w) (stdout w ++ [line])).

(** [with open(path, "w") as f: f.write(text)] *)
Definition write_file (path text : string) : IO unit :=
  fun w => (Ok tt, mkWorld (<[path := text]> (files w)) (stdout w)).

#[global] Instance IO_ret : MRet IO := @ret.
#[global] Instance IO_bind : MBind IO := fun A B k m => bindIO m k.

Section Main.
(** The two library calls at the border of the program:
    [list(csv.DictReader(f))] on the text of a file, and
    [json.dumps(data, indent=2)]. *)
Variable DictReader : string -> list Row.
Variable dumps : json -> string.

Definition read_csv (filename : string) : IO (list Row) :=
  fun w =>
    match files w !! filename with
    | Some text => (Ok (DictReader text), w)
    | None => (Raise (FileNotFoundError filename), w)
    end.

Definition process_flavor (filename flavor_name : string) : IO Summary :=
  rows ← read_csv filename; lift (process_flavor_rows rows).

Definition process_comparison_summary : IO (list FlavorComparison) :=
  (rows ← read_csv "flavor_comparison_summary.csv";
   lift (process_comparison_summary_rows rows)).

Definition process_2025_comparison : IO (list CityComparison) :=
  (rows ← read_csv "asian_flavors_comparison_2025.csv";
   lift (process_2025_comparison_rows rows)).

Definition process_2025_businesses : IO Businesses2025 :=
  (rows ← read_csv "black_sesame_businesses_2025.csv";
   lift (process_2025_businesses_rows rows)).

Definition main : IO unit :=
  (print "Processing black sesame...";;
   black_sesame ← process_flavor "black_sesame_analysis.csv" "black_sesame";
   print "Processing matcha...";;
   matcha ← process_flavor "matcha_analysis.csv" "matcha";
   print "Processing ube...";;
   ube ← process_flavor "ube_analysis.csv" "ube";
   print "Processing comparison summary...";;
   comparison ← process_comparison_summary;
   print "Processing 2025 city comparison...";;
   city_comparison_2025 ← process_2025_comparison;
   print "Processing 2025 businesses...";;
   businesses_2025 ← process_2025_businesses;
   let data :=
     JObj [("blackSesame", json_summary black_sesame);
           ("matcha", json_summary matcha);
           ("ube", json_summary ube);
           ("flavorComparison", JList (json_comparison <$> comparison));
           ("cityComparison2025",
             JList (json_city_comparison <$> city_comparison_2025));
           ("blackSesame2025", json_2025 businesses_2025)] in
   let js :=
     "// Asian Flavors Data - Generated from Yelp Academic Dataset" +:+ newline
     +:+ "const flavorData = " +:+ dumps data +:+ ";" +:+ newline in
   write_file OUTPUT js;;
   print ("Written to " +:+ OUTPUT);;
   print ("  Black Sesame: " +:+ str_of_int (totalReviews black_sesame) +:+ " reviews");;
   print ("  Matcha: " +:+ str_of_int (totalReviews matcha) +:+ " reviews");;
   print ("  Ube: " +:+ str_of_int (totalReviews ube) +:+ " reviews");;
   print ("  2025 Businesses: " +:+ str_of_int (total businesses_2025))).
End Main.

(* ================================================================== *)
(** * Part III: the vocabulary of the properties                       *)
(* ================================================================== *)

(** ** Order and counting *)

(** [a] stands somewhere before [b] in [l]. *)
Definition before {A} (a b : A) (l : list A) : Prop :=
  ∃ l1 l2 l3, l = l1 ++ a :: l2 ++ b :: l3.

(** Number of occurrences of [k] in [ks]. *)
Fixpoint occurrences {K} `{EqDecision K} (k : K) (ks : list K) : Z :=
  match ks with
  | [] => 0
  | k' :: ks' => (if decide (k' = k) then 1 else 0) + occurrences k ks'
  end.

(** [k1] was observed in the stream [ks] before [k2] ever was. *)
Definition first_seen_before {K} (k1 k2 : K) (ks : list K) : Prop :=
  ∃ pre post, ks = pre ++ k1 :: post ∧ (k1 ∉ pre) ∧ (k2 ∉ pre) ∧ k1 ≠ k2.

(** [b] does not sort before [a]. *)
Definition not_after {A K} (lt : K → K → bool) (key : A → K) (a b : A) : Prop :=
  lt (key b) (key a) = false.

(** [sorted(xs, key=key, reverse=True)] for integer keys. *)
Definition desc {A} (key : A → Z) (xs : list A) : list A :=
  sorted_reverse Z.ltb key xs.

(** What a count-and-rank fragment [out] must be for the key stream [ks]
    and the limit [n]. *)
Record ranking {K} `{EqDecision K} (n : nat) (ks : list K) (out : list (K * Z))
  : Prop := mkRanking {
  (** at most [n] entries, *)
  rk_length : (length out ≤ n)%nat;
  (** one per key, *)
  rk_nodup : NoDup out.*1;
  (** each with the number of times its key occurs, which is not 0, *)
  rk_count : ∀ k c, (k, c) ∈ out → k ∈ ks ∧ c = occurrences k ks ∧ 0 < c;
  (** in non-increasing order of count, equal counts in the order in which
      the keys were first observed, *)
  rk_order : ∀ i j a b, (i < j)%nat → out !! i = Some a → out !! j = Some b →
    b.2 ≤ a.2 ∧ (a.2 = b.2 → first_seen_before a.1 b.1 ks);
  (** a key is left out only when [n] keys are listed that each occur more
      often, or as often and were first observed earlier, *)
  rk_top : ∀ k, k ∈ ks → k ∉ out.*1 →
    length out = n ∧
    ∀ a, a ∈ out →
      occurrences k ks ≤ a.2 ∧
      (a.2 = occurrences k ks → first_seen_before a.1 k ks);
  (** so that with at most [n] distinct keys every key is listed. *)
  rk_all : (length (remove_dups ks) ≤ n)%nat → ∀ k, k ∈ ks → k ∈ out.*1
}.

(** ** Values of floats *)

(** 1 when the position recorded in [mrs] is off the grid point. *)
Definition inexact (mrs : shr_record) : Z :=
  if shr_r mrs || shr_s mrs then 1 else 0.

(** The value recorded by [mrs], in units of the current exponent, lies in
    [[lo, hi]]. *)
Definition within (lo hi : Z) (mrs : shr_record) : Prop :=
  0 ≤ shr_m mrs ∧ lo ≤ shr_m mrs ∧ shr_m mrs + inexact mrs ≤ hi.

(** [m1 * 2^e1 <= m2 * 2^e2], both sides scaled to integers. *)
Definition le2 (m1 e1 m2 e2 : Z) : Prop :=
  m1 * 2 ^ (e1 - Z.min e1 e2) ≤ m2 * 2 ^ (e2 - Z.min e1 e2).

(** A [float] that is not negative and whose value lies between the
    integers [lo] and [hi]: a zero, or [m * 2^e] with
    [lo <= m * 2^e <= hi]. *)
Definition between (lo hi : Z) (x : float) : Prop :=
  match x with
  | S754_zero _ => lo ≤ 0 ∧ 0 ≤ hi
  | S754_finite false m e => le2 lo 0 (Z.pos m) e ∧ le2 (Z.pos m) e hi 0
  | _ => False
  end.

(** ** Sample datasets *)

(** A complete review row. *)
Definition row_austin : Row :=
  {[ "year" := "2020"; "city" := "Austin"; "state" := "TX";
     "stars_x" := "4.5"; "categories" := "Bakery, Dessert"; "name" := "A" ]}.

(** A row with empty fields and a rating that is no number. *)
Definition row_unparsable : Row :=
  {[ "year" := "2020"; "city" := ""; "state" := ""; "stars_x" := "bad";
     "categories" := ""; "name" := "A" ]}.

(** The summary of [[row_austin; row_unparsable]]. *)
Definition summary_austin : Summary :=
  {| totalReviews := 2;
     yearTrends := [("2020", 2)];
     topCities := [("Austin, TX", 1)];
     topStates := [("TX", 1)];
     starDistribution := [(1, 0); (2, 0); (3, 0); (4, 1); (5, 0)];
     topCategories := [("Bakery", 1); ("Dessert", 1)];
     topBusinesses :=
       [mkBusiness "A" ", " 2 (Float (S754_finite false 5066549580791808 (-51)))] |}.

(** A review row of the business, city, state and category numbered
    [idx]. *)
Definition review_row (idx : string) : Row :=
  {[ "year" := "2020"; "city" := "C" +:+ idx; "state" := "S" +:+ idx;
     "stars_x" := "4"; "categories" := "K" +:+ idx; "name" := "B" +:+ idx ]}.

(** Eleven businesses in eleven cities with one review each, and a second
    review of the sixth. *)
Definition rows_ranked : list Row :=
  (review_row <$> ["00"; "01"; "02"; "03"; "04"; "05"; "06"; "07"; "08"; "09"; "10"])
  ++ [review_row "05"].

(** The nine keys that follow the sixth in the rankings of [rows_ranked]:
    the eleventh is cut off. *)
Definition ranked_rest : list string :=
  ["00"; "01"; "02"; "03"; "04"; "06"; "07"; "08"; "09"].

(** The float 4.0. *)
Definition four : float := S754_finite false 4503599627370496 (-50).

(** The summary of [rows_ranked]. *)
Definition summary_ranked : Summary :=
  {| totalReviews := 12;
     yearTrends := [("2020", 12)];
     topCities :=
       ("C05, S05", 2) :: ((λ i, ("C" +:+ i +:+ ", S" +:+ i, 1)) <$> ranked_rest);
     topStates := ("S05", 2) :: ((λ i, ("S" +:+ i, 1)) <$> ranked_rest);
     starDistribution := [(1, 0); (2, 0); (3, 0); (4, 12); (5, 0)];
     topCategories := ("K05", 2) :: ((λ i, ("K" +:+ i, 1)) <$> ranked_rest);
     topBusinesses :=
       mkBusiness "B05" "C05, S05" 2 (Float four)
       :: ((λ i, mkBusiness ("B" +:+ i) ("C" +:+ i +:+ ", S" +:+ i) 1 (Float four))
             <$> ranked_rest) |}.

(** A row of a dataset whose schema has no [year] column. *)
Definition row_without_year : Row :=
  {[ "city" := "Austin"; "state" := "TX"; "stars_x" := "4.0";
     "categories" := "Bakery"; "name" := "A" ]}.

(** A row whose rating reads as an infinity. *)
Definition row_infinite_rating : Row :=
  {[ "year" := "2020"; "city" := "Austin"; "state" := "TX";
     "stars_x" := "inf"; "categories" := "Bakery"; "name" := "A" ]}.

(** ** The comparison tables *)

(** The column [k] of [r] holds text that [int] rejects. *)
Definition int_column_fails (r : Row) (k : string) : Prop :=
  ∃ v e, r !! k = Some v ∧ int_of_str v = Raise e.

(** The column [k] of [r] holds text that [float] rejects. *)
Definition float_column_fails (r : Row) (k : string) : Prop :=
  ∃ v e, r !! k = Some v ∧ float_of_str v = Raise e.

(** Some numeric column of a row of the flavor comparison table does not
    coerce. *)
Definition comparison_coercion_fails (r : Row) : Prop :=
  int_column_fails r "Total Mentions" ∨ int_column_fails r "Unique Businesses" ∨
  int_column_fails r "Cities" ∨ float_column_fails r "Avg Review Rating".

(** The numeric column of a row of the city comparison table does not
    coerce. *)
Definition city_comparison_coercion_fails (r : Row) : Prop :=
  int_column_fails r "business_count".

(** A well-formed row of the flavor comparison table, and one whose
    mention count is no integer. *)
Definition comparison_row_good : Row :=
  {[ "Flavor" := "matcha"; "Total Mentions" := "120"; "Unique Businesses" := "40";
     "Cities" := "12"; "Avg Review Rating" := "4.25" ]}.

Definition comparison_row_bad : Row :=
  {[ "Flavor" := "ube"; "Total Mentions" := "12.5"; "Unique Businesses" := "4";
     "Cities" := "2"; "Avg Review Rating" := "4.0" ]}.

Definition city_comparison_row_bad : Row :=
  {[ "flavor" := "ube"; "city" := "Reno"; "business_count" := "n/a" ]}.

(** ** The star distribution *)

#[global] Instance exn_eq_dec : EqDecision exn.
Proof. solve_decision. Defined.

#[global] Instance result_eq_dec {A} `{EqDecision A} : EqDecision (result A).
Proof. solve_decision. Defined.

(** The row counts for the bucket [s]: its rating parses and truncates
    to [s]. *)
Definition in_bucket (s : Z) (r : Row) : Prop := star_of r = Ok s.

#[global] Instance in_bucket_dec s r : Decision (in_bucket s r).
Proof. unfold in_bucket. apply _. Defined.

Definition bucket_size (s : Z) (rows : list Row) : Z :=
  Z.of_nat (length (filter (in_bucket s) rows)).

(** ** The top businesses *)

(** The business a row counts for: its stripped name (no business when it
    is empty). *)
Definition biz_name (r : Row) : string := strip (get_or r "name" "").

(** The rows of the business [nm], in dataset order. *)
Definition rows_of (nm : string) (rows : list Row) : list Row :=
  filter (λ r, biz_name r = nm) rows.

(** The rating a row carries, when its rating text parses as a float. *)
Definition row_rating (r : Row) : option float :=
  match r !! "stars_x" with
  | Some s =>
      match float_of_str s with
      | Ok x => Some x
      | Raise _ => None
      end
  | None => None
  end.

(** A row adds its rating to the running total only when it parses. *)
Definition add_rating (r : Row) (t : num) : result num :=
  match row_rating r with
  | Some x => num_add t x
  | None => Ok t
  end.

(** The star total of the rows [rs]: from the integer 0, the ratings that
    parse, added in row order. *)
Definition star_total (rs : list Row) : result num :=
  for_each rs add_rating (Int 0).

(** The [city, state] text of a row. *)
Definition row_location (r : Row) : option string :=
  c ← r !! "city"; s ← r !! "state"; Some (city_state c s).

(** The rating of a business: star total over review count, rounded to 2
    decimals, or 0 when the review count is 0. *)
Definition spec_rating (total : num) (n : Z) : result num :=
  if n =? 0 then Ok (Int 0)
  else bind (num_truediv total n) (λ q, Ok (Float (round_ndigits q 2))).

(** [a] is the accumulator of the business [nm] over [rows]. *)
Record acc_of (nm : string) (rows : list Row) (a : Acc) : Prop := mkAccOf {
  (** one review per row of the business, *)
  ao_reviews : acc_reviews a = Z.of_nat (length (rows_of nm rows));
  (** the ratings that parse added up, *)
  ao_total : star_total (rows_of nm rows) = Ok (acc_total_stars a);
  (** the location of the last row. *)
  ao_location : last (rows_of nm rows) ≫= row_location = Some (acc_location a)
}.

(** [b] is the finalized record of a business of [rows]. *)
Record business_of (rows : list Row) (b : Business) : Prop := mkBusinessOf {
  bo_name : name b ≠ "";
  bo_rows : rows_of (name b) rows ≠ [];
  bo_reviews : reviews b = Z.of_nat (length (rows_of (name b) rows));
  bo_rating : ∃ total,
    star_total (rows_of (name b) rows) = Ok total ∧
    spec_rating total (reviews b) = Ok (rating b);
  bo_location : last (rows_of (name b) rows) ≫= row_location = Some (location b)
}.

(** The top-businesses fragment [bs] of [rows] with limit [n]. *)
Record top_businesses_of (n : nat) (rows : list Row) (bs : list Business)
  : Prop := mkTopBusinessesOf {
  (** at most [n] records, one per business, each finalized from the rows
      of its business, *)
  tb_length : (length bs ≤ n)%nat;
  tb_nodup : NoDup (name <$> bs);
  tb_business : ∀ b, b ∈ bs → business_of rows b;
  (** in non-increasing order of review count, *)
  tb_order : ∀ i j a b, (i < j)%nat → bs !! i = Some a → bs !! j = Some b →
    reviews b ≤ reviews a;
  (** a business being left out only when [n] businesses with at least as
      many reviews are listed. *)
  tb_top : ∀ r, r ∈ rows → biz_name r ≠ "" → biz_name r ∉ (name <$> bs) →
    length bs = n ∧
    ∀ b, b ∈ bs → Z.of_nat (length (rows_of (biz_name r) rows)) ≤ reviews b
}.

(** The state of the business loop after [rows]: one accumulator per
    business, in the order in which the businesses first appear. *)
Definition biz_invariant (rows : list Row) (d : dict string Acc) : Prop :=
  NoDup (keys d) ∧
  ∀ nm, match get nm d with
        | Some a => nm ≠ "" ∧ rows_of nm rows ≠ [] ∧ acc_of nm rows a
        | None => nm = "" ∨ rows_of nm rows = []
        end.


(** ** The order of floats and the top-rated selection *)

Definition is_nan (x : float) : bool :=
  match x with
  | S754_nan => true
  | _ => false
  end.

(** The place of a float that is no NaN in the order of the floats: the
    class (infinities, negative, zero, positive), then exponent and
    significand, compared in this order. *)
Definition float_code (x : float) : Z * Z * Z :=
  match x with
  | S754_infinity true => (-2, 0, 0)
  | S754_finite true m e => (-1, - e, - Z.pos m)
  | S754_zero _ => (0, 0, 0)
  | S754_nan => (0, 0, 0)
  | S754_finite false m e => (1, e, Z.pos m)
  | S754_infinity false => (2, 0, 0)
  end.

Definition code_lt (a b : Z * Z * Z) : Prop :=
  a.1.1 < b.1.1 ∨ a.1.1 = b.1.1 ∧ (a.1.2 < b.1.2 ∨ a.1.2 = b.1.2 ∧ a.2 < b.2).

(** The row passes the filter of the top-rated selection: both fields
    parse and the review count is at least 10. *)
Definition is_eligible (r : Row) : bool :=
  match rated_fields r with
  | Ok (_, n) => 10 <=? n
  | Raise _ => false
  end.

(** [e] is the record the selection builds from the row [r]. *)
Record rated_from (r : Row) (e : Rated) : Prop := mkRatedFrom {
  rf_fields : rated_fields r = Ok (rated_rating e, reviewCount e);
  rf_min : 10 ≤ reviewCount e;
  rf_name : r !! "name" = Some (rated_name e);
  rf_city : row_location r = Some (rated_city e);
  rf_categories : rated_categories e = get_or r "categories" ""
}.

(** No rating of the dataset is a NaN. *)
Definition no_nan_rating (rows : list Row) : Prop :=
  ∀ r x n, r ∈ rows → rated_fields r = Ok (x, n) → is_nan x = false.

(** [a] ranks above [b]: a greater rating, or an equal rating and more
    reviews. *)
Definition ranks_above (a b : Rated) : Prop :=
  fltb (rated_rating b) (rated_rating a) = true ∨
  feqb (rated_rating a) (rated_rating b) = true ∧ reviewCount b < reviewCount a.

(** [S] is the list [l] sorted by rank: it lists the records of [l] in an
    order [idx] of their positions, in which a position stands before
    another one only if its record ranks above the other record or it is
    the smaller position, and, when no rating is a NaN, never if the
    other record ranks above its record. *)
Definition sorted_by_rank (l S : list Rated) : Prop :=
  ∃ idx : list nat,
    idx ≡ₚ seq 0 (length l) ∧
    Forall2 (λ i e, l !! i = Some e) idx S ∧
    ∀ p q i j a b, (p < q)%nat →
      idx !! p = Some i → idx !! q = Some j → l !! i = Some a → l !! j = Some b →
      (ranks_above a b ∨ (i < j)%nat) ∧
      ((∀ e, e ∈ l → is_nan (rated_rating e) = false) → ¬ ranks_above b a).

(** The top-rated list [out] of [rows]. *)
Record top_rated_spec (rows : list Row) (out : list Rated) : Prop := mkTopRated {
  (** the first 10 of the records of the rows that pass the filter, sorted
      by rank, *)
  tr_first_ten : ∃ l S,
    Forall2 rated_from (filter (λ r, is_eligible r = true) rows) l ∧
    sorted_by_rank l S ∧ out = take 10 S;
  (** hence *)
  (** at most 10 records, *)
  tr_length : (length out ≤ 10)%nat;
  (** each built from a row that passes the filter, *)
  tr_eligible : ∀ e, e ∈ out → ∃ r, r ∈ rows ∧ is_eligible r = true ∧ rated_from r e;
  (** by rating descending, then review count descending, *)
  tr_order : no_nan_rating rows →
    ∀ i j a b, (i < j)%nat → out !! i = Some a → out !! j = Some b →
    fltb (rated_rating a) (rated_rating b) = false ∧
    (feqb (rated_rating a) (rated_rating b) = true → reviewCount b ≤ reviewCount a);
  (** with every row that passes the filter listed when at most 10 do. *)
  tr_all : (length (filter (λ r, is_eligible r = true) rows) ≤ 10)%nat →
    ∀ r, r ∈ rows → is_eligible r = true → ∃ e, e ∈ out ∧ rated_from r e
}.

(** A row of the current-year business table. *)
Definition rated_row (nm rating count : string) : Row :=
  {[ "name" := nm; "city" := "Reno"; "state" := "NV";
     "rating" := rating; "review_count" := count ]}.


(** One business with 9 reviews and one with 10. *)
Definition rows_nine_ten : list Row :=
  [rated_row "N" "5.0" "9"; rated_row "T" "4.0" "10"].





(** The report on [rows_nine_ten]. *)
Definition businesses_nine_ten : Businesses2025 :=
  {| total := 2;
     topCities2025 := [("Reno, NV", 2)];
     topStates2025 := [("NV", 2)];
     topRated :=
       [mkRated "T" "Reno, NV" (S754_finite false 4503599627370496 (-50)) 10 ""] |}.


(** ** Ratings in range *)

(** Every rating that contributes to the business [nm] parses and lies
    in [0, 5]. *)
Definition valid_business_ratings (nm : string) (rows : list Row) : Prop :=
  ∀ r, r ∈ rows_of nm rows → ∃ x, row_rating r = Some x ∧ between 0 5 x.

(** The rating that contributes to the record [e] of the top-rated list
    lies in [0, 5]. *)
Definition valid_record_rating (rows : list Row) (e : Rated) : Prop :=
  ∀ r x n, r ∈ rows → rated_from r e → rated_fields r = Ok (x, n) → between 0 5 x.

(** A review of another business, with a rating that is no number. *)
Definition row_bad_rating : Row :=
  {[ "year" := "2021"; "city" := "Reno"; "state" := "NV"; "stars_x" := "n/a";
     "categories" := "Cafe"; "name" := "B" ]}.

(** The summary of [[row_austin; row_bad_rating]]. *)
Definition summary_mixed : Summary :=
  {| totalReviews := 2;
     yearTrends := [("2020", 1); ("2021", 1)];
     topCities := [("Austin, TX", 1); ("Reno, NV", 1)];
     topStates := [("TX", 1); ("NV", 1)];
     starDistribution := [(1, 0); (2, 0); (3, 0); (4, 1); (5, 0)];
     topCategories := [("Bakery", 1); ("Dessert", 1); ("Cafe", 1)];
     topBusinesses :=
       [mkBusiness "A" "Austin, TX" 1
          (Float (S754_finite false 5066549580791808 (-50)));
        mkBusiness "B" "Reno, NV" 1 (Float (S754_zero false))] |}.

(** [a == 0] for a number. *)
Definition num_is_zero (a : num) : bool :=
  match a with
  | Int n => n =? 0
  | Float x => feqb x (S754_zero false)
  end.

(** A business whose only rating is 0. *)
Definition row_zero_rating : Row :=
  {[ "year" := "2021"; "city" := "Reno"; "state" := "NV"; "stars_x" := "0";
     "categories" := ""; "name" := "Z" ]}.

Definition summary_zero_rating : Summary :=
  {| totalReviews := 1;
     yearTrends := [("2021", 1)];
     topCities := [("Reno, NV", 1)];
     topStates := [("NV", 1)];
     starDistribution := [(1, 0); (2, 0); (3, 0); (4, 0); (5, 0)];
     topCategories := [];
     topBusinesses := [mkBusiness "Z" "Reno, NV" 1 (Float (S754_zero false))] |}.

(** ** Runs of the program *)

(** The files [main] reads. *)
Definition input_files : list string :=
  ["black_sesame_analysis.csv"; "matcha_analysis.csv"; "ube_analysis.csv";
   "flavor_comparison_summary.csv"; "asian_flavors_comparison_2025.csv";
   "black_sesame_businesses_2025.csv"].

(** A world with six empty tables. *)
Definition world_empty : World :=
  mkWorld (list_to_map ((λ f, (f, "")) <$> input_files)) [].

(** ** Datasets [process_flavor] gets through *)

(** The rows carry the columns the reducers index directly, and no rating
    reads as an infinity. *)
Definition processable (rows : list Row) : Prop :=
  ∀ r, r ∈ rows →
    is_Some (r !! "year") ∧ is_Some (r !! "city") ∧ is_Some (r !! "state") ∧
    star_of r ≠ Raise OverflowError.

(** ** The keys the rows count for *)

(** The year a row counts for: its [year] text when it is not empty. *)
Definition year_key (r : Row) : option string :=
  y ← r !! "year"; if truthy y then Some y else None.

(** The state a row counts for. *)
Definition state_key (r : Row) : option string :=
  s ← r !! "state"; if truthy s then Some s else None.

(** The city a row of a flavor dataset counts for: both texts must be
    non-empty. *)
Definition city_key (r : Row) : option string :=
  c ← r !! "city"; s ← r !! "state";
  if truthy c && truthy s then Some (city_state c s) else None.

(** The city a row of the current-year table counts for: the state may be
    empty. *)
Definition city_key_2025 (r : Row) : option string :=
  c ← r !! "city"; s ← r !! "state";
  if truthy c then Some (city_state c s) else None.

(** Number of rows that count for the key [k]. *)
Definition rows_counted {K} `{EqDecision K}
    (key : Row → option K) (k : K) (rows : list Row) : Z :=
  Z.of_nat (length (filter (λ r, key r = Some k) rows)).

(** The sum of the counts of a fragment. *)
Definition sum_counts {K} (out : list (K * Z)) : Z :=
  foldr (λ it acc, it.2 + acc) 0 out.

(** The sum of the review counts of the listed businesses. *)
Definition sum_reviews (bs : list Business) : Z :=
  foldr (λ b acc, reviews b + acc) 0 bs.

(** The yearly trends [out] of [rows]: one entry per year that some row
    carries, with the number of such rows, the years in strictly
    ascending order of their text. *)
Record year_trends_of (rows : list Row) (out : list (string * Z)) : Prop :=
  mkYearTrendsOf {
  yt_ascending : ∀ i j a b, (i < j)%nat →
    out !! i = Some a → out !! j = Some b → String.ltb a.1 b.1 = true;
  yt_entry : ∀ y c,
    (y, c) ∈ out ↔ 0 < c ∧ c = rows_counted year_key y rows
}.

(** ** Tables the current-year report gets through *)

(** The rows carry the [city] and [state] columns, and the [name] column
    where they pass the filter of the top-rated selection. *)
Definition processable_2025 (rows : list Row) : Prop :=
  ∀ r, r ∈ rows →
    is_Some (r !! "city") ∧ is_Some (r !! "state") ∧
    (is_eligible r = true → is_Some (r !! "name")).

(** A row of the current-year table with a city and no state. *)
Definition row_stateless : Row :=
  {[ "name" := "S"; "city" := "Reno"; "state" := "";
     "rating" := "4.0"; "review_count" := "3" ]}.

(** The report on [[row_stateless]]. *)
Definition businesses_stateless : Businesses2025 :=
  {| total := 1;
     topCities2025 := [("Reno, ", 1)];
     topStates2025 := [];
     topRated := [] |}.

(** ** Records of the comparison tables *)

(** The column [k] of [r] holds text that [int] reads as [n]. *)
Definition int_column (r : Row) (k : string) (n : Z) : Prop :=
  ∃ v, r !! k = Some v ∧ int_of_str v = Ok n.

(** The column [k] of [r] holds text that [float] reads as [x]. *)
Definition float_column (r : Row) (k : string) (x : float) : Prop :=
  ∃ v, r !! k = Some v ∧ float_of_str v = Ok x.

(** [c] is the record of the row [r] of the flavor comparison table. *)
Record comparison_of (r : Row) (c : FlavorComparison) : Prop := mkComparisonOf {
  co_flavor : r !! "Flavor" = Some (flavor c);
  co_mentions : int_column r "Total Mentions" (totalMentions c);
  co_businesses : int_column r "Unique Businesses" (uniqueBusinesses c);
  co_cities : int_column r "Cities" (cities c);
  co_rating : float_column r "Avg Review Rating" (avgRating c)
}.

(** [c] is the record of the row [r] of the city comparison table. *)
Record city_comparison_of (r : Row) (c : CityComparison) : Prop :=
  mkCityComparisonOf {
  cco_flavor : r !! "flavor" = Some (cc_flavor c);
  cco_city : r !! "city" = Some (cc_city c);
  cco_count : int_column r "business_count" (businessCount c)
}.

(** The columns the comparison processors index. *)
Definition comparison_columns : list string :=
  ["Flavor"; "Total Mentions"; "Unique Businesses"; "Cities"; "Avg Review Rating"].

Definition city_comparison_columns : list string :=
  ["flavor"; "city"; "business_count"].

(** How a comparison processor fails on [rows] with the exception [e]: at
    the first row that has no record, the rows before it having one;
    [e] is [ValueError] (a column that does not coerce) or the
    [KeyError] of a column the row lacks. *)
Definition fails_at_first {C} (record_of : Row → C → Prop) (columns : list string)
    (rows : list Row) (e : exn) : Prop :=
  ∃ pre r post,
    rows = pre ++ r :: post ∧
    (∀ p, p ∈ pre → ∃ c, record_of p c) ∧
    (∀ c, ¬ record_of r c) ∧
    (e = ValueError ∨ ∃ k, k ∈ columns ∧ r !! k = None ∧ e = KeyError k).

(** ** What a run prints and writes *)

(** The progress lines, in the order in which [main] prints them. *)
Definition progress_lines : list string :=
  ["Processing black sesame..."; "Processing matcha..."; "Processing ube...";
   "Processing comparison summary..."; "Processing 2025 city comparison...";
   "Processing 2025 businesses..."].

(** The closing lines of a run, for the row counts of the three flavor
    datasets and of the current-year table. *)
Definition report_lines (black_sesame matcha ube businesses : Z) : list string :=
  ["Written to " +:+ OUTPUT;
   "  Black Sesame: " +:+ str_of_int black_sesame +:+ " reviews";
   "  Matcha: " +:+ str_of_int matcha +:+ " reviews";
   "  Ube: " +:+ str_of_int ube +:+ " reviews";
   "  2025 Businesses: " +:+ str_of_int businesses].

(** The text of the output file around the serialized data. *)
Definition output_text (serialized : string) : string :=
  "// Asian Flavors Data - Generated from Yelp Academic Dataset" +:+ newline
  +:+ "const flavorData = " +:+ serialized +:+ ";" +:+ newline.

(** The object [main] serializes. *)
Definition data_of (black_sesame matcha ube : Summary)
    (comparison : list FlavorComparison)
    (city_comparison_2025 : list CityComparison)
    (businesses_2025 : Businesses2025) : json :=
  JObj [("blackSesame", json_summary black_sesame);
        ("matcha", json_summary matcha);
        ("ube", json_summary ube);
        ("flavorComparison", JList (json_comparison <$> comparison));
        ("cityComparison2025",
          JList (json_city_comparison <$> city_comparison_2025));
        ("blackSesame2025", json_2025 businesses_2025)].

(** The number of rows of the table in the file [f]. *)
Definition row_count (DictReader : string → list Row) (w : World) (f : string) : Z :=
  match files w !! f with
  | Some text => Z.of_nat (length (DictReader text))
  | None => 0
  end.

(** The six processors get through the tables of the world [w]. *)
Record processed (DictReader : string → list Row) (w : World)
    (s1 s2 s3 : Summary) (c4 : list FlavorComparison)
    (c5 : list CityComparison) (b6 : Businesses2025) : Prop := mkProcessed {
  pr_black_sesame : ∃ t, files w !! "black_sesame_analysis.csv" = Some t ∧
    process_flavor_rows (DictReader t) = Ok s1;
  pr_matcha : ∃ t, files w !! "matcha_analysis.csv" = Some t ∧
    process_flavor_rows (DictReader t) = Ok s2;
  pr_ube : ∃ t, files w !! "ube_analysis.csv" = Some t ∧
    process_flavor_rows (DictReader t) = Ok s3;
  pr_comparison : ∃ t, files w !! "flavor_comparison_summary.csv" = Some t ∧
    process_comparison_summary_rows (DictReader t) = Ok c4;
  pr_city_comparison : ∃ t, files w !! "asian_flavors_comparison_2025.csv" = Some t ∧
    process_2025_comparison_rows (DictReader t) = Ok c5;
  pr_businesses : ∃ t, files w !! "black_sesame_businesses_2025.csv" = Some t ∧
    process_2025_businesses_rows (DictReader t) = Ok b6
}.




(** A reader for sample runs: the text [austin] holds the two sample
    review rows, any other text an empty table. *)
Definition sample_reader (text : string) : list Row :=
  if decide (text = "austin") then [row_austin; row_unparsable] else [].

(** A world whose black sesame dataset holds the sample rows, the other
    tables being empty. *)
Definition world_austin : World :=
  mkWorld (<["black_sesame_analysis.csv" := "austin"]> (files world_empty)) [].

(** A world that lacks the matcha dataset. *)
Definition world_no_matcha : World :=
  mkWorld (delete "matcha_analysis.csv" (files world_austin)) ["earlier run"].

(** ** Businesses as keys *)

(** The business a row counts for, when its stripped name is not empty. *)
Definition biz_key (r : Row) : option string :=
  if decide (biz_name r = "") then None else Some (biz_name r).

(** The name and the review count of a listed business. *)
Definition name_reviews (b : Business) : string * Z := (name b, reviews b).

(* ================================================================== *)
(** * Part IV: facts about the runtime                                 *)
(* ================================================================== *)

(** ** The runtime on sample values

    Each value below is the one the interpreter gives for the Python
    expression quoted above it; a float [S754_finite s m e] is
    [(-1)^s * m * 2^e]. *)

(** [int(" 42 ")], [int("1_000")], [int("+7")], [int("-0012")] *)
Example int_of_str_accepts :
  int_of_str " 42 " = Ok 42 ∧ int_of_str "1_000" = Ok 1000 ∧
  int_of_str "+7" = Ok 7 ∧ int_of_str "-0012" = Ok (-12).
Proof. vm_compute. repeat split. Qed.

(** [int("4.5")], [int("")], [int("1__0")], [int("12_")] *)
Example int_of_str_rejects :
  int_of_str "4.5" = Raise ValueError ∧ int_of_str "" = Raise ValueError ∧
  int_of_str "1__0" = Raise ValueError ∧ int_of_str "12_" = Raise ValueError.
Proof. vm_compute. repeat split. Qed.

(** [float("4.5")], [float("0.1")], [float(" 5e-1 ")], [float("1_0.5")],
    [float("5.")] *)
Example float_of_str_finite :
  float_of_str "4.5" = Ok (S754_finite false 5066549580791808 (-50)) ∧
  float_of_str "0.1" = Ok (S754_finite false 7205759403792794 (-56)) ∧
  float_of_str " 5e-1 " = Ok (S754_finite false 4503599627370496 (-53)) ∧
  float_of_str "1_0.5" = Ok (S754_finite false 5910974510923776 (-49)) ∧
  float_of_str "5." = Ok (S754_finite false 5629499534213120 (-50)).
Proof. vm_compute. repeat split. Qed.

(** [float("nan")], [float("-Infinity")], [float("1e999")],
    [float("1e-999")], [float("-0")], [float("abc")], [float("")] *)
Example float_of_str_special :
  float_of_str "nan" = Ok S754_nan ∧
  float_of_str "-Infinity" = Ok (S754_infinity true) ∧
  float_of_str "1e999" = Ok (S754_infinity false) ∧
  float_of_str "1e-999" = Ok (S754_zero false) ∧
  float_of_str "-0" = Ok (S754_zero true) ∧
  float_of_str "abc" = Raise ValueError ∧
  float_of_str "" = Raise ValueError.
Proof. vm_compute. repeat split. Qed.

(** [int(float("4.7"))], [int(float("-4.7"))], [int(float("0.9"))],
    [int(float("inf"))], [int(float("nan"))] *)
Example int_of_float_truncates :
  bind (float_of_str "4.7") int_of_float = Ok 4 ∧
  bind (float_of_str "-4.7") int_of_float = Ok (-4) ∧
  bind (float_of_str "0.9") int_of_float = Ok 0 ∧
  bind (float_of_str "inf") int_of_float = Raise OverflowError ∧
  bind (float_of_str "nan") int_of_float = Raise ValueError.
Proof. vm_compute. repeat split. Qed.

(** [round(2.675, 2) == 2.67], [round(0.125, 2) == 0.12],
    [round(0.135, 2) == 0.14], [round(2.25, 2) == 2.25] *)
Example round_ndigits_half_even :
  bind (float_of_str "2.675") (λ x, Ok (round_ndigits x 2)) = float_of_str "2.67" ∧
  bind (float_of_str "0.125") (λ x, Ok (round_ndigits x 2)) = float_of_str "0.12" ∧
  bind (float_of_str "0.135") (λ x, Ok (round_ndigits x 2)) = float_of_str "0.14" ∧
  bind (float_of_str "2.25") (λ x, Ok (round_ndigits x 2)) = float_of_str "2.25".
Proof. vm_compute. repeat split. Qed.

(** [0.1 + 0.2 == 0.30000000000000004], [4.5 / 2 == 2.25], [0 / 3 == 0.0],
    [7 / 0] *)
Example float_arithmetic :
  bind (float_of_str "0.1") (λ x, bind (float_of_str "0.2") (λ y, Ok (fadd x y)))
    = float_of_str "0.30000000000000004" ∧
  bind (float_of_str "4.5") (λ x, num_truediv (Float x) 2) = float_of_str "2.25" ∧
  num_truediv (Int 0) 3 = Ok (S754_zero false) ∧
  num_truediv (Int 7) 0 = Raise ZeroDivisionError.
Proof. vm_compute. repeat split. Qed.

(** ["a,,b".split(",")], ["".split(",")], ["Bakery, Dessert".split(",")],
    ["  a b ".strip()] *)
Example split_strip :
  split "," "a,,b" = ["a"; ""; "b"] ∧ split "," "" = [""] ∧
  split "," "Bakery, Dessert" = ["Bakery"; " Dessert"] ∧
  strip "  a b " = "a b".
Proof. vm_compute. repeat split. Qed.

(** [Counter(["a","b","b","c","c","a","d"]).most_common(2)] is
    [[("a", 2), ("b", 2)]]: of the keys counted twice, the two first seen. *)
Example most_common_ties :
  most_common 2 (Counter ["a"; "b"; "b"; "c"; "c"; "a"; "d"]) = [("a", 2); ("b", 2)] ∧
  keys (Counter ["b"; "a"; "b"]) = ["b"; "a"].
Proof. vm_compute. repeat split. Qed.

(** ** Lists, stable sorting, dictionaries and counters *)

Section ListFacts.
Context {A : Type}.
Implicit Types l : list A.

Lemma before_lookup l i j a b :
  (i < j)%nat → l !! i = Some a → l !! j = Some b → before a b l.
Proof.
  intros Hij Hi Hj.
  destruct (list_elem_of_split_length l i a Hi) as (l1 & l2 & -> & Hlen).
  rewrite lookup_app_r in Hj by lia.
  destruct (j - length l1)%nat as [|n] eqn:E; [lia|]. simpl in Hj.
  destruct (list_elem_of_split_length l2 n b Hj) as (l3 & l4 & -> & _).
  by exists l1, l3, l4.
Qed.

Lemma before_cons_inv a b x l :
  before a b (x :: l) → (a = x ∧ b ∈ l) ∨ before a b l.
Proof.
  intros (l1 & l2 & l3 & E). destruct l1 as [|y l1]; simplify_eq/=.
  - left. split; [done|]. set_solver.
  - right. by exists l1, l2, l3.
Qed.

Lemma before_cons a b x l : before a b l → before a b (x :: l).
Proof. intros (l1 & l2 & l3 & ->). by exists (x :: l1), l2, l3. Qed.

Lemma before_head a b l : b ∈ l → before a b (a :: l).
Proof.
  intros (l2 & l3 & ->)%list_elem_of_split. by exists [], l2, l3.
Qed.

Lemma before_elem_of a b l : before a b l → a ∈ l ∧ b ∈ l.
Proof. intros (l1 & l2 & l3 & ->). set_solver. Qed.

(** Two lists in the strict order [R] with the same entries are the same
    list. *)
Lemma sorted_ext (R : A → A → Prop) l1 l2 :
  (∀ a b, R a b → R b a → False) →
  (∀ i j a b, (i < j)%nat → l1 !! i = Some a → l1 !! j = Some b → R a b) →
  (∀ i j a b, (i < j)%nat → l2 !! i = Some a → l2 !! j = Some b → R a b) →
  (∀ x, x ∈ l1 ↔ x ∈ l2) → l1 = l2.
Proof.
  intros Hasym.
  assert (Hhd : ∀ x l y,
    (∀ i j a b, (i < j)%nat → (x :: l) !! i = Some a → (x :: l) !! j = Some b →
       R a b) → y ∈ l → R x y).
  { intros x l y H [k Hk]%list_elem_of_lookup_1. by apply (H 0%nat (S k)); [lia|..]. }
  revert l2. induction l1 as [|x1 l1 IH]; intros [|x2 l2] H1 H2 Hs.
  - done.
  - exfalso. apply (proj1 (elem_of_nil x2)), Hs. by left.
  - exfalso. apply (proj1 (elem_of_nil x1)), Hs. by left.
  - assert (x1 = x2) as ->.
    { assert (x1 ∈ x2 :: l2) as [->|Hin1]%elem_of_cons by (apply Hs; by left); [done|].
      assert (x2 ∈ x1 :: l1) as [->|Hin2]%elem_of_cons by (apply Hs; by left); [done|].
      destruct (Hasym x1 x2); [by apply (Hhd _ _ _ H1)|by apply (Hhd _ _ _ H2)]. }
    f_equal. apply IH.
    + intros i j a b Hij Hi Hj. by apply (H1 (S i) (S j)); [lia|..].
    + intros i j a b Hij Hi Hj. by apply (H2 (S i) (S j)); [lia|..].
    + intros x. split; intros Hx.
      * assert (x ∈ x2 :: l2) as [->|Hin]%elem_of_cons by (apply Hs; by right); [|done].
        destruct (Hasym x2 x2); by apply (Hhd _ _ _ H1).
      * assert (x ∈ x2 :: l1) as [->|Hin]%elem_of_cons by (apply Hs; by right); [|done].
        destruct (Hasym x2 x2); by apply (Hhd _ _ _ H2).
Qed.

Lemma before_lookup_inv l a b :
  before a b l → ∃ i j, (i < j)%nat ∧ l !! i = Some a ∧ l !! j = Some b.
Proof.
  intros (l1 & l2 & l3 & ->).
  exists (length l1), (length l1 + S (length l2))%nat. split; [lia|]. split.
  - by rewrite list_lookup_middle.
  - rewrite lookup_app_r by lia.
    replace (length l1 + S (length l2) - length l1)%nat with (S (length l2)) by lia.
    simpl. by rewrite list_lookup_middle.
Qed.

Lemma before_take_drop n l a b : a ∈ take n l → b ∈ drop n l → before a b l.
Proof.
  intros (l1 & l2 & E1)%list_elem_of_split (l3 & l4 & E2)%list_elem_of_split.
  exists l1, (l2 ++ l3), l4.
  rewrite <- (take_drop n l), E1, E2. by rewrite <- !app_assoc.
Qed.

Lemma before_fmap {B} (f : A → B) a b l :
  before a b l → before (f a) (f b) (f <$> l).
Proof.
  intros (l1 & l2 & l3 & ->).
  exists (f <$> l1), (f <$> l2), (f <$> l3).
  by rewrite !fmap_app, !fmap_cons, fmap_app.
Qed.
End ListFacts.

Section SortFacts.
Context {A K : Type} (lt : K → K → bool) (key : A → K).

Lemma insert_asc_perm x l : insert_asc lt key x l ≡ₚ x :: l.
Proof.
  induction l as [|y l IH]; simpl; [done|].
  destruct (lt (key y) (key x)); [|done].
  rewrite IH. apply Permutation_swap.
Qed.

Lemma sorted_perm xs : sorted lt key xs ≡ₚ xs.
Proof.
  induction xs as [|x xs IH]; simpl; [done|].
  unfold sorted in *. simpl. by rewrite insert_asc_perm, IH.
Qed.

(** Whatever [lt] is, an item overtakes another one only if its key is
    smaller: the sort is stable. *)
Lemma insert_asc_before x l a b :
  before a b (insert_asc lt key x l) →
  lt (key a) (key b) = true ∨ before a b (x :: l).
Proof.
  induction l as [|y l IH]; simpl; [by right|].
  destruct (lt (key y) (key x)) eqn:E; [|by right].
  intros [[-> Hb]|Hab]%before_cons_inv.
  - rewrite insert_asc_perm in Hb.
    apply elem_of_cons in Hb as [->|Hb]; [by left|].
    right. apply before_cons. by apply before_head.
  - destruct (IH Hab) as [?|[[-> Hb]|Hab']%before_cons_inv]; [by left|..].
    + right. apply before_head. set_solver.
    + right. by do 2 apply before_cons.
Qed.

Lemma sorted_stable xs a b :
  before a b (sorted lt key xs) →
  lt (key a) (key b) = true ∨ before a b xs.
Proof.
  revert a b. induction xs as [|x xs IH]; intros a b; unfold sorted in *; simpl.
  - intros (l1 & ? & ? & E). by destruct l1.
  - intros [?|[[-> Hb]|Hab]%before_cons_inv]%insert_asc_before; [by left|..].
    + right. apply before_head. by rewrite <- (sorted_perm xs).
    + destruct (IH _ _ Hab); [by left|]. right. by apply before_cons.
Qed.

(** With [<] a strict weak order on the keys that occur (the keys that are
    [good]) the result is in order. *)
Context (good : K → Prop).
Context (lt_asym : ∀ a b, good a → good b → lt a b = true → lt b a = false).
Context (lt_trans' : ∀ a b c, good a → good b → good c →
  lt b a = false → lt c b = false → lt c a = false).

Lemma insert_asc_sorted x l :
  good (key x) → Forall (λ y, good (key y)) l →
  StronglySorted (not_after lt key) l →
  StronglySorted (not_after lt key) (insert_asc lt key x l).
Proof.
  intros Hx Hg. induction 1 as [|y l Hl IH Hy]; simpl.
  - repeat constructor.
  - apply Forall_cons in Hg as [Hgy Hg].
    destruct (lt (key y) (key x)) eqn:E.
    + constructor; [by apply IH|].
      rewrite insert_asc_perm. constructor; [|done].
      by apply lt_asym.
    + constructor; [by constructor|].
      constructor; [done|].
      rewrite Forall_forall in Hy, Hg. apply Forall_forall. intros z Hz.
      unfold not_after in *. eapply (lt_trans' _ (key y)); eauto.
Qed.

Lemma sorted_sorted xs :
  Forall (λ y, good (key y)) xs →
  StronglySorted (not_after lt key) (sorted lt key xs).
Proof.
  induction xs as [|x xs IH]; unfold sorted in *; simpl.
  - constructor.
  - intros [Hx Hg]%Forall_cons. apply insert_asc_sorted; [done| |by apply IH].
    by rewrite (sorted_perm xs).
Qed.
End SortFacts.

Lemma insert_asc_fmap {A B K} (lt : K → K → bool) (key : B → K) (f : A → B) x l :
  insert_asc lt key (f x) (f <$> l) = f <$> insert_asc lt (key ∘ f) x l.
Proof.
  induction l as [|y l IH]; [done|]. rewrite fmap_cons. cbn [insert_asc]. simpl.
  destruct (lt (key (f y)) (key (f x))); [|done]. by rewrite IH, fmap_cons.
Qed.

(** Sorting by a key of a component is sorting the components. *)
Lemma sorted_fmap {A B K} (lt : K → K → bool) (key : B → K) (f : A → B) l :
  sorted lt key (f <$> l) = f <$> sorted lt (key ∘ f) l.
Proof.
  unfold sorted. induction l as [|x l IH]; [done|].
  rewrite fmap_cons. cbn [foldr]. by rewrite IH, insert_asc_fmap.
Qed.

Lemma sorted_reverse_asc {A K} (lt : K → K → bool) (key : A → K) xs :
  sorted_reverse lt key xs = sorted (λ a b, lt b a) key xs.
Proof.
  unfold sorted_reverse, sorted. induction xs as [|x xs IH]; simpl; [done|].
  rewrite IH. generalize (foldr (insert_asc (λ a b : K, lt b a) key) [] xs).
  intros l. induction l as [|y l IHl]; simpl; [done|]. by rewrite IHl.
Qed.

Section DictFacts.
Context {K V : Type} `{EqDecision K}.
Implicit Types d : dict K V.

Lemma get_None d k : get k d = None ↔ k ∉ keys d.
Proof.
  unfold keys. induction d as [|[k' v] d IH]; simpl.
  - split; [set_solver|done].
  - destruct (decide (k' = k)) as [->|Hne].
    + split; [done|]. set_solver.
    + rewrite IH. set_solver.
Qed.

Lemma get_Some_elem_of d k v : get k d = Some v → (k, v) ∈ d.
Proof.
  induction d as [|[k' v'] d IH]; simpl; [done|].
  destruct (decide (k' = k)) as [->|Hne].
  - intros [= ->]. set_solver.
  - set_solver.
Qed.

Lemma elem_of_get d k v : NoDup (keys d) → (k, v) ∈ d → get k d = Some v.
Proof.
  unfold keys. induction d as [|[k' v'] d IH]; simpl.
  - set_solver.
  - intros [Hk Hd]%NoDup_cons [E|Hin]%elem_of_cons.
    + simplify_eq. by rewrite decide_True.
    + destruct (decide (k' = k)) as [->|Hne]; [|by apply IH].
      destruct Hk. apply list_elem_of_fmap. by exists (k, v).
Qed.

Lemma get_set_eq d k v : get k (set k v d) = Some v.
Proof.
  induction d as [|[k' v'] d IH]; simpl.
  - by rewrite decide_True.
  - destruct (decide (k' = k)) as [->|Hne]; simpl.
    + by rewrite decide_True.
    + by rewrite decide_False.
Qed.

Lemma get_set_ne d k k' v : k ≠ k' → get k' (set k v d) = get k' d.
Proof.
  intros Hne. induction d as [|[k0 v0] d IH]; simpl.
  - by rewrite decide_False.
  - destruct (decide (k0 = k)) as [->|Hne0]; simpl.
    + by rewrite !decide_False.
    + by rewrite IH.
Qed.

(** A new key goes last; a present key keeps its place. *)
Lemma keys_set d k v :
  keys (set k v d) = if decide (k ∈ keys d) then keys d else keys d ++ [k].
Proof.
  unfold keys. induction d as [|[k' v'] d IH].
  - rewrite decide_False; [done|set_solver].
  - cbn [set]. destruct (decide (k' = k)) as [->|Hne].
    + rewrite !fmap_cons. cbn [fst]. rewrite decide_True; [done|set_solver].
    + rewrite !fmap_cons, IH. cbn [fst].
      destruct (decide (k ∈ d.*1)).
      * rewrite decide_True; [done|set_solver].
      * rewrite decide_False; [done|set_solver].
Qed.
End DictFacts.

Section CounterFacts.
Context {K : Type} `{EqDecision K}.
Implicit Types ks : list K.

Lemma occurrences_app k ks1 ks2 :
  occurrences k (ks1 ++ ks2) = occurrences k ks1 + occurrences k ks2.
Proof. induction ks1 as [|k' ks1 IH]; simpl; lia. Qed.

Lemma occurrences_nonneg k ks : 0 ≤ occurrences k ks.
Proof. induction ks as [|k' ks IH]; simpl; [lia|]. case_decide; lia. Qed.

Lemma occurrences_pos k ks : k ∈ ks ↔ 0 < occurrences k ks.
Proof.
  induction ks as [|k' ks IH]; simpl.
  - split; [set_solver|lia].
  - pose proof (occurrences_nonneg k ks). case_decide as E.
    + subst. split; [lia|set_solver].
    + rewrite <- IH. set_solver.
Qed.

Lemma Counter_snoc ks k : Counter (ks ++ [k]) = incr k (Counter ks).
Proof. unfold Counter. by rewrite fold_left_app. Qed.

(** The counter holds exactly the keys of the stream, each with its
    number of occurrences. *)
Lemma Counter_get ks k :
  get k (Counter ks) =
    if decide (k ∈ ks) then Some (occurrences k ks) else None.
Proof.
  induction ks as [|k' ks IH] using rev_ind.
  - rewrite decide_False; [done|set_solver].
  - rewrite Counter_snoc. unfold incr.
    destruct (decide (k' = k)) as [->|Hne].
    + rewrite get_set_eq, IH, occurrences_app. cbn [occurrences].
      rewrite (decide_True (P := k = k)) by done.
      rewrite (decide_True (P := k ∈ ks ++ [k])) by set_solver.
      destruct (decide (k ∈ ks)) as [Hin|Hin]; cbn [default]; [f_equal; lia|].
      f_equal. assert (¬ 0 < occurrences k ks) by by rewrite <- occurrences_pos.
      pose proof (occurrences_nonneg k ks). lia.
    + rewrite get_set_ne by done. rewrite IH, occurrences_app. cbn [occurrences].
      rewrite (decide_False (P := k' = k)) by done.
      destruct (decide (k ∈ ks)).
      * rewrite decide_True by set_solver. f_equal. lia.
      * rewrite decide_False; [done|set_solver].
Qed.

Lemma Counter_keys_elem_of ks k : k ∈ keys (Counter ks) ↔ k ∈ ks.
Proof.
  pose proof (Counter_get ks k) as Hg. pose proof (get_None (Counter ks) k) as Hn.
  destruct (decide (k ∈ ks)).
  - split; [done|]. intros _. destruct (decide (k ∈ keys (Counter ks))); [done|].
    apply Hn in n. congruence.
  - split; [|done]. intros Hin. apply Hn in Hg. done.
Qed.

Lemma Counter_keys_snoc ks k :
  keys (Counter (ks ++ [k])) =
    if decide (k ∈ ks) then keys (Counter ks) else keys (Counter ks) ++ [k].
Proof.
  rewrite Counter_snoc. unfold incr. rewrite keys_set.
  destruct (decide (k ∈ ks)).
  - rewrite decide_True; [done|by apply Counter_keys_elem_of].
  - rewrite decide_False; [done|by rewrite Counter_keys_elem_of].
Qed.

Lemma Counter_keys_NoDup ks : NoDup (keys (Counter ks)).
Proof.
  induction ks as [|k ks IH] using rev_ind; [constructor|].
  rewrite Counter_keys_snoc. case_decide; [done|].
  apply NoDup_app. split; [done|]. split; [|apply NoDup_singleton].
  intros x Hx Hk%list_elem_of_singleton. subst.
  by apply (proj1 (Counter_keys_elem_of ks k)) in Hx.
Qed.

(** The keys stand in the order of their first occurrence. *)
Lemma Counter_keys_order ks k1 k2 :
  before k1 k2 (keys (Counter ks)) → first_seen_before k1 k2 ks.
Proof.
  induction ks as [|k ks IH] using rev_ind.
  - intros (l1 & ? & ? & E). by destruct l1.
  - rewrite Counter_keys_snoc. case_decide as Hk.
    + intros (pre & post & -> & ? & ? & ?)%IH.
      exists pre, (post ++ [k]). by rewrite <- app_assoc.
    + intros Hb.
      assert (before k1 k2 (keys (Counter ks)) ∨
              (k1 ∈ keys (Counter ks) ∧ k2 = k)) as [Hb'|[Hk1 ->]].
      { destruct Hb as (l1 & l2 & l3 & E).
        destruct l3 as [|z l3 _] using rev_ind.
        - right. replace (l1 ++ k1 :: l2 ++ [k2]) with ((l1 ++ k1 :: l2) ++ [k2]) in E
            by (by rewrite <- app_assoc).
          apply app_inj_tail in E as [E ->]. split; [|done]. rewrite E. set_solver.
        - left. replace (l1 ++ k1 :: l2 ++ k2 :: l3 ++ [z])
            with ((l1 ++ k1 :: l2 ++ k2 :: l3) ++ [z]) in E
            by (repeat (rewrite <- app_assoc; cbn [app]); done).
          apply app_inj_tail in E as [E _]. by exists l1, l2, l3. }
      * destruct (IH Hb') as (pre & post & -> & ? & ? & ?).
        exists pre, (post ++ [k]). by rewrite <- app_assoc.
      * apply (proj1 (Counter_keys_elem_of ks k1)) in Hk1.
        apply list_elem_of_split_l in Hk1 as (pre & post & -> & Hpre).
        exists pre, (post ++ [k]). rewrite <- app_assoc.
        repeat split; [done|set_solver|]. intros ->. set_solver.
Qed.

Lemma Counter_elem_of ks k n :
  (k, n) ∈ Counter ks ↔ k ∈ ks ∧ n = occurrences k ks.
Proof.
  split.
  - intros Hin. apply elem_of_get in Hin; [|apply Counter_keys_NoDup].
    rewrite Counter_get in Hin. case_decide; naive_solver.
  - intros [Hin ->]. apply get_Some_elem_of. rewrite Counter_get.
    by rewrite decide_True.
Qed.
End CounterFacts.

Lemma StronglySorted_before {A} (R : A → A → Prop) l a b :
  StronglySorted R l → before a b l → R a b.
Proof.
  intros HS (l1 & l2 & l3 & ->).
  apply StronglySorted_app_1_r in HS.
  apply StronglySorted_cons in HS as [HF _].
  rewrite Forall_forall in HF. apply HF. set_solver.
Qed.

Lemma StronglySorted_mono {A} (R R' : A → A → Prop) l :
  (∀ a b, R a b → R' a b) → StronglySorted R l → StronglySorted R' l.
Proof.
  intros HR. induction 1 as [|x l Hl IH Hx]; constructor; [done|].
  eapply Forall_impl; [exact Hx|]. intros y. apply HR.
Qed.

Section TopFacts.
Context {A : Type} (key : A → Z).

Lemma desc_perm xs : desc key xs ≡ₚ xs.
Proof. unfold desc. rewrite sorted_reverse_asc. apply sorted_perm. Qed.

Lemma desc_sorted xs : StronglySorted (λ a b, key b ≤ key a) (desc key xs).
Proof.
  unfold desc. rewrite sorted_reverse_asc.
  eapply StronglySorted_mono;
    [|apply (sorted_sorted _ _ (λ _, True)); [..|by apply Forall_true]].
  - intros a b. unfold not_after. lia.
  - intros a b _ _ H. lia.
  - intros a b c _ _ _ H1 H2. lia.
Qed.

Lemma desc_stable xs a b :
  before a b (desc key xs) → key a = key b → before a b xs.
Proof.
  unfold desc. rewrite sorted_reverse_asc.
  intros [Hlt|Hb]%sorted_stable Hk; [lia|done].
Qed.

Lemma take_desc_order n xs i j a b :
  (i < j)%nat → take n (desc key xs) !! i = Some a → take n (desc key xs) !! j = Some b →
  key b ≤ key a ∧ (key a = key b → before a b xs).
Proof.
  intros Hij Hi Hj.
  apply lookup_take_Some in Hi as [Hi _]. apply lookup_take_Some in Hj as [Hj _].
  pose proof (before_lookup _ _ _ _ _ Hij Hi Hj) as Hb. split.
  - by apply (StronglySorted_before _ _ _ _ (desc_sorted xs)).
  - by apply desc_stable.
Qed.

Lemma take_desc_top n xs x :
  x ∈ xs → x ∉ take n (desc key xs) →
  length (take n (desc key xs)) = n ∧ ∀ a, a ∈ take n (desc key xs) → key x ≤ key a.
Proof.
  intros Hx Hnot. rewrite <- (desc_perm xs) in Hx.
  rewrite <- (take_drop n (desc key xs)) in Hx.
  apply elem_of_app in Hx as [?|Hx]; [done|]. split.
  - rewrite length_take. destruct (decide (n ≤ length (desc key xs))%nat); [lia|].
    rewrite drop_ge in Hx by lia. set_solver.
  - intros a Ha. pose proof (desc_sorted xs) as HS.
    rewrite <- (take_drop n (desc key xs)) in HS.
    by apply (StronglySorted_app_1_elem_of _ _ _ _ _ HS Ha Hx).
Qed.
(** An item that is cut off ranks below every item that is kept: its key
    is not greater, and with an equal key it stood later. *)
Lemma take_desc_cut n xs x a :
  x ∈ xs → x ∉ take n (desc key xs) → a ∈ take n (desc key xs) →
  key x ≤ key a ∧ (key a = key x → before a x xs).
Proof.
  intros Hx Hnot Ha. rewrite <- (desc_perm xs) in Hx.
  rewrite <- (take_drop n (desc key xs)) in Hx.
  apply elem_of_app in Hx as [?|Hx]; [done|].
  pose proof (before_take_drop _ _ _ _ Ha Hx) as Hb. split.
  - by apply (StronglySorted_before _ _ _ _ (desc_sorted xs)).
  - by apply desc_stable.
Qed.
End TopFacts.

Lemma most_common_ranking {K} `{EqDecision K} (n : nat) (ks : list K) :
  ranking n ks (most_common n (Counter ks)).
Proof.
  unfold most_common. fold (desc (A := K * Z) snd (Counter ks)).
  set (c := Counter ks). set (S := desc snd c).
  assert (HS : S ≡ₚ c) by apply desc_perm.
  assert (Hnd : NoDup (take n S).*1).
  { rewrite fmap_take. apply (sublist_NoDup _ S.*1); [|apply sublist_take].
    rewrite HS. apply Counter_keys_NoDup. }
  assert (Hin : ∀ k v, (k, v) ∈ take n S → k ∈ ks ∧ v = occurrences k ks).
  { intros k v Hkv%elem_of_take. destruct Hkv as (i & Hi%list_elem_of_lookup_2 & _).
    rewrite HS in Hi. by apply Counter_elem_of in Hi. }
  assert (Htop : ∀ k, k ∈ ks → k ∉ (take n S).*1 →
     length (take n S) = n ∧
     ∀ a, a ∈ take n S →
       occurrences k ks ≤ a.2 ∧
       (a.2 = occurrences k ks → first_seen_before a.1 k ks)).
  { intros k Hk Hnot.
    assert (Hkc : (k, occurrences k ks) ∈ c) by by apply Counter_elem_of.
    assert (Hcut : (k, occurrences k ks) ∉ take n (desc snd c)).
    { intros Hin'. apply Hnot. apply list_elem_of_fmap. by exists (k, occurrences k ks). }
    split; [by apply (take_desc_top snd n c (k, occurrences k ks))|].
    intros a Ha.
    destruct (take_desc_cut snd n c _ a Hkc Hcut Ha) as [Hle Htie]. split; [done|].
    intros E. apply Counter_keys_order.
    by apply (before_fmap fst _ (k, occurrences k ks)), Htie. }
  split; [| done | | | done |].
  - rewrite length_take. lia.
  - intros k v Hkv. destruct (Hin _ _ Hkv) as [Hk ->]. repeat split; [done|].
    by apply occurrences_pos.
  - intros i j [k1 v1] [k2 v2] Hij Hi Hj.
    destruct (take_desc_order snd n c _ _ _ _ Hij Hi Hj) as [Hle Htie]. split; [done|].
    intros E. apply Counter_keys_order. by apply (before_fmap fst), Htie.
  - intros Hlen k Hk. destruct (decide (k ∈ (take n S).*1)) as [|Hnot]; [done|].
    exfalso. destruct (Htop k Hk Hnot) as [Hfull _].
    assert (Hsub : (k :: (take n S).*1) ⊆+ remove_dups ks).
    { apply NoDup_submseteq; [by constructor|].
      intros x [->|Hx]%elem_of_cons; apply elem_of_remove_dups; [done|].
      apply list_elem_of_fmap in Hx as ([k' v'] & -> & Hx). by apply (Hin k' v'). }
    apply submseteq_length in Hsub. simpl in Hsub. rewrite length_fmap in Hsub. lia.
Qed.

Lemma first_seen_before_asym {K} (k1 k2 : K) ks :
  first_seen_before k1 k2 ks → first_seen_before k2 k1 ks → False.
Proof.
  intros (pre & post & -> & H1 & H2 & Hne) (pre' & post' & E & H1' & H2' & _).
  destruct (decide (length pre < length pre')%nat) as [Hlt|Hge].
  - apply H2'. apply list_elem_of_lookup_2 with (length pre).
    assert ((pre' ++ k2 :: post') !! length pre = Some k1) as Hl
      by (rewrite <- E; by rewrite list_lookup_middle).
    by rewrite lookup_app_l in Hl.
  - destruct (decide (length pre' < length pre)%nat) as [Hlt|Hge'].
    + apply H2. apply list_elem_of_lookup_2 with (length pre').
      assert ((pre ++ k1 :: post) !! length pre' = Some k2) as Hl
        by (rewrite E; by rewrite list_lookup_middle).
      by rewrite lookup_app_l in Hl.
    + assert (length pre = length pre') as Hlen by lia.
      assert ((pre ++ k1 :: post) !! length pre = Some k2) as Hl
        by (rewrite E, Hlen; by rewrite list_lookup_middle).
      rewrite list_lookup_middle in Hl by done. congruence.
Qed.

(** The conditions of [ranking] leave one fragment only: the one
    [most_common] returns. *)
Lemma ranking_unique {K} `{EqDecision K} (n : nat) (ks : list K) out out' :
  ranking n ks out → ranking n ks out' → out = out'.
Proof.
  assert (Hsub : ∀ o o', ranking n ks o → ranking n ks o' → ∀ x, x ∈ o → x ∈ o').
  { intros o o' R1 R2 [k c] Hx.
    destruct (rk_count _ _ _ R1 k c Hx) as (Hk & -> & _).
    destruct (decide (k ∈ o'.*1)) as [Hin|Hnot].
    { apply list_elem_of_fmap in Hin as ([k' c'] & [= <-] & Hin).
      by destruct (rk_count _ _ _ R2 k c' Hin) as (_ & -> & _). }
    exfalso. destruct (rk_top _ _ _ R2 k Hk Hnot) as [Hlen Hall].
    destruct (decide (Forall (λ k', k' ∈ o.*1) o'.*1)) as [HF|HF].
    - assert ((k :: o'.*1) ⊆+ o.*1) as Hs.
      { apply NoDup_submseteq; [constructor; [done|apply (rk_nodup _ _ _ R2)]|].
        rewrite Forall_forall in HF.
        intros x [->|Hx']%elem_of_cons; [|by apply HF].
        apply list_elem_of_fmap. by exists (k, occurrences k ks). }
      apply submseteq_length in Hs. simpl in Hs. rewrite !length_fmap in Hs.
      pose proof (rk_length _ _ _ R1). lia.
    - apply not_Forall_Exists in HF; [|apply _].
      apply Exists_exists in HF as (k' & Hk' & Hnot').
      apply list_elem_of_fmap in Hk' as ([k'' c'] & [= <-] & Hin').
      destruct (rk_count _ _ _ R2 k' c' Hin') as (Hk'ks & -> & _).
      destruct (Hall _ Hin') as [Hle Htie]. simpl in *.
      destruct (rk_top _ _ _ R1 k' Hk'ks Hnot') as [_ Hall'].
      destruct (Hall' _ Hx) as [Hle' Htie']. simpl in *.
      apply (first_seen_before_asym k k' ks); [apply Htie'|apply Htie]; lia. }
  intros R1 R2.
  apply (sorted_ext (λ a b : K * Z,
           b.2 ≤ a.2 ∧ (a.2 = b.2 → first_seen_before a.1 b.1 ks))).
  - intros a b [H1 T1] [H2 T2].
    apply (first_seen_before_asym a.1 b.1 ks); [apply T1|apply T2]; lia.
  - apply (rk_order _ _ _ R1).
  - apply (rk_order _ _ _ R2).
  - intros x. split; by apply Hsub.
Qed.


(** ** Rounding to binary64 *)

Section Rounding.

Lemma digits2_pos_bounds p :
  2 ^ (Z.pos (digits2_pos p) - 1) ≤ Z.pos p < 2 ^ Z.pos (digits2_pos p).
Proof.
  induction p as [p IH|p IH|]; cbn [digits2_pos].
  - rewrite Pos2Z.inj_succ, (Pos2Z.inj_xI p).
    replace (Z.succ (Z.pos (digits2_pos p)) - 1) with (Z.succ (Z.pos (digits2_pos p) - 1)) by lia.
    rewrite !Z.pow_succ_r by lia. lia.
  - rewrite Pos2Z.inj_succ, (Pos2Z.inj_xO p).
    replace (Z.succ (Z.pos (digits2_pos p)) - 1) with (Z.succ (Z.pos (digits2_pos p) - 1)) by lia.
    rewrite !Z.pow_succ_r by lia. lia.
  - simpl. lia.
Qed.

Lemma pow2_pos e : 0 ≤ e → 0 < 2 ^ e.
Proof. intros. by apply Z.pow_pos_nonneg. Qed.

(** The scaling in [le2] can be done to any common exponent. *)
Lemma le2_shift c m1 e1 m2 e2 :
  c ≤ e1 → c ≤ e2 →
  le2 m1 e1 m2 e2 ↔ m1 * 2 ^ (e1 - c) ≤ m2 * 2 ^ (e2 - c).
Proof.
  intros H1 H2. unfold le2. set (μ := Z.min e1 e2).
  replace (e1 - c) with ((e1 - μ) + (μ - c)) by lia.
  replace (e2 - c) with ((e2 - μ) + (μ - c)) by lia.
  rewrite !Z.pow_add_r by lia.
  pose proof (pow2_pos (μ - c) ltac:(lia)).
  rewrite !Z.mul_assoc. split; intros H'.
  - by apply Z.mul_le_mono_nonneg_r; [lia|].
  - by apply Z.mul_le_mono_pos_r in H'.
Qed.

Lemma fexp_le_0 m e hi :
  0 ≤ m → (m = 0 → e ≤ 0) → le2 m e hi 0 → hi < 2 ^ 53 →
  fexp prec emax (Zdigits2 m + e) ≤ 0.
Proof.
  intros Hm H0 Hle Hhi. unfold fexp, emin, prec, emax.
  assert (Zdigits2 m + e ≤ 53); [|lia].
  destruct m as [|p|p]; simpl.
  - specialize (H0 eq_refl). lia.
  - pose proof (digits2_pos_bounds p) as [Hd _].
    pose (c := Z.min e 0).
    assert (c ≤ e ∧ c ≤ 0) as [? ?] by (unfold c; lia). clearbody c.
    apply (proj1 (le2_shift c (Z.pos p) e hi 0 ltac:(lia) ltac:(lia))) in Hle.
    pose proof (pow2_pos (0 - c) ltac:(lia)).
    pose proof (pow2_pos (e - c) ltac:(lia)).
    assert (2 ^ (Z.pos (digits2_pos p) - 1) * 2 ^ (e - c) < 2 ^ 53 * 2 ^ (0 - c)) as Hlt.
    { assert (2 ^ (Z.pos (digits2_pos p) - 1) * 2 ^ (e - c) ≤ Z.pos p * 2 ^ (e - c))
        by (apply Z.mul_le_mono_nonneg_r; lia).
      assert (hi * 2 ^ (0 - c) < 2 ^ 53 * 2 ^ (0 - c))
        by (apply Z.mul_lt_mono_pos_r; lia).
      lia. }
    rewrite <- !Z.pow_add_r in Hlt by lia.
    apply Z.pow_lt_mono_r_iff in Hlt; lia.
  - lia.
Qed.

Lemma shr_1_within lo hi mrs :
  within (2 * lo) (2 * hi) mrs → within lo hi (shr_1 mrs).
Proof.
  destruct mrs as [m r s]. unfold within, inexact. simpl.
  destruct m as [|[p|p|]|[p|p|]], r, s; simpl; lia.
Qed.

Lemma iter_pos_nat {A} (f : A → A) p x :
  SpecFloat.iter_pos (A:=A) f p x = Nat.iter (Pos.to_nat p) f x.
Proof.
  revert x. induction p as [p IH|p IH|]; intros x; cbn [SpecFloat.iter_pos].
  - rewrite !IH, <- Nat.iter_add, <- Nat.iter_succ_r. f_equal. lia.
  - rewrite !IH, <- Nat.iter_add. f_equal. lia.
  - done.
Qed.

Lemma iter_shr_1_within n lo hi mrs :
  within (2 ^ Z.of_nat n * lo) (2 ^ Z.of_nat n * hi) mrs →
  within lo hi (Nat.iter n shr_1 mrs).
Proof.
  revert lo hi. induction n as [|n IH]; intros lo hi.
  - simpl. by rewrite !Z.mul_1_l.
  - rewrite Nat2Z.inj_succ, Z.pow_succ_r by lia. intros H.
    cbn [Nat.iter]. apply shr_1_within, IH.
    by replace (2 ^ Z.of_nat n * (2 * lo)) with (2 * 2 ^ Z.of_nat n * lo) by ring;
       replace (2 ^ Z.of_nat n * (2 * hi)) with (2 * 2 ^ Z.of_nat n * hi) by ring.
Qed.

(** Shifting to the exponent of the format keeps the bounds, as long as
    that exponent is not positive. *)
Lemma shr_within lo hi mrs e n :
  e ≤ 0 → e + n ≤ 0 →
  within (lo * 2 ^ (- e)) (hi * 2 ^ (- e)) mrs →
  (shr mrs e n).2 ≤ 0 ∧
  within (lo * 2 ^ (- (shr mrs e n).2)) (hi * 2 ^ (- (shr mrs e n).2)) (shr mrs e n).1.
Proof.
  intros He Hen H. unfold shr. destruct n as [|p|p]; simpl; try done.
  split; [lia|]. rewrite iter_pos_nat. apply iter_shr_1_within.
  rewrite positive_nat_Z.
  replace (- e) with (Z.pos p + - (e + Z.pos p)) in H by lia.
  rewrite Z.pow_add_r in H by lia.
  by replace (2 ^ Z.pos p * (lo * 2 ^ (- (e + Z.pos p))))
       with (lo * (2 ^ Z.pos p * 2 ^ (- (e + Z.pos p)))) by ring;
     replace (2 ^ Z.pos p * (hi * 2 ^ (- (e + Z.pos p))))
       with (hi * (2 ^ Z.pos p * 2 ^ (- (e + Z.pos p)))) by ring.
Qed.

Lemma within_of_loc lo hi m l :
  0 ≤ m → lo ≤ m →
  m + (match l with loc_Exact => 0 | _ => 1 end) ≤ hi →
  within lo hi (shr_record_of_loc m l).
Proof.
  unfold within, inexact. destruct l as [|[]]; simpl; lia.
Qed.

Lemma round_nearest_even_within lo hi mrs :
  within lo hi mrs →
  within lo hi
    (shr_record_of_loc (round_nearest_even (shr_m mrs) (loc_of_shr_record mrs))
       loc_Exact).
Proof.
  destruct mrs as [m [] []]; unfold within, inexact; simpl;
    try destruct (Z.even m); lia.
Qed.

Lemma within_fexp lo hi mrs e :
  0 ≤ lo → hi < 2 ^ 53 → e ≤ 0 →
  within (lo * 2 ^ (- e)) (hi * 2 ^ (- e)) mrs →
  fexp prec emax (Zdigits2 (shr_m mrs) + e) ≤ 0.
Proof.
  intros Hlo Hhi He (H0 & H1 & H2).
  apply (fexp_le_0 _ _ hi); try done. apply (le2_shift e); [lia..|].
  rewrite Z.sub_diag, Z.mul_1_r, Z.sub_0_l. unfold inexact in H2.
  destruct (shr_r mrs || shr_s mrs); lia.
Qed.

(** Rounding to nearest keeps a value between two integers of the
    format between them. *)
Lemma binary_round_aux_between lo hi mx ex lx :
  0 ≤ lo → hi < 2 ^ 53 → ex ≤ 0 →
  within (lo * 2 ^ (- ex)) (hi * 2 ^ (- ex)) (shr_record_of_loc mx lx) →
  between lo hi (binary_round_aux prec emax false mx ex lx).
Proof.
  intros Hlo Hhi Hex H. unfold binary_round_aux, shr_fexp.
  assert (Hm : shr_m (shr_record_of_loc mx lx) = mx) by by destruct lx as [|[]].
  pose proof (within_fexp _ _ _ _ Hlo Hhi Hex H) as Hf1. rewrite Hm in Hf1.
  destruct (shr_within lo hi (shr_record_of_loc mx lx) ex
              (fexp prec emax (Zdigits2 mx + ex) - ex) Hex ltac:(lia) H) as [He1 H1].
  destruct (shr (shr_record_of_loc mx lx) ex _) as [mrs1 e1]. simpl in He1, H1.
  apply round_nearest_even_within in H1.
  pose proof (within_fexp _ _ _ _ Hlo Hhi He1 H1) as Hf2.
  destruct (shr_within lo hi _ e1
              (fexp prec emax (Zdigits2 (shr_m (shr_record_of_loc (round_nearest_even (shr_m mrs1) (loc_of_shr_record mrs1)) loc_Exact)) + e1) - e1) He1 ltac:(lia) H1) as [He2 H2].
  simpl in H2, He2.
  destruct (shr _ e1 _) as [mrs2 e2]. simpl in He2, H2.
  destruct H2 as (H0 & Hl & Hu).
  pose proof (pow2_pos (- e2) ltac:(lia)).
  unfold inexact in Hu.
  destruct (shr_m mrs2) as [|m|m] eqn:Em; [| |lia].
  - simpl. split; [nia|]. destruct (shr_r mrs2 || shr_s mrs2); nia.
  - replace (e2 <=? emax - prec) with true by (symmetry; apply Z.leb_le; unfold emax, prec; lia).
    simpl. split; apply (le2_shift e2); try lia;
      rewrite Z.sub_diag, Z.mul_1_r, Z.sub_0_l; [lia|].
    destruct (shr_r mrs2 || shr_s mrs2); lia.
Qed.

Lemma new_location_exact d r :
  match new_location d r with
  | loc_Exact => r = 0
  | loc_Inexact _ => r ≠ 0
  end.
Proof.
  unfold new_location, new_location_even, new_location_odd.
  destruct (Z.even d); destruct (Z.eqb_spec r 0); done.
Qed.

(** The quotient the division core hands to the rounding lies between
    the same integers as the exact quotient. *)
Lemma div_core_within lo hi m1 e1 m2 e2 :
  0 ≤ m1 → 0 < m2 → 0 ≤ lo → hi < 2 ^ 53 → (m1 = 0 → e1 - e2 ≤ 0) →
  le2 (lo * m2) e2 m1 e1 → le2 m1 e1 (hi * m2) e2 →
  ∃ q e l, SFdiv_core_binary prec emax m1 e1 m2 e2 = (q, e, l) ∧ e ≤ 0 ∧
    within (lo * 2 ^ (- e)) (hi * 2 ^ (- e)) (shr_record_of_loc q l).
Proof.
  intros Hm1 Hm2 Hlo Hhi H0 Hl Hu. unfold SFdiv_core_binary.
  set (e' := Z.min (fexp prec emax (Zdigits2 m1 + e1 - (Zdigits2 m2 + e2))) (e1 - e2)).
  assert (He' : e' ≤ e1 - e2 ∧ e' ≤ 0).
  { unfold e'. split; [lia|]. destruct (decide (m1 = 0)) as [->|Hne]; [specialize (H0 eq_refl); lia|].
    assert (fexp prec emax (Zdigits2 m1 + e1 - (Zdigits2 m2 + e2)) ≤ 0); [|lia].
    unfold fexp, emin, prec, emax.
    assert (Zdigits2 m1 + e1 - (Zdigits2 m2 + e2) ≤ 53); [|lia].
    destruct m1 as [|p1|p1]; [done| |lia]. destruct m2 as [|p2|p2]; [lia| |lia]. simpl.
    pose proof (digits2_pos_bounds p1) as [Hd1 _].
    pose proof (digits2_pos_bounds p2) as [_ Hd2].
    pose (c := Z.min e1 e2).
    assert (c ≤ e1 ∧ c ≤ e2) as [? ?] by (unfold c; lia). clearbody c.
    apply (proj1 (le2_shift c (Z.pos p1) e1 (hi * Z.pos p2) e2 ltac:(lia) ltac:(lia))) in Hu.
    pose proof (pow2_pos (e1 - c) ltac:(lia)).
    pose proof (pow2_pos (e2 - c) ltac:(lia)).
    assert (2 ^ (Z.pos (digits2_pos p1) - 1) * 2 ^ (e1 - c)
            < 2 ^ 53 * 2 ^ Z.pos (digits2_pos p2) * 2 ^ (e2 - c)) as Hlt.
    { assert (2 ^ (Z.pos (digits2_pos p1) - 1) * 2 ^ (e1 - c) ≤ Z.pos p1 * 2 ^ (e1 - c))
        by (apply Z.mul_le_mono_nonneg_r; lia).
      assert (hi * Z.pos p2 < 2 ^ 53 * 2 ^ Z.pos (digits2_pos p2)).
      { destruct (decide (0 ≤ hi)).
        - apply Z.mul_lt_mono_nonneg; lia.
        - assert (hi * Z.pos p2 < 0) by nia.
          assert (0 < 2 ^ 53 * 2 ^ Z.pos (digits2_pos p2)) by (apply Z.mul_pos_pos; lia). lia. }
      assert (hi * Z.pos p2 * 2 ^ (e2 - c) < 2 ^ 53 * 2 ^ Z.pos (digits2_pos p2) * 2 ^ (e2 - c))
        by (apply Z.mul_lt_mono_pos_r; lia).
      lia. }
    rewrite <- !Z.pow_add_r in Hlt by lia.
    apply Z.pow_lt_mono_r_iff in Hlt; lia. }
  clearbody e'. destruct He' as [He1 He0].
  set (s := e1 - e2 - e').
  assert (Hs : 0 ≤ s) by (unfold s; lia).
  set (m' := match s with Z.pos _ => Z.shiftl m1 s | 0 => m1 | Z.neg _ => 0 end).
  assert (Hm' : m' = m1 * 2 ^ s).
  { unfold m'. destruct s as [|p|p] eqn:Es; [lia| |lia].
    by rewrite Z.shiftl_mul_pow2 by lia. }
  clearbody m'.
  pose proof (Z_div_mod m' m2 ltac:(lia)) as Hdiv.
  destruct (Z.div_eucl m' m2) as [q r]. destruct Hdiv as [Hq Hr].
  exists q, e', (new_location m2 r). split; [done|]. split; [done|].
  pose proof (pow2_pos s Hs). pose proof (pow2_pos (- e') ltac:(lia)).
  assert (Hb : lo * 2 ^ (- e') * m2 ≤ m' ∧ m' ≤ hi * 2 ^ (- e') * m2).
  { apply (proj1 (le2_shift (e2 + e') (lo * m2) e2 m1 e1 ltac:(lia) ltac:(lia))) in Hl.
    apply (proj1 (le2_shift (e2 + e') m1 e1 (hi * m2) e2 ltac:(lia) ltac:(lia))) in Hu.
    replace (e1 - (e2 + e')) with s in Hl, Hu by (unfold s; lia).
    replace (e2 - (e2 + e')) with (- e') in Hl, Hu by lia.
    rewrite Hm'. lia. }
  destruct Hb as [Hbl Hbu].
  assert (0 ≤ q) by nia.
  apply within_of_loc; [done|nia|].
  pose proof (new_location_exact m2 r) as Hloc.
  destruct (new_location m2 r); nia.
Qed.

Lemma float_of_ratio_between lo hi n d :
  0 ≤ n → 0 < d → 0 ≤ lo → hi < 2 ^ 53 → lo * d ≤ n → n ≤ hi * d →
  between lo hi (float_of_ratio false n d).
Proof.
  intros Hn Hd Hlo Hhi Hl Hu. unfold float_of_ratio.
  destruct (div_core_within lo hi n 0 d 0) as (q & e & l & -> & He & Hw);
    try done; try lia.
  - unfold le2. by rewrite Z.min_id, Z.sub_diag, !Z.mul_1_r.
  - unfold le2. by rewrite Z.min_id, Z.sub_diag, !Z.mul_1_r.
  - by apply binary_round_aux_between.
Qed.

(** Integers below [2^53] convert exactly. *)
Lemma float_of_int_exact k :
  0 ≤ k < 2 ^ 53 → ∃ x, float_of_int k = Ok x ∧ between k k x.
Proof.
  intros [Hk0 Hk]. unfold float_of_int.
  replace (k <? 0) with false by (symmetry; apply Z.ltb_ge; lia).
  rewrite Z.abs_eq by done.
  pose proof (float_of_ratio_between k k k 1) as H.
  destruct (float_of_ratio false k 1) as [s|s| |s m e] eqn:E; simpl in H.
  - eexists. split; [done|]. apply H; lia.
  - exfalso. apply H; lia.
  - exfalso. apply H; lia.
  - eexists. split; [done|]. apply H; lia.
Qed.

Lemma between_mono lo hi lo' hi' x :
  lo' ≤ lo → hi ≤ hi' → between lo hi x → between lo' hi' x.
Proof.
  intros Hl Hh. destruct x as [s|s| |[] m e]; simpl; try done; [lia|].
  unfold le2. intros [H1 H2].
  pose proof (pow2_pos (0 - 0 `min` e) ltac:(lia)).
  pose proof (pow2_pos (0 - e `min` 0) ltac:(lia)). split; nia.
Qed.

Lemma shl_align_spec mx ex ex' :
  (shl_align mx ex ex').2 = Z.min ex ex' ∧
  Z.pos (shl_align mx ex ex').1 = Z.pos mx * 2 ^ (ex - Z.min ex ex').
Proof.
  unfold shl_align. destruct (ex' - ex) as [|d|d] eqn:E; simpl.
  - rewrite Z.min_l by lia. rewrite Z.sub_diag. lia.
  - rewrite Z.min_l by lia. rewrite Z.sub_diag. lia.
  - rewrite Z.min_r by lia. split; [done|].
    replace (ex - ex') with (Z.pos d) by lia.
    change (Pos.iter xO mx d) with (shift_pos d mx).
    rewrite shift_pos_correct. change (Zpower_pos 2 d) with (2 ^ Z.pos d). lia.
Qed.

(** Adding two values that are not negative adds their bounds. *)
Lemma fadd_between lo1 hi1 lo2 hi2 x y :
  0 ≤ lo1 → 0 ≤ lo2 → hi1 + hi2 < 2 ^ 53 →
  between lo1 hi1 x → between lo2 hi2 y →
  between (lo1 + lo2) (hi1 + hi2) (fadd x y).
Proof.
  intros Hlo1 Hlo2 Hhi Hx Hy.
  destruct x as [sx|sx| |[] mx ex]; try done;
    destruct y as [sy|sy| |[] my ey]; try done.
  - simpl in *. destruct sx, sy; simpl; lia.
  - simpl in Hx. apply (between_mono lo2 hi2); [lia..|done].
  - simpl in Hy. apply (between_mono lo1 hi1); [lia..|done].
  - destruct Hx as [Hx1 Hx2], Hy as [Hy1 Hy2].
    unfold fadd, SFadd. set (ez := Z.min ex ey). cbn [cond_Zopp].
    destruct (shl_align_spec mx ex ez) as [_ Ea].
    destruct (shl_align_spec my ey ez) as [_ Eb].
    rewrite (Z.min_r ex ez) in Ea by (unfold ez; lia).
    rewrite (Z.min_r ey ez) in Eb by (unfold ez; lia).
    set (a := (shl_align mx ex ez).1) in *. set (b := (shl_align my ey ez).1) in *.
    change (Z.pos a + Z.pos b) with (Z.pos (a + b)). cbn [binary_normalize].
    assert (Hsum : ∀ c, c ≤ ez → c ≤ 0 →
      (lo1 + lo2) * 2 ^ (0 - c) ≤ Z.pos (a + b) * 2 ^ (ez - c) ∧
      Z.pos (a + b) * 2 ^ (ez - c) ≤ (hi1 + hi2) * 2 ^ (0 - c)).
    { intros c Hc Hc0. rewrite Pos2Z.inj_add, Ea, Eb.
      apply (proj1 (le2_shift c lo1 0 (Z.pos mx) ex ltac:(lia) ltac:(unfold ez in Hc; lia))) in Hx1.
      apply (proj1 (le2_shift c (Z.pos mx) ex hi1 0 ltac:(unfold ez in Hc; lia) ltac:(lia))) in Hx2.
      apply (proj1 (le2_shift c lo2 0 (Z.pos my) ey ltac:(lia) ltac:(unfold ez in Hc; lia))) in Hy1.
      apply (proj1 (le2_shift c (Z.pos my) ey hi2 0 ltac:(unfold ez in Hc; lia) ltac:(lia))) in Hy2.
      rewrite !Z.mul_add_distr_r, <- !Z.mul_assoc, <- !Z.pow_add_r by (unfold ez in *; lia).
      replace (ex - ez + (ez - c)) with (ex - c) by lia.
      replace (ey - ez + (ez - c)) with (ey - c) by lia. lia. }
    clearbody a b ez. unfold binary_round.
    destruct (shl_align_spec (a + b) ez (fexp prec emax (Z.pos (digits2_pos (a + b)) + ez)))
      as [Ee Em].
    destruct (shl_align (a + b) ez _) as [mz ez']. simpl in Ee, Em.
    assert (Hf : fexp prec emax (Zdigits2 (Z.pos (a + b)) + ez) ≤ 0).
    { apply (fexp_le_0 _ _ (hi1 + hi2)); [lia|lia| |done].
      apply (le2_shift (Z.min ez 0)); [lia..|]. apply Hsum; lia. }
    simpl in Hf. assert (ez' ≤ 0) by lia.
    apply binary_round_aux_between; [lia|done|done|].
    destruct (Hsum ez' ltac:(lia) ltac:(lia)) as [Hs1 Hs2].
    rewrite Z.sub_0_l in Hs1, Hs2. rewrite <- Ee in Em. rewrite <- Em in Hs1, Hs2.
    apply within_of_loc; lia.
Qed.

(** Dividing by an exactly known positive integer divides the bounds. *)
Lemma fdiv_between lo hi lo1 hi1 k x y :
  0 ≤ lo → hi < 2 ^ 53 → 0 < k → lo * k ≤ lo1 → hi1 ≤ hi * k →
  between lo1 hi1 x → between k k y →
  between lo hi (fdiv x y).
Proof.
  intros Hlo Hhi Hk Hl Hh Hx Hy.
  destruct y as [sy|sy| |[] my ey]; try done; [simpl in Hy; lia|].
  destruct x as [sx|sx| |[] mx ex]; try done.
  - simpl in *. split; nia.
  - destruct Hx as [Hx1 Hx2], Hy as [Hy1 Hy2]. unfold fdiv, SFdiv.
    pose (c := Z.min (Z.min ex ey) 0).
    assert (c ≤ ex ∧ c ≤ ey ∧ c ≤ 0) as (? & ? & ?) by (unfold c; lia). clearbody c.
    apply (proj1 (le2_shift c lo1 0 (Z.pos mx) ex ltac:(lia) ltac:(lia))) in Hx1.
    apply (proj1 (le2_shift c (Z.pos mx) ex hi1 0 ltac:(lia) ltac:(lia))) in Hx2.
    apply (proj1 (le2_shift c k 0 (Z.pos my) ey ltac:(lia) ltac:(lia))) in Hy1.
    apply (proj1 (le2_shift c (Z.pos my) ey k 0 ltac:(lia) ltac:(lia))) in Hy2.
    pose proof (pow2_pos (0 - c) ltac:(lia)).
    destruct (div_core_within lo hi (Z.pos mx) ex (Z.pos my) ey)
      as (q & e & l & -> & He & Hw); try done; try lia.
    + apply (le2_shift c); [lia..|]. nia.
    + apply (le2_shift c); [lia..|]. nia.
    + by apply binary_round_aux_between.
Qed.

Lemma round_half_even_between lo hi n d :
  0 < d → lo * d ≤ n → n ≤ hi * d →
  lo ≤ round_half_even n d ≤ hi.
Proof.
  intros Hd Hl Hh. unfold round_half_even.
  pose proof (Z_div_mod_eq_full n d). pose proof (Z.mod_pos_bound n d Hd).
  assert (lo ≤ n / d) by (apply Z.div_le_lower_bound; lia).
  assert (n / d ≤ hi) by nia.
  assert (0 < n mod d → n / d < hi) by nia.
  destruct (Z.compare_spec (2 * (n mod d)) d); [destruct (Z.even (n / d))|..]; lia.
Qed.

(** Rounding to decimals keeps a value between two integers. *)
Lemma round_ndigits_between lo hi x ndigits :
  0 ≤ lo → hi < 2 ^ 53 → 0 ≤ ndigits →
  between lo hi x → between lo hi (round_ndigits x ndigits).
Proof.
  intros Hlo Hhi Hn Hx. destruct x as [s|s| |[] m e]; try done.
  destruct Hx as [Hx1 Hx2]. cbn [round_ndigits].
  assert (0 < 10 ^ ndigits) by (apply Z.pow_pos_nonneg; lia).
  set (p := 10 ^ ndigits) in *. clearbody p.
  destruct (Z.leb_spec 0 e) as [He|He].
  - apply (proj1 (le2_shift 0 lo 0 (Z.pos m) e ltac:(lia) ltac:(lia))) in Hx1.
    apply (proj1 (le2_shift 0 (Z.pos m) e hi 0 ltac:(lia) ltac:(lia))) in Hx2.
    rewrite !Z.sub_0_r, Z.pow_0_r, Z.mul_1_r in Hx1, Hx2.
    pose proof (pow2_pos e He).
    apply float_of_ratio_between; try done; nia.
  - apply (proj1 (le2_shift e lo 0 (Z.pos m) e ltac:(lia) ltac:(lia))) in Hx1.
    apply (proj1 (le2_shift e (Z.pos m) e hi 0 ltac:(lia) ltac:(lia))) in Hx2.
    rewrite Z.sub_0_l, Z.sub_diag, Z.pow_0_r, Z.mul_1_r in Hx1, Hx2.
    pose proof (pow2_pos (- e) ltac:(lia)).
    destruct (round_half_even_between (lo * p) (hi * p) (Z.pos m * p) (2 ^ (- e)))
      as [Hr1 Hr2]; [done|nia|nia|].
    apply float_of_ratio_between; try done; lia.
Qed.
End Rounding.

(* ================================================================== *)
(** * Part V: properties of the pipeline                               *)
(* ================================================================== *)

(** ** Exceptions and loops *)

Lemma bind_Ok {A B} (x : result A) (k : A → result B) b :
  bind x k = Ok b → ∃ a, x = Ok a ∧ k a = Ok b.
Proof. destruct x as [a|e]; simpl; [eauto|done]. Qed.

Lemma bind_Raise {A B} (x : result A) (k : A → result B) e :
  x = Raise e → bind x k = Raise e.
Proof. by intros ->. Qed.

Lemma for_each_snoc {A St} (xs : list A) (x : A) (body : A → St → result St) s :
  for_each (xs ++ [x]) body s = bind (for_each xs body s) (body x).
Proof.
  revert s. induction xs as [|y xs IH]; intros s; simpl.
  - by destruct (body x s).
  - destruct (body y s); simpl; [apply IH|done].
Qed.

Lemma map_result_Ok {A B} (f : A → result B) xs ys :
  map_result f xs = Ok ys ↔ Forall2 (λ x y, f x = Ok y) xs ys.
Proof.
  revert ys. induction xs as [|x xs IH]; intros ys; simpl.
  - split; [intros [= <-]; constructor|by inversion 1].
  - split.
    + intros (y & Hy & (ys' & Hys & [= <-])%bind_Ok)%bind_Ok.
      constructor; [done|by apply IH].
    + inversion 1 as [|? y ? ys' Hy Hys]; subst. rewrite Hy. simpl.
      apply IH in Hys. by rewrite Hys.
Qed.

(** What a successful run of [process_flavor] went through. *)
Lemma process_flavor_rows_Ok rows s :
  process_flavor_rows rows = Ok s →
  ∃ ys cs ss sc bz tb,
    generate year_of rows = Ok ys ∧ generate city_of rows = Ok cs ∧
    generate state_of rows = Ok ss ∧ star_counts rows = Ok sc ∧
    biz_reviews rows = Ok bz ∧ map_result finalize (top_biz bz) = Ok tb ∧
    s = mkSummary (Z.of_nat (length rows))
          ((λ y, (y, default 0 (get y (Counter ys)))) <$>
             sorted String.ltb id (keys (Counter ys)))
          (most_common 10 (Counter cs)) (most_common 10 (Counter ss))
          (star_dist_of sc)
          (most_common 10 (Counter (concat (cats_of <$> rows)))) tb.
Proof.
  unfold process_flavor_rows.
  intros (ys & Hys & (cs & Hcs & (ss & Hss & (sc & Hsc & (bz & Hbz &
    (tb & Htb & [= <-])%bind_Ok)%bind_Ok)%bind_Ok)%bind_Ok)%bind_Ok)%bind_Ok.
  by exists ys, cs, ss, sc, bz, tb.
Qed.

(** ** C2: count-and-rank fragments *)

(** C2.  In every summary the top cities, top states and top categories
    are rankings with limit 10 of their key streams: at most 10 entries,
    counts non-increasing, equal counts in the order of first observation,
    no count 0, all keys listed when there are at most 10, and a key left
    out only when 10 keys are listed that each occur more often, or as
    often and were first observed earlier.  No other list meets these
    conditions. *)
Theorem rank_fragments_ranked rows s :
  process_flavor_rows rows = Ok s →
  ∃ cs ss,
    generate city_of rows = Ok cs ∧ generate state_of rows = Ok ss ∧
    ranking 10 cs (topCities s) ∧
    ranking 10 ss (topStates s) ∧
    ranking 10 (concat (cats_of <$> rows)) (topCategories s) ∧
    (∀ out, ranking 10 cs out → out = topCities s) ∧
    (∀ out, ranking 10 ss out → out = topStates s) ∧
    (∀ out, ranking 10 (concat (cats_of <$> rows)) out → out = topCategories s).
Proof.
  intros (ys & cs & ss & sc & bz & tb & _ & Hcs & Hss & _ & _ & _ & ->)%process_flavor_rows_Ok.
  exists cs, ss. simpl. split; [done|]. split; [done|].
  split; [apply most_common_ranking|]. split; [apply most_common_ranking|].
  split; [apply most_common_ranking|].
  split; [|split]; intros out Hout;
    apply (ranking_unique 10 _ _ _ Hout), most_common_ranking.
Qed.

(** Eleven keys compete for ten places: the key that occurs twice comes
    first, the others follow in the order of their first observation, and
    the eleventh is left out. *)
Lemma rank_fragments_ranked_witness :
  process_flavor_rows rows_ranked = Ok summary_ranked ∧
  ∃ cs ss,
    generate city_of rows_ranked = Ok cs ∧
    generate state_of rows_ranked = Ok ss ∧
    ranking 10 cs (topCities summary_ranked) ∧
    ranking 10 ss (topStates summary_ranked) ∧
    ranking 10 (concat (cats_of <$> rows_ranked)) (topCategories summary_ranked) ∧
    (∀ out, ranking 10 cs out → out = topCities summary_ranked) ∧
    (∀ out, ranking 10 ss out → out = topStates summary_ranked) ∧
    (∀ out, ranking 10 (concat (cats_of <$> rows_ranked)) out →
            out = topCategories summary_ranked).
Proof.
  assert (H : process_flavor_rows rows_ranked = Ok summary_ranked)
    by (vm_compute; reflexivity).
  split; [exact H|].
  exact (rank_fragments_ranked rows_ranked summary_ranked H).
Defined.

(** ** C5: completion of the dataset processor *)

(** C5 (the code departs from it).  A dataset without a [year] column
    makes [process_flavor] raise [KeyError] instead of giving an empty
    trend list, and a rating that reads as an infinity makes it raise
    [OverflowError]: [int] of an infinite float is not among the
    exceptions the star loop handles. *)
Theorem process_flavor_raises :
  process_flavor_rows [row_without_year] = Raise (KeyError "year") ∧
  process_flavor_rows [row_infinite_rating] = Raise OverflowError.
Proof. split; vm_compute; reflexivity. Qed.

(** ** C9: the comparison processors do not tolerate coercion failures *)

Lemma map_result_Raise {A B} (f : A → result B) xs x e :
  x ∈ xs → f x = Raise e → ∃ e', map_result f xs = Raise e'.
Proof.
  induction xs as [|y xs IH]; [by intros ?%elem_of_nil|].
  intros [->|Hin]%elem_of_cons Hx; simpl.
  - rewrite Hx. by eexists.
  - destruct (f y); simpl; [|by eexists].
    destruct (IH Hin Hx) as [e' ->]. by eexists.
Qed.

Lemma map_result_length {A B} (f : A → result B) xs ys :
  map_result f xs = Ok ys → length ys = length xs.
Proof. intros H%map_result_Ok. symmetry. by eapply Forall2_length. Qed.

Lemma comparison_row_fails r :
  comparison_coercion_fails r → ∃ e, comparison_row r = Raise e.
Proof.
  intros H. unfold comparison_row, getitem.
  destruct (r !! "Flavor"); simpl; [|by eexists].
  destruct (r !! "Total Mentions") as [v1|] eqn:E1; simpl; [|by eexists].
  destruct (int_of_str v1) eqn:P1; simpl; [|by eexists].
  destruct (r !! "Unique Businesses") as [v2|] eqn:E2; simpl; [|by eexists].
  destruct (int_of_str v2) eqn:P2; simpl; [|by eexists].
  destruct (r !! "Cities") as [v3|] eqn:E3; simpl; [|by eexists].
  destruct (int_of_str v3) eqn:P3; simpl; [|by eexists].
  destruct (r !! "Avg Review Rating") as [v4|] eqn:E4; simpl; [|by eexists].
  destruct (float_of_str v4) eqn:P4; simpl; [|by eexists].
  exfalso.
  destruct H as [(v & e & Hv & He)|[(v & e & Hv & He)|[(v & e & Hv & He)|(v & e & Hv & He)]]];
    congruence.
Qed.

Lemma city_comparison_row_fails r :
  city_comparison_coercion_fails r → ∃ e, city_comparison_row r = Raise e.
Proof.
  unfold city_comparison_row, getitem. intros (v & e & Hv & He). rewrite Hv.
  destruct (r !! "flavor"); simpl; [|by eexists].
  destruct (r !! "city"); simpl; [|by eexists].
  rewrite He. simpl. by eexists.
Qed.

(** C9.  In both comparison processors a numeric column that does not
    coerce, in any row, makes the whole step raise; and a step that
    returns has produced one record per row, so no row was passed over. *)
Theorem comparison_coercion_is_fatal rows :
  ((∃ r, r ∈ rows ∧ comparison_coercion_fails r) →
     ∃ e, process_comparison_summary_rows rows = Raise e) ∧
  ((∃ r, r ∈ rows ∧ city_comparison_coercion_fails r) →
     ∃ e, process_2025_comparison_rows rows = Raise e) ∧
  (∀ out, process_comparison_summary_rows rows = Ok out → length out = length rows) ∧
  (∀ out, process_2025_comparison_rows rows = Ok out → length out = length rows).
Proof.
  split; [|split; [|split]].
  - intros (r & Hr & [e He]%comparison_row_fails).
    by apply (map_result_Raise comparison_row rows r e).
  - intros (r & Hr & [e He]%city_comparison_row_fails).
    by apply (map_result_Raise city_comparison_row rows r e).
  - intros out. apply map_result_length.
  - intros out. apply map_result_length.
Qed.

(** One malformed count after a good row: the step raises [ValueError]. *)
Lemma comparison_coercion_is_fatal_witness :
  process_comparison_summary_rows [comparison_row_good; comparison_row_bad]
    = Raise ValueError ∧
  process_2025_comparison_rows [city_comparison_row_bad] = Raise ValueError ∧
  (∃ e, process_comparison_summary_rows [comparison_row_good; comparison_row_bad]
          = Raise e) ∧
  (∃ e, process_2025_comparison_rows [city_comparison_row_bad] = Raise e).
Proof.
  split; [vm_compute; reflexivity|]. split; [vm_compute; reflexivity|]. split.
  - apply (comparison_coercion_is_fatal [comparison_row_good; comparison_row_bad]).
    exists comparison_row_bad. split; [apply list_elem_of_lookup_2 with 1%nat; reflexivity|].
    left. exists "12.5", ValueError. split; vm_compute; reflexivity.
  - apply (comparison_coercion_is_fatal [city_comparison_row_bad]).
    exists city_comparison_row_bad. split; [apply list_elem_of_lookup_2 with 0%nat; reflexivity|].
    exists "n/a", ValueError. split; vm_compute; reflexivity.
Defined.

(** ** C3: the star distribution *)

Lemma get_incr {K} `{EqDecision K} (k k' : K) (c : dict K Z) :
  default 0 (get k' (incr k c)) =
    default 0 (get k' c) + (if decide (k = k') then 1 else 0).
Proof.
  unfold incr. destruct (decide (k = k')) as [->|Hne].
  - by rewrite get_set_eq.
  - rewrite get_set_ne by done. lia.
Qed.

Lemma bucket_size_cons s r rows :
  bucket_size s (r :: rows) =
    (if decide (in_bucket s r) then 1 else 0) + bucket_size s rows.
Proof.
  unfold bucket_size. rewrite filter_cons.
  destruct (decide (in_bucket s r)); simpl; lia.
Qed.

(** A row the star loop gets past changes the counter by its bucket only. *)
Lemma star_step_Ok r c c' s :
  star_step r c = Ok c' →
  default 0 (get s c') =
    default 0 (get s c) + (if decide (in_bucket s r) then 1 else 0).
Proof.
  unfold star_step.
  destruct (star_of r) as [star|e] eqn:E; simpl.
  - intros [= <-]. rewrite get_incr.
    destruct (decide (star = s)) as [->|?].
    + by rewrite decide_True.
    + rewrite decide_False; [done|unfold in_bucket; congruence].
  - destruct (caught e); [|done]. intros [= <-].
    rewrite decide_False; [lia|unfold in_bucket; congruence].
Qed.

Lemma star_counts_from rows c0 c s :
  for_each rows star_step c0 = Ok c →
  default 0 (get s c) = default 0 (get s c0) + bucket_size s rows.
Proof.
  revert c0. induction rows as [|r rows IH]; intros c0; simpl.
  - intros [= <-]. unfold bucket_size. simpl. lia.
  - intros (c1 & H1 & Hrest)%bind_Ok.
    rewrite (IH _ Hrest), (star_step_Ok _ _ _ s H1), bucket_size_cons. lia.
Qed.

Lemma bucket_sizes_le rows :
  bucket_size 1 rows + bucket_size 2 rows + bucket_size 3 rows
  + bucket_size 4 rows + bucket_size 5 rows ≤ Z.of_nat (length rows).
Proof.
  induction rows as [|r rows IH]; [done|].
  rewrite !bucket_size_cons. unfold in_bucket in *.
  repeat case_decide; try congruence; simpl length; lia.
Qed.

(** Whenever the star loop completes, the distribution has the five
    buckets 1 to 5 in ascending order, each with the number of rows whose
    rating parses and truncates to it (0 when there is none), and the
    counts add up to at most the number of rows. *)
Lemma star_distribution_spec rows sc :
  star_counts rows = Ok sc →
  star_dist_of sc =
    [(1, bucket_size 1 rows); (2, bucket_size 2 rows); (3, bucket_size 3 rows);
     (4, bucket_size 4 rows); (5, bucket_size 5 rows)] ∧
  bucket_size 1 rows + bucket_size 2 rows + bucket_size 3 rows
  + bucket_size 4 rows + bucket_size 5 rows ≤ Z.of_nat (length rows).
Proof.
  intros H. split; [|apply bucket_sizes_le].
  unfold star_dist_of. simpl.
  by rewrite !(star_counts_from rows [] sc _ H).
Qed.

(** A rating that does not parse, or that is a NaN, is passed over. *)
Lemma star_step_caught r c e :
  star_of r = Raise e → caught e = true → star_step r c = Ok c.
Proof. unfold star_step. intros -> H. simpl. by rewrite H. Qed.

(** A rating outside 1 to 5 leaves the five buckets as they are. *)
Lemma star_dist_of_incr star c :
  ¬ (1 ≤ star ≤ 5) → star_dist_of (incr star c) = star_dist_of c.
Proof.
  intros H. unfold star_dist_of. simpl.
  rewrite !get_incr. rewrite !decide_False by lia. by rewrite !Z.add_0_r.
Qed.

(** C3 (the code departs from it).  A rating that reads as an infinity is
    neither bucketed nor passed over: [int] raises [OverflowError], which
    the star loop does not handle, and no distribution is produced. *)
Theorem star_distribution_overflow :
  float_of_str "inf" = Ok (S754_infinity false) ∧
  star_of row_infinite_rating = Raise OverflowError ∧
  star_counts [row_austin; row_infinite_rating] = Raise OverflowError.
Proof. repeat split; vm_compute; reflexivity. Qed.

(** ** The business accumulators *)

Lemma truthy_false s : truthy s = false ↔ s = "".
Proof. by destruct s. Qed.

Lemma float_of_str_Raise s e : float_of_str s = Raise e → e = ValueError.
Proof.
  unfold float_of_str. destruct (strip_underscores _ _); [|congruence].
  destruct (parse_inf_or_nan _); [done|]. destruct (strtod _); congruence.
Qed.

Lemma float_of_int_Raise n e : float_of_int n = Raise e → e = OverflowError.
Proof. unfold float_of_int. destruct (float_of_ratio _ _ _); congruence. Qed.

Lemma num_add_Raise t x e : num_add t x = Raise e → e = OverflowError.
Proof.
  destruct t as [n|y]; simpl; [|done].
  destruct (float_of_int n) eqn:E; simpl; [done|].
  intros [= <-]. by apply float_of_int_Raise in E.
Qed.

(** The guarded addition of the loop is the addition of the ratings that
    parse. *)
Lemma add_stars_add_rating r t : add_stars r t = add_rating r t.
Proof.
  unfold add_stars, add_rating, row_rating, getitem.
  destruct (r !! "stars_x") as [s|]; simpl; [|done].
  destruct (float_of_str s) as [x|e] eqn:E; simpl.
  - destruct (num_add t x) as [t'|e] eqn:E'; simpl; [done|].
    by rewrite (num_add_Raise _ _ _ E').
  - by rewrite (float_of_str_Raise _ _ E).
Qed.

Lemma rows_of_snoc nm rows r :
  rows_of nm (rows ++ [r]) =
    rows_of nm rows ++ (if decide (biz_name r = nm) then [r] else []).
Proof.
  unfold rows_of. rewrite filter_app. f_equal.
Qed.

Lemma star_total_snoc rs r :
  star_total (rs ++ [r]) = bind (star_total rs) (add_rating r).
Proof. apply for_each_snoc. Qed.

Lemma biz_step_invariant rows r d d' :
  biz_invariant rows d → biz_step r d = Ok d' → biz_invariant (rows ++ [r]) d'.
Proof.
  intros [Hnd Hd]. unfold biz_step. fold (biz_name r).
  destruct (truthy (biz_name r)) eqn:Hname; simpl.
  - intros (total & Htotal & (c & Hc & (st & Hst & [= <-])%bind_Ok)%bind_Ok)%bind_Ok.
    assert (Hne : biz_name r ≠ "") by (intros E; rewrite E in Hname; done).
    rewrite add_stars_add_rating in Htotal.
    unfold getitem in Hc, Hst.
    destruct (r !! "city") as [c'|] eqn:Ec; [|done].
    destruct (r !! "state") as [st'|] eqn:Es; [|done]. simplify_eq.
    split.
    { rewrite keys_set. case_decide; [done|].
      apply NoDup_app. split; [done|]. split; [|apply NoDup_singleton].
      intros x Hx ->%list_elem_of_singleton. done. }
    intros nm. destruct (decide (biz_name r = nm)) as [<-|Hnm].
    + assert (Hsn : rows_of (biz_name r) (rows ++ [r]) = rows_of (biz_name r) rows ++ [r])
        by by rewrite rows_of_snoc, decide_True.
      rewrite get_set_eq. split; [done|]. rewrite Hsn.
      split; [by destruct (rows_of _ rows)|].
      specialize (Hd (biz_name r)).
      destruct (get (biz_name r) d) as [a|]; simpl in *.
      * destruct Hd as (_ & _ & [H1 H2 H3]). split; rewrite Hsn; simpl.
        -- rewrite length_app, H1. simpl. lia.
        -- rewrite star_total_snoc, H2. done.
        -- rewrite last_snoc. simpl. unfold row_location. by rewrite Ec, Es.
      * destruct Hd as [?|Hd]; [done|]. split; rewrite Hsn, Hd; simpl.
        -- lia.
        -- unfold star_total. simpl. by rewrite Htotal.
        -- unfold row_location. by rewrite Ec, Es.
    + assert (Hsn : rows_of nm (rows ++ [r]) = rows_of nm rows)
        by by rewrite rows_of_snoc, decide_False, app_nil_r.
      rewrite get_set_ne by done. specialize (Hd nm).
      destruct (get nm d); rewrite ?Hsn; [|done].
      destruct Hd as (? & ? & [H1 H2 H3]). repeat split; by rewrite ?Hsn.
  - intros [= <-]. split; [done|]. intros nm.
    apply truthy_false in Hname. specialize (Hd nm).
    assert (Hsn : nm ≠ "" → rows_of nm (rows ++ [r]) = rows_of nm rows).
    { intros Hnm. rewrite rows_of_snoc, decide_False, app_nil_r; [done|congruence]. }
    destruct (get nm d).
    + destruct Hd as (Hnm & ? & [H1 H2 H3]). specialize (Hsn Hnm).
      repeat split; by rewrite ?Hsn.
    + destruct (decide (nm = "")) as [|Hnm]; [by left|].
      right. rewrite Hsn by done. by destruct Hd.
Qed.

Lemma biz_reviews_invariant rows d :
  biz_reviews rows = Ok d → biz_invariant rows d.
Proof.
  unfold biz_reviews. revert d. induction rows as [|r rows IH] using rev_ind; intros d.
  - intros [= <-]. split; [constructor|]. intros nm. by right.
  - rewrite for_each_snoc. intros (d0 & H0 & Hstep)%bind_Ok.
    eapply biz_step_invariant; [by apply IH|done].
Qed.

Lemma finalize_Ok item b :
  finalize item = Ok b →
  name b = item.1 ∧ location b = acc_location item.2 ∧
  reviews b = acc_reviews item.2 ∧
  spec_rating (acc_total_stars item.2) (acc_reviews item.2) = Ok (rating b).
Proof. unfold finalize. by intros (x & Hx & [= <-])%bind_Ok. Qed.

Lemma finalized_names items bs :
  Forall2 (λ item b, finalize item = Ok b) items bs → name <$> bs = items.*1.
Proof.
  induction 1 as [|item b items bs H _ IH]; [done|].
  rewrite !fmap_cons, IH. by destruct (finalize_Ok _ _ H) as [-> _].
Qed.

(** The finalized top of the accumulators is the top-businesses fragment
    of the rows. *)
Lemma top_businesses_spec rows d bs :
  biz_invariant rows d → map_result finalize (top_biz d) = Ok bs →
  top_businesses_of 10 rows bs.
Proof.
  intros [Hnd Hd] HF%map_result_Ok. unfold top_biz in HF.
  fold (desc (λ item : string * Acc, acc_reviews item.2) d) in HF.
  set (key := λ item : string * Acc, acc_reviews item.2) in *.
  pose proof (finalized_names _ _ HF) as Hnames.
  assert (Hitem : ∀ i b, bs !! i = Some b → ∃ item,
    take 10 (desc key d) !! i = Some item ∧ item ∈ d ∧ finalize item = Ok b ∧
    reviews b = key item).
  { intros i b Hb. destruct (Forall2_lookup_r _ _ _ _ _ HF Hb) as (item & Hi & Hfin).
    exists item. split; [done|]. split.
    - apply lookup_take_Some in Hi as [Hi%list_elem_of_lookup_2 _].
      by rewrite desc_perm in Hi.
    - split; [done|]. destruct (finalize_Ok _ _ Hfin) as (_ & _ & Hr & _).
      by rewrite Hr. }
  split.
  - rewrite <- (Forall2_length _ _ _ HF), length_take. lia.
  - rewrite Hnames, fmap_take.
    apply (sublist_NoDup _ (desc key d).*1); [|apply sublist_take].
    by rewrite desc_perm.
  - intros b [i Hb]%list_elem_of_lookup_1.
    destruct (Hitem i b Hb) as ([nm a] & _ & Hin & Hfin & _).
    destruct (finalize_Ok _ _ Hfin) as (Hn & Hl & Hr & Hrat). simpl in *.
    pose proof (elem_of_get d nm a Hnd Hin) as Hget.
    specialize (Hd nm). rewrite Hget in Hd. destruct Hd as (Hne & Hrows & [H1 H2 H3]).
    split; rewrite ?Hn, ?Hl, ?Hr; try done.
    by exists (acc_total_stars a).
  - intros i j a b Hij Ha Hb.
    destruct (Hitem i a Ha) as (ia & Hia & _ & _ & ->).
    destruct (Hitem j b Hb) as (ib & Hib & _ & _ & ->).
    by destruct (take_desc_order key 10 d i j ia ib Hij Hia Hib).
  - intros r Hr Hne Hnot. specialize (Hd (biz_name r)).
    assert (Hrow : r ∈ rows_of (biz_name r) rows) by by apply list_elem_of_filter.
    destruct (get (biz_name r) d) as [a|] eqn:Hget.
    2: { destruct Hd as [?|Hd]; [done|]. rewrite Hd in Hrow. by apply elem_of_nil in Hrow. }
    destruct Hd as (_ & _ & [H1 _ _]).
    apply get_Some_elem_of in Hget.
    destruct (take_desc_top key 10 d (biz_name r, a) Hget) as [Hlen Htop].
    { intros Hin. apply Hnot. rewrite Hnames. apply list_elem_of_fmap.
      by exists (biz_name r, a). }
    split; [by rewrite <- (Forall2_length _ _ _ HF)|].
    intros b [i Hb]%list_elem_of_lookup_1.
    destruct (Hitem i b Hb) as (item & Hi%list_elem_of_lookup_2 & _ & _ & ->).
    rewrite <- H1. by apply (Htop item).
Qed.

(** ** C4: the top-businesses reducer *)



(** ** C10: every listed business has a review *)

(** C10.  Every record of [topBusinesses] has at least one review, so its
    rating comes from the division and is a float: the fallback 0 of an
    empty accumulator is never emitted. *)
Theorem top_businesses_have_reviews rows s b :
  process_flavor_rows rows = Ok s → b ∈ topBusinesses s →
  1 ≤ reviews b ∧ ∃ x, rating b = Float x.
Proof.
  intros (ys & cs & ss & sc & bz & tb & _ & _ & _ & _ & Hbz & Htb & ->)%process_flavor_rows_Ok Hb.
  simpl in Hb.
  destruct (top_businesses_spec rows bz tb (biz_reviews_invariant _ _ Hbz) Htb)
    as [_ _ Hbiz _ _].
  destruct (Hbiz b Hb) as [_ Hrows Hrev (total & _ & Hrat) _].
  assert (1 ≤ reviews b).
  { rewrite Hrev. destruct (rows_of (name b) rows); [done|]. simpl length. lia. }
  split; [done|]. unfold spec_rating in Hrat.
  destruct (Z.eqb_spec (reviews b) 0) as [?|_]; [lia|].
  apply bind_Ok in Hrat as (q & _ & [= <-]). by eexists.
Qed.

Lemma top_businesses_have_reviews_witness :
  1 ≤ 2 ∧ ∃ x, Float (S754_finite false 5066549580791808 (-51)) = Float x.
Proof.
  apply (top_businesses_have_reviews [row_austin; row_unparsable] summary_austin
           (mkBusiness "A" ", " 2 (Float (S754_finite false 5066549580791808 (-51))))).
  - vm_compute. reflexivity.
  - apply list_elem_of_lookup_2 with 0%nat. reflexivity.
Defined.

(** ** The order of floats *)

Lemma fltb_code a b :
  is_nan a = false → is_nan b = false →
  fltb a b = true ↔ code_lt (float_code a) (float_code b).
Proof.
  unfold fltb, SFltb, SFcompare, code_lt.
  destruct a as [sa|sa| |sa ma ea], b as [sb|sb| |sb mb eb]; try done; intros _ _;
    repeat match goal with s : bool |- _ => destruct s end; simpl;
    try (split; [done|lia]); try (split; [lia|done]); try (split; intros; [lia|done]).
  - destruct (Z.compare_spec ea eb); simpl.
    + change (Pos.compare_cont Eq ma mb) with (Pos.compare ma mb).
      destruct (Pos.compare_spec ma mb); simpl; split; try done; lia.
    + split; [done|lia].
    + split; [lia|done].
  - destruct (Z.compare_spec ea eb); simpl.
    + change (Pos.compare_cont Eq ma mb) with (Pos.compare ma mb).
      destruct (Pos.compare_spec ma mb); simpl; split; try done; lia.
    + split; [lia|done].
    + split; [done|lia].
Qed.

Lemma feqb_code a b :
  is_nan a = false → is_nan b = false →
  feqb a b = true ↔ float_code a = float_code b.
Proof.
  unfold feqb, SFeqb, SFcompare.
  destruct a as [sa|sa| |sa ma ea], b as [sb|sb| |sb mb eb]; try done; intros _ _;
    repeat match goal with s : bool |- _ => destruct s end; simpl;
    try (split; [done|congruence]); try (split; congruence).
  - destruct (Z.compare_spec ea eb); simpl.
    + change (Pos.compare_cont Eq ma mb) with (Pos.compare ma mb).
      destruct (Pos.compare_spec ma mb); simpl; split; try done;
        try congruence; intros [= ?]; lia.
    + split; [done|]. intros [= ?]; lia.
    + split; [done|]. intros [= ?]; lia.
  - destruct (Z.compare_spec ea eb); simpl.
    + change (Pos.compare_cont Eq ma mb) with (Pos.compare ma mb).
      destruct (Pos.compare_spec ma mb); simpl; split; try done;
        try congruence; intros [= ?]; lia.
    + split; [done|]. intros [= ?]; lia.
    + split; [done|]. intros [= ?]; lia.
Qed.

Lemma float_code_fneg x :
  float_code (fneg x) =
    (- (float_code x).1.1, - (float_code x).1.2, - (float_code x).2).
Proof. destruct x as [[]|[]| |[] m e]; simpl; by rewrite ?Z.opp_involutive. Qed.

Lemma is_nan_fneg x : is_nan (fneg x) = is_nan x.
Proof. by destruct x. Qed.

Lemma code_eq (p q : Z * Z * Z) :
  p = q ↔ p.1.1 = q.1.1 ∧ p.1.2 = q.1.2 ∧ p.2 = q.2.
Proof.
  destruct p as [[p1 p2] p3], q as [[q1 q2] q3]; simpl.
  split; [by intros [= -> -> ->]|by intros (-> & -> & ->)].
Qed.

(** [<] on the sort keys of the selection, for ratings that are no NaN. *)
Lemma key_ltb_spec (a b : float * Z) :
  is_nan a.1 = false → is_nan b.1 = false →
  key_ltb a b = true ↔
    code_lt (float_code a.1) (float_code b.1) ∨
    float_code a.1 = float_code b.1 ∧ a.2 < b.2.
Proof.
  intros Ha Hb. unfold key_ltb.
  pose proof (feqb_code a.1 b.1 Ha Hb) as He.
  pose proof (fltb_code a.1 b.1 Ha Hb) as Hl.
  destruct (feqb a.1 b.1).
  - destruct He as [He _]. specialize (He eq_refl). rewrite Z.ltb_lt. split.
    + by right.
    + intros [Hlt|[_ ?]]; [|done]. rewrite He in Hlt. unfold code_lt in Hlt. lia.
  - rewrite Hl. split; [by left|]. intros [?|[E _]]; [done|].
    destruct He as [_ He]. by specialize (He E).
Qed.

Lemma key_ltb_asym (a b : float * Z) :
  is_nan a.1 = false → is_nan b.1 = false →
  key_ltb a b = true → key_ltb b a = false.
Proof.
  intros Ha Hb Hab. destruct (key_ltb b a) eqn:Hba; [|done].
  apply key_ltb_spec in Hab, Hba; try done.
  rewrite !code_eq in *. unfold code_lt in *. lia.
Qed.

Lemma key_ltb_trans (a b c : float * Z) :
  is_nan a.1 = false → is_nan b.1 = false → is_nan c.1 = false →
  key_ltb b a = false → key_ltb c b = false → key_ltb c a = false.
Proof.
  intros Ha Hb Hc Hba Hcb. destruct (key_ltb c a) eqn:Hca; [|done].
  apply key_ltb_spec in Hca; try done.
  assert (Hba' : ¬ (code_lt (float_code b.1) (float_code a.1) ∨
                    float_code b.1 = float_code a.1 ∧ b.2 < a.2)).
  { intros H. apply key_ltb_spec in H; try done. congruence. }
  assert (Hcb' : ¬ (code_lt (float_code c.1) (float_code b.1) ∨
                    float_code c.1 = float_code b.1 ∧ c.2 < b.2)).
  { intros H. apply key_ltb_spec in H; try done. congruence. }
  rewrite !code_eq in *. unfold code_lt in *. lia.
Qed.

Lemma fltb_nan_l x : fltb S754_nan x = false.
Proof. by destruct x. Qed.

Lemma fltb_nan_r x : fltb x S754_nan = false.
Proof. by destruct x as [[]|[]| |[] m e]. Qed.

Lemma feqb_nan_l x : feqb S754_nan x = false.
Proof. by destruct x. Qed.

Lemma feqb_nan_r x : feqb x S754_nan = false.
Proof. by destruct x as [[]|[]| |[] m e]. Qed.

Lemma bool_eq_iff (a b : bool) : (a = true ↔ b = true) → a = b.
Proof. destruct a, b; intros [H1 H2]; try done; [by rewrite H1|by rewrite H2]. Qed.

(** Negating both sides turns [<] around and keeps [==]. *)
Lemma fltb_fneg x y : fltb (fneg x) (fneg y) = fltb y x.
Proof.
  destruct (is_nan x) eqn:Hx; [destruct x; try done; simpl; by rewrite fltb_nan_l, fltb_nan_r|].
  destruct (is_nan y) eqn:Hy; [destruct y; try done; simpl; by rewrite fltb_nan_l, fltb_nan_r|].
  apply bool_eq_iff. rewrite !fltb_code by by rewrite ?is_nan_fneg.
  rewrite !float_code_fneg. unfold code_lt. simpl. lia.
Qed.

Lemma feqb_fneg x y : feqb (fneg x) (fneg y) = feqb x y.
Proof.
  destruct (is_nan x) eqn:Hx; [destruct x; try done; simpl; by rewrite !feqb_nan_l|].
  destruct (is_nan y) eqn:Hy; [destruct y; try done; simpl; by rewrite !feqb_nan_r|].
  apply bool_eq_iff. rewrite !feqb_code by by rewrite ?is_nan_fneg.
  rewrite !float_code_fneg, !code_eq. simpl. lia.
Qed.

Lemma feqb_not_fltb x y : feqb x y = true → fltb y x = false.
Proof.
  intros H.
  destruct (is_nan x) eqn:Hx; [destruct x; try done; by rewrite feqb_nan_l in H|].
  destruct (is_nan y) eqn:Hy; [destruct y; try done; by rewrite feqb_nan_r in H|].
  apply feqb_code in H; try done.
  destruct (fltb y x) eqn:E; [|done]. apply fltb_code in E; try done.
  rewrite H in E. unfold code_lt in E. lia.
Qed.

(** The sort key of the selection orders the records by rank. *)
Lemma key_ltb_ranks a b :
  key_ltb (rated_key a) (rated_key b) = true ↔ ranks_above a b.
Proof.
  unfold key_ltb, rated_key, ranks_above. simpl. rewrite feqb_fneg, fltb_fneg.
  destruct (feqb (rated_rating a) (rated_rating b)) eqn:E.
  - rewrite (feqb_not_fltb _ _ E), Z.ltb_lt. split; [right; split; [done|lia]|].
    intros [?|[_ ?]]; [done|lia].
  - split; [by left|]. by intros [?|[? _]].
Qed.

(** The positions of a list beside its items. *)
Lemma lookup_zip_seq {A} (l : list A) k i a :
  zip (seq 0 (length l)) l !! k = Some (i, a) ↔ i = k ∧ l !! k = Some a.
Proof.
  rewrite lookup_zip_with_Some. split.
  - intros (i' & a' & [= <- <-] & Hi & Ha). split; [|done].
    apply lookup_seq in Hi as [-> _]. done.
  - intros [-> Ha]. exists k, a. split; [done|]. split; [|done].
    apply lookup_seq. split; [done|]. by apply lookup_lt_Some in Ha.
Qed.

Lemma sorted_key_by_rank l : sorted_by_rank l (sorted key_ltb rated_key l).
Proof.
  set (tagged := zip (seq 0 (length l)) l).
  set (T := sorted key_ltb (rated_key ∘ snd) tagged).
  assert (Htag : ∀ i a, (i, a) ∈ T → l !! i = Some a).
  { intros i a Hin. unfold T in Hin. rewrite sorted_perm in Hin.
    apply list_elem_of_lookup_1 in Hin as [k [-> Hk]%lookup_zip_seq]. done. }
  assert (HT2 : T.*2 = sorted key_ltb rated_key l).
  { unfold T. rewrite <- sorted_fmap. unfold tagged.
    by rewrite snd_zip by (rewrite length_seq; lia). }
  exists T.*1. split; [|split].
  - unfold T. rewrite sorted_perm. unfold tagged.
    by rewrite fst_zip by (rewrite length_seq; lia).
  - rewrite <- HT2. apply Forall2_fmap, Forall_Forall2_diag, Forall_forall.
    intros [i a] Hin. by apply Htag.
  - intros p q i j a b Hpq Hp Hq Ha Hb.
    apply list_lookup_fmap_Some in Hp as ([i' a'] & [= <-] & Hp).
    apply list_lookup_fmap_Some in Hq as ([j' b'] & [= <-] & Hq).
    pose proof (Htag _ _ (list_elem_of_lookup_2 _ _ _ Hp)) as Ha'.
    pose proof (Htag _ _ (list_elem_of_lookup_2 _ _ _ Hq)) as Hb'.
    assert (a' = a) as -> by congruence. assert (b' = b) as -> by congruence.
    pose proof (before_lookup _ _ _ _ _ Hpq Hp Hq) as Hbef. split.
    + destruct (sorted_stable _ _ _ _ _ Hbef) as [H%key_ltb_ranks|H]; [by left|].
      right. apply before_lookup_inv in H as (k1 & k2 & Hk & [-> _]%lookup_zip_seq
        & [-> _]%lookup_zip_seq). done.
    + intros Hnan Hr%key_ltb_ranks.
      assert (Hgood : Forall (λ y : nat * Rated, is_nan ((rated_key ∘ snd) y).1 = false)
                tagged).
      { apply Forall_forall. intros [k e] [k' [-> Hk]%lookup_zip_seq]%list_elem_of_lookup_1.
        simpl. rewrite is_nan_fneg. apply Hnan. by eapply list_elem_of_lookup_2. }
      pose proof (sorted_sorted key_ltb (rated_key ∘ snd) (λ k, is_nan k.1 = false)
                    key_ltb_asym key_ltb_trans tagged Hgood) as Hsorted.
      pose proof (StronglySorted_before _ _ _ _ Hsorted Hbef) as Hab.
      unfold not_after in Hab. simpl in Hab. congruence.
Qed.

(** ** C6: the top-rated selection *)

Lemma int_of_str_Raise s e : int_of_str s = Raise e → e = ValueError.
Proof.
  unfold int_of_str. destruct (read_sign _) as [neg s1].
  destruct (starts_with _ _); [congruence|].
  destruct (read_int_digits _ _ _ _) as [[[v n] rest]|]; [|congruence].
  destruct (n =? 0)%nat; [congruence|]. destruct (lstrip_with _ _); congruence.
Qed.

Lemma rated_fields_Raise r e : rated_fields r = Raise e → caught e = true.
Proof.
  unfold rated_fields, getitem.
  destruct (r !! "rating") as [v|]; simpl; [|by intros [= <-]].
  destruct (float_of_str v) eqn:E; simpl; [|intros [= <-]; by rewrite (float_of_str_Raise _ _ E)].
  destruct (r !! "review_count") as [w|]; simpl; [|by intros [= <-]].
  destruct (int_of_str w) eqn:E'; simpl; [done|].
  intros [= <-]. by rewrite (int_of_str_Raise _ _ E').
Qed.

(** A row the selection loop gets past is passed over when it fails the
    filter, and appended as its record otherwise. *)
Lemma rated_step_Ok r acc acc' :
  rated_step r acc = Ok acc' →
  (is_eligible r = false ∧ acc' = acc) ∨
  (is_eligible r = true ∧ ∃ e, rated_from r e ∧ acc' = acc ++ [e]).
Proof.
  unfold rated_step, is_eligible.
  destruct (rated_fields r) as [[x n]|e] eqn:E.
  - destruct (Z.leb_spec 10 n) as [Hn|Hn].
    + unfold getitem.
      destruct (r !! "name") as [nm|] eqn:En; simpl; [|done].
      destruct (r !! "city") as [c|] eqn:Ec; simpl; [|done].
      destruct (r !! "state") as [s|] eqn:Es; simpl; [|done].
      intros [= <-]. right. split; [done|]. eexists. split; [|done].
      split; simpl; try done. unfold row_location. by rewrite Ec, Es.
    + intros [= <-]. by left.
  - rewrite (rated_fields_Raise _ _ E). intros [= <-]. by left.
Qed.

Lemma rated_loop rows acc l :
  for_each rows rated_step acc = Ok l →
  ∃ l', l = acc ++ l' ∧
        Forall2 rated_from (filter (λ r, is_eligible r = true) rows) l'.
Proof.
  revert acc. induction rows as [|r rows IH]; intros acc; simpl.
  - intros [= <-]. exists []. by rewrite app_nil_r.
  - intros (acc1 & H1 & Hrest)%bind_Ok.
    destruct (IH _ Hrest) as (l' & -> & HF).
    destruct (rated_step_Ok _ _ _ H1) as [[He ->]|(He & e & Hfrom & ->)].
    + exists l'. split; [done|]. rewrite filter_cons_False; [done|congruence].
    + exists (e :: l'). split; [by rewrite <- app_assoc|].
      rewrite filter_cons_True by done. by constructor.
Qed.

Lemma top_rated_spec_holds rows out :
  top_rated_of rows = Ok out → top_rated_spec rows out.
Proof.
  unfold top_rated_of. intros (l & Hl & [= <-])%bind_Ok.
  destruct (rated_loop _ _ _ Hl) as (l' & -> & HF). simpl in *.
  set (S := sorted key_ltb rated_key l').
  assert (HS : S ≡ₚ l') by apply sorted_perm.
  assert (Hfrom : ∀ e, e ∈ l' → ∃ r, r ∈ rows ∧ is_eligible r = true ∧ rated_from r e).
  { intros e [i He]%list_elem_of_lookup_1.
    destruct (Forall2_lookup_r _ _ _ _ _ HF He) as (r & Hr%list_elem_of_lookup_2 & Hre).
    apply list_elem_of_filter in Hr as [? ?]. by exists r. }
  split.
  - exists l', S. split; [done|]. split; [apply sorted_key_by_rank|done].
  - rewrite length_take. lia.
  - intros e He%elem_of_take. destruct He as (i & Hi%list_elem_of_lookup_2 & _).
    apply Hfrom. by rewrite <- HS.
  - intros Hnan i j a b Hij Ha Hb.
    apply lookup_take_Some in Ha as [Ha _]. apply lookup_take_Some in Hb as [Hb _].
    pose proof (before_lookup _ _ _ _ _ Hij Ha Hb) as Hbef.
    assert (Hgood : Forall (λ y, is_nan (rated_key y).1 = false) l').
    { apply Forall_forall. intros e (r & Hr & _ & [Hf _ _ _ _])%Hfrom.
      simpl. rewrite is_nan_fneg. by eapply Hnan. }
    pose proof (sorted_sorted key_ltb rated_key (λ k, is_nan k.1 = false)
                  key_ltb_asym key_ltb_trans l' Hgood) as Hsorted.
    pose proof (StronglySorted_before _ _ _ _ Hsorted Hbef) as Hab.
    unfold not_after in Hab.
    assert (Hga : is_nan (rated_key a).1 = false).
    { rewrite Forall_forall in Hgood. apply Hgood. rewrite <- HS.
      by eapply list_elem_of_lookup_2. }
    assert (Hgb : is_nan (rated_key b).1 = false).
    { rewrite Forall_forall in Hgood. apply Hgood. rewrite <- HS.
      by eapply list_elem_of_lookup_2. }
    assert (Hab' : ¬ (code_lt (float_code (rated_key b).1) (float_code (rated_key a).1) ∨
              float_code (rated_key b).1 = float_code (rated_key a).1 ∧
              (rated_key b).2 < (rated_key a).2)).
    { intros H. apply key_ltb_spec in H; try done. congruence. }
    simpl in Hga, Hgb, Hab'. rewrite is_nan_fneg in Hga, Hgb.
    rewrite !float_code_fneg in Hab'. split.
    + destruct (fltb (rated_rating a) (rated_rating b)) eqn:E; [|done].
      apply fltb_code in E; try done. exfalso. apply Hab'.
      unfold code_lt in *. simpl. lia.
    + intros E%feqb_code; try done.
      destruct (decide (reviewCount b ≤ reviewCount a)); [done|].
      exfalso. apply Hab'. right. rewrite E. split; [done|lia].
  - intros Hlen r Hr He.
    assert (Hin : r ∈ filter (λ r, is_eligible r = true) rows)
      by by apply list_elem_of_filter.
    apply list_elem_of_lookup_1 in Hin as [i Hi].
    destruct (Forall2_lookup_l _ _ _ _ _ HF Hi) as (e & He'%list_elem_of_lookup_2 & Hre).
    exists e. split; [|done].
    rewrite take_ge; [by rewrite HS|].
    rewrite HS. rewrite <- (Forall2_length _ _ _ HF). done.
Qed.








(** ** C7: ratings lie in [0, 5] *)

Lemma float_of_int_0 : float_of_int 0 = Ok (S754_zero false).
Proof. vm_compute. reflexivity. Qed.

(** The star total of rows with valid ratings: a float between 0 and 5
    times their number, once there is a row. *)
Lemma star_total_between rs :
  (∀ r, r ∈ rs → ∃ x, row_rating r = Some x ∧ between 0 5 x) →
  5 * Z.of_nat (length rs) < 2 ^ 53 →
  (rs = [] ∧ star_total rs = Ok (Int 0)) ∨
  (rs ≠ [] ∧ ∃ t, star_total rs = Ok (Float t) ∧
                  between 0 (5 * Z.of_nat (length rs)) t).
Proof.
  induction rs as [|r rs IH] using rev_ind; [by left|].
  intros Hvalid Hlen. right. split; [by destruct rs|].
  rewrite length_app in *. simpl length in *.
  destruct (Hvalid r) as (x & Hx & Hbx); [set_solver|].
  rewrite star_total_snoc.
  destruct IH as [[-> ->]|(_ & t & -> & Ht)]; [set_solver|lia|..]; cbn [bind];
    unfold add_rating; rewrite Hx; cbn [num_add].
  - rewrite float_of_int_0. cbn [bind]. eexists. split; [done|].
    apply (fadd_between 0 0 0 5); try done; lia.
  - eexists. split; [done|].
    replace (5 * Z.of_nat (length rs + 1)) with (5 * Z.of_nat (length rs) + 5) by lia.
    apply (fadd_between 0 (5 * Z.of_nat (length rs)) 0 5); try done; lia.
Qed.

(** The rating of a business with valid ratings lies in [0, 5]. *)
Lemma spec_rating_between rs total x :
  (∀ r, r ∈ rs → ∃ x, row_rating r = Some x ∧ between 0 5 x) →
  Z.of_nat (length rs) < 2 ^ 50 → rs ≠ [] →
  star_total rs = Ok total →
  spec_rating total (Z.of_nat (length rs)) = Ok x →
  ∃ y, x = Float y ∧ between 0 5 y.
Proof.
  intros Hvalid Hlen Hne Htotal Hx.
  destruct (star_total_between rs Hvalid ltac:(lia)) as [[? _]|(_ & t & Ht & Hbt)]; [done|].
  rewrite Ht in Htotal. injection Htotal as <-.
  unfold spec_rating, num_truediv in Hx.
  assert (1 ≤ Z.of_nat (length rs)) by (destruct rs; [done|simpl length; lia]).
  destruct (Z.eqb_spec (Z.of_nat (length rs)) 0); [lia|].
  destruct (float_of_int_exact (Z.of_nat (length rs)) ltac:(lia)) as (y & Hy & Hby).
  rewrite Hy in Hx. cbn [bind] in Hx. injection Hx as <-.
  eexists. split; [done|].
  apply round_ndigits_between; [done|lia|done|].
  apply (fdiv_between 0 5 0 (5 * Z.of_nat (length rs)) (Z.of_nat (length rs)));
    try done; lia.
Qed.

(** C7 (amended).  The rating of a listed business with fewer than
    [2^50] reviews is a float in [0, 5] when the ratings of its rows parse
    and lie in [0, 5], whatever the rows of the other businesses hold;
    the rating of a record of the top-rated list lies in [0, 5] when the
    rating of the row it is built from does; and an accumulator with a
    review count of 0 gets the rating 0.  (A rating of 0 does not tell
    that the review count is 0.) *)
Theorem ratings_in_range :
  (∀ rows s b,
     process_flavor_rows rows = Ok s → b ∈ topBusinesses s →
     valid_business_ratings (name b) rows → reviews b < 2 ^ 50 →
     ∃ x, rating b = Float x ∧ between 0 5 x) ∧
  (∀ rows b e,
     process_2025_businesses_rows rows = Ok b → e ∈ topRated b →
     valid_record_rating rows e → between 0 5 (rated_rating e)) ∧
  (∀ a, acc_reviews a = 0 → rating_of a = Ok (Int 0)).
Proof.
  split; [|split].
  - intros rows s b
      (ys & cs & ss & sc & bz & tb & _ & _ & _ & _ & Hbz & Htb & ->)%process_flavor_rows_Ok
      Hb Hvalid Hlen. simpl in Hb.
    destruct (top_businesses_spec rows bz tb (biz_reviews_invariant _ _ Hbz) Htb)
      as [_ _ Hbiz _ _].
    destruct (Hbiz b Hb) as [Hname Hrows Hrev (total & Htotal & Hrat) _].
    rewrite Hrev in Hrat, Hlen.
    by apply (spec_rating_between (rows_of (name b) rows) total).
  - unfold process_2025_businesses_rows.
    intros rows b e
      (cs & _ & (ss & _ & (tr & Htr & [= <-])%bind_Ok)%bind_Ok)%bind_Ok He Hvalid.
    simpl in He.
    destruct (tr_eligible _ _ (top_rated_spec_holds _ _ Htr) e He)
      as (r & Hr & _ & Hfrom).
    eapply (Hvalid r); [done..|]. by destruct Hfrom.
  - intros a Ha. unfold rating_of. by rewrite Ha.
Qed.

(** The business [A] has one rating, 4.5; the rating of the other
    business of the dataset does not parse. *)
Lemma ratings_in_range_witness :
  process_flavor_rows [row_austin; row_bad_rating] = Ok summary_mixed ∧
  ∃ x, Float (S754_finite false 5066549580791808 (-50)) = Float x ∧ between 0 5 x.
Proof.
  assert (H : process_flavor_rows [row_austin; row_bad_rating] = Ok summary_mixed)
    by (vm_compute; reflexivity).
  split; [exact H|].
  apply (proj1 ratings_in_range [row_austin; row_bad_rating] summary_mixed
           (mkBusiness "A" "Austin, TX" 1
              (Float (S754_finite false 5066549580791808 (-50))))).
  - exact H.
  - apply list_elem_of_lookup_2 with 0%nat. reflexivity.
  - intros r Hr. vm_compute in Hr. apply list_elem_of_singleton in Hr as ->.
    exists (S754_finite false 5066549580791808 (-50)).
    split; [vm_compute; reflexivity|].
    split; unfold le2; apply Z.leb_le; vm_compute; reflexivity.
  - vm_compute. reflexivity.
Defined.

(** C7 as stated fails: a business whose only rating is 0 (a valid input)
    has the rating 0.0 with a review count of 1. *)
Lemma zero_rating_with_reviews :
  process_flavor_rows [row_zero_rating] = Ok summary_zero_rating ∧
  valid_business_ratings "Z" [row_zero_rating] ∧
  ∃ b, b ∈ topBusinesses summary_zero_rating ∧ name b = "Z" ∧
       num_is_zero (rating b) = true ∧ reviews b ≠ 0.
Proof.
  split; [vm_compute; reflexivity|]. split.
  - intros r Hr. vm_compute in Hr. apply list_elem_of_singleton in Hr as ->.
    exists (S754_zero false).
    split; [vm_compute; reflexivity|]. simpl. lia.
  - exists (mkBusiness "Z" "Reno, NV" 1 (Float (S754_zero false))).
    split; [apply list_elem_of_lookup_2 with 0%nat; reflexivity|].
    split; [reflexivity|]. split; [reflexivity|done].
Qed.

(** ** [process_flavor] returns on processable datasets *)

Lemma generate_Ok {B} (f : Row → result (list B)) rows :
  (∀ r, r ∈ rows → ∃ ks, f r = Ok ks) → ∃ ks, generate f rows = Ok ks.
Proof.
  induction rows as [|r rows IH]; intros H; simpl; [by eexists|].
  destruct (H r) as [ks ->]; [set_solver|].
  destruct IH as [ks' ->]; [intros r' Hr'; apply H; set_solver|].
  by eexists.
Qed.

Lemma map_result_all_Ok {A B} (f : A → result B) xs :
  (∀ x, x ∈ xs → ∃ y, f x = Ok y) → ∃ ys, map_result f xs = Ok ys.
Proof.
  induction xs as [|x xs IH]; intros H; simpl; [by eexists|].
  destruct (H x) as [y ->]; [set_solver|].
  destruct IH as [ys ->]; [intros x' Hx'; apply H; set_solver|].
  by eexists.
Qed.

Lemma star_of_Raise r e : star_of r = Raise e → caught e = true ∨ e = OverflowError.
Proof.
  unfold star_of, getitem.
  destruct (r !! "stars_x") as [s|]; simpl; [|intros [= <-]; by left].
  destruct (float_of_str s) as [x|e'] eqn:E; simpl.
  - destruct x; simpl; intros [= <-]; first [by left | by right].
  - intros [= <-]. rewrite (float_of_str_Raise _ _ E). by left.
Qed.

Lemma star_counts_returns rows c :
  (∀ r, r ∈ rows → star_of r ≠ Raise OverflowError) →
  ∃ c', for_each rows star_step c = Ok c'.
Proof.
  revert c. induction rows as [|r rows IH]; intros c H; simpl; [by eexists|].
  assert (∃ c1, star_step r c = Ok c1) as [c1 ->].
  { unfold star_step. destruct (star_of r) as [s|e] eqn:E; simpl; [by eexists|].
    destruct (star_of_Raise _ _ E) as [->| ->]; [by eexists|].
    destruct (H r); [set_solver|done]. }
  simpl. apply IH. intros r' Hr'. apply H. set_solver.
Qed.

(** The running total is the integer 0 until a rating parses, and a float
    from then on. *)
Lemma star_total_shape rs t :
  star_total rs = Ok t → t = Int 0 ∨ ∃ y, t = Float y.
Proof.
  revert t. induction rs as [|r rs IH] using rev_ind; intros t.
  - intros [= <-]. by left.
  - rewrite star_total_snoc. intros (t0 & H0 & Ht)%bind_Ok.
    unfold add_rating in Ht. destruct (row_rating r) as [x|].
    + right. destruct t0 as [n|y]; simpl in Ht.
      * apply bind_Ok in Ht as (y & _ & [= <-]). by eexists.
      * injection Ht as <-. by eexists.
    + injection Ht as <-. by apply IH.
Qed.

Lemma add_rating_returns r t :
  (t = Int 0 ∨ ∃ y, t = Float y) → ∃ t', add_rating r t = Ok t'.
Proof.
  unfold add_rating. destruct (row_rating r) as [x|]; [|by eexists].
  intros [->|[y ->]]; cbn [num_add]; [|by eexists].
  rewrite float_of_int_0. by eexists.
Qed.

Lemma biz_step_returns rows r d :
  biz_invariant rows d → is_Some (r !! "city") → is_Some (r !! "state") →
  ∃ d', biz_step r d = Ok d'.
Proof.
  intros [_ Hd] [c Hc] [s Hs]. unfold biz_step, getitem. rewrite Hc, Hs.
  fold (biz_name r). destruct (truthy (biz_name r)); simpl; [|by eexists].
  rewrite add_stars_add_rating.
  destruct (add_rating_returns r (acc_total_stars (default new_acc (get (biz_name r) d))))
    as [t ->]; [|by eexists].
  specialize (Hd (biz_name r)). destruct (get (biz_name r) d) as [a|]; simpl; [|by left].
  destruct Hd as (_ & _ & [_ Ht _]). by eapply star_total_shape.
Qed.

Lemma biz_reviews_returns rows :
  (∀ r, r ∈ rows → is_Some (r !! "city") ∧ is_Some (r !! "state")) →
  ∃ d, biz_reviews rows = Ok d.
Proof.
  unfold biz_reviews. induction rows as [|r rows IH] using rev_ind; intros H.
  - by eexists.
  - destruct IH as [d Hd]; [intros r' Hr'; apply H; set_solver|].
    rewrite for_each_snoc, Hd. cbn [bind].
    destruct (H r) as [? ?]; [set_solver|].
    apply (biz_step_returns rows); [|done..]. by apply biz_reviews_invariant.
Qed.

Lemma finalize_returns rows d item :
  biz_invariant rows d → Z.of_nat (length rows) < 2 ^ 53 → item ∈ d →
  ∃ b, finalize item = Ok b.
Proof.
  intros [Hnd Hd] Hlen Hin. destruct item as [nm a].
  pose proof (elem_of_get d nm a Hnd Hin) as Hget.
  specialize (Hd nm). rewrite Hget in Hd. destruct Hd as (_ & Hne & [Hrev Htot _]).
  assert (1 ≤ acc_reviews a < 2 ^ 53) as Hr.
  { rewrite Hrev. pose proof (length_filter (λ r, biz_name r = nm) rows).
    unfold rows_of in *. destruct (filter _ rows); [done|]. simpl length in *. lia. }
  unfold finalize, rating_of, num_truediv. simpl.
  destruct (Z.eqb_spec (acc_reviews a) 0) as [?|_]; [lia|].
  destruct (star_total_shape _ _ Htot) as [->|[y ->]].
  - replace (acc_reviews a <? 0) with false by (symmetry; apply Z.ltb_ge; lia).
    change (Z.abs 0) with 0. change (xorb (0 <? 0) false) with false.
    rewrite (Z.abs_eq (acc_reviews a)) by lia.
    assert (between 0 0 (float_of_ratio false 0 (acc_reviews a))) as Hb
      by (apply float_of_ratio_between; lia).
    destruct (float_of_ratio false 0 (acc_reviews a)); simpl in *;
      first [done | by eexists].
  - destruct (float_of_int_exact (acc_reviews a) ltac:(lia)) as (z & -> & _).
    simpl. by eexists.
Qed.

(** A dataset whose rows carry the [year], [city] and [state] columns and
    no infinite rating, of fewer than [2^53] rows, is summarized, whatever
    else its fields hold. *)
Lemma process_flavor_rows_returns rows :
  processable rows → Z.of_nat (length rows) < 2 ^ 53 →
  ∃ s, process_flavor_rows rows = Ok s.
Proof.
  intros Hp Hlen. unfold process_flavor_rows.
  destruct (generate_Ok year_of rows) as [ys ->].
  { intros r Hr. destruct (Hp r Hr) as ([y Hy] & _).
    unfold year_of, getitem. rewrite Hy. simpl. destruct (truthy y); by eexists. }
  destruct (generate_Ok city_of rows) as [cs ->].
  { intros r Hr. destruct (Hp r Hr) as (_ & [c Hc] & [s Hs] & _).
    unfold city_of, getitem. rewrite Hc. simpl.
    destruct (truthy c); [|by eexists]. rewrite Hs. by eexists. }
  destruct (generate_Ok state_of rows) as [ss ->].
  { intros r Hr. destruct (Hp r Hr) as (_ & _ & [s Hs] & _).
    unfold state_of, getitem. rewrite Hs. simpl. destruct (truthy s); by eexists. }
  destruct (star_counts_returns rows []) as [sc Hsc].
  { intros r Hr. by apply Hp. }
  unfold star_counts. rewrite Hsc.
  destruct (biz_reviews_returns rows) as [bz Hbz].
  { intros r Hr. split; by apply Hp. }
  rewrite Hbz. cbn [bind].
  destruct (map_result_all_Ok finalize (top_biz bz)) as [tb ->]; [|by eexists].
  intros item Hitem. apply (finalize_returns rows bz); [by apply biz_reviews_invariant|done|].
  unfold top_biz in Hitem. apply elem_of_take in Hitem as (i & Hi%list_elem_of_lookup_2 & _).
  fold (desc (λ item : string * Acc, acc_reviews item.2) bz) in Hi.
  by rewrite desc_perm in Hi.
Qed.

(** ** C1: the total is the row count *)

(** C1.  Whenever [process_flavor] produces a summary, its [totalReviews]
    is the number of rows of the dataset, whatever the fields of the rows
    hold: no field is read to compute it.  And a summary is produced for
    every dataset of fewer than [2^53] rows that carry the [year], [city]
    and [state] columns and no infinite rating, however many of their
    fields are empty or fail to coerce. *)
Theorem totalReviews_is_row_count rows :
  (∀ s, process_flavor_rows rows = Ok s →
        totalReviews s = Z.of_nat (length rows)) ∧
  (processable rows → Z.of_nat (length rows) < 2 ^ 53 →
   ∃ s, process_flavor_rows rows = Ok s ∧
        totalReviews s = Z.of_nat (length rows)).
Proof.
  assert (∀ s, process_flavor_rows rows = Ok s →
               totalReviews s = Z.of_nat (length rows)) as H.
  { intros s H. apply process_flavor_rows_Ok in H
      as (ys & cs & ss & sc & bz & tb & _ & _ & _ & _ & _ & _ & ->).
    done. }
  split; [exact H|]. intros Hp Hlen.
  destruct (process_flavor_rows_returns rows Hp Hlen) as [s Hs].
  exists s. split; [exact Hs|]. by apply H.
Qed.

(** A dataset of two rows, one of them with empty fields and an unparsable
    rating, is processable and reports 2. *)
Lemma totalReviews_is_row_count_witness :
  processable [row_austin; row_unparsable] ∧
  process_flavor_rows [row_austin; row_unparsable] = Ok summary_austin ∧
  totalReviews summary_austin = 2 ∧
  ∃ s, process_flavor_rows [row_austin; row_unparsable] = Ok s ∧
       totalReviews s = 2.
Proof.
  assert (Hp : processable [row_austin; row_unparsable]).
  { intros r Hr. apply elem_of_cons in Hr as [->|Hr];
      [|apply list_elem_of_singleton in Hr as ->];
      (repeat split; [by eexists; vm_compute; reflexivity..|vm_compute; discriminate]). }
  assert (H : process_flavor_rows [row_austin; row_unparsable] = Ok summary_austin)
    by (vm_compute; reflexivity).
  split; [exact Hp|]. split; [exact H|]. split.
  - exact (proj1 (totalReviews_is_row_count [row_austin; row_unparsable])
             summary_austin H).
  - apply (proj2 (totalReviews_is_row_count [row_austin; row_unparsable]) Hp).
    vm_compute. reflexivity.
Defined.

(* ================================================================== *)
(** * Part VI: further properties of the pipeline                      *)
(* ================================================================== *)

(** ** Generators and the keys of the rows *)

Lemma generate_keys {K} (f : Row → result (list K)) (key : Row → option K) rows ks :
  (∀ r ks, f r = Ok ks → ks = option_list (key r)) →
  generate f rows = Ok ks → ks = omap key rows.
Proof.
  intros Hf. revert ks. induction rows as [|r rows IH]; intros ks; simpl.
  - by intros [= <-].
  - intros (k1 & H1 & (k2 & H2 & [= <-])%bind_Ok)%bind_Ok.
    rewrite (Hf _ _ H1), (IH _ H2). by destruct (key r).
Qed.

Lemma generate_each_Ok {K} (f : Row → result (list K)) rows ks r :
  generate f rows = Ok ks → r ∈ rows → ∃ ks', f r = Ok ks'.
Proof.
  revert ks. induction rows as [|r' rows IH]; intros ks; simpl.
  - by intros _ ?%elem_of_nil.
  - intros (k1 & H1 & (k2 & H2 & _)%bind_Ok)%bind_Ok [->|Hin]%elem_of_cons; eauto.
Qed.

Lemma year_of_key r ks : year_of r = Ok ks → ks = option_list (year_key r).
Proof.
  unfold year_of, year_key, getitem. destruct (r !! "year") as [y|]; simpl; [|done].
  intros [= <-]. by destruct (truthy y).
Qed.

Lemma state_of_key r ks : state_of r = Ok ks → ks = option_list (state_key r).
Proof.
  unfold state_of, state_key, getitem. destruct (r !! "state") as [y|]; simpl; [|done].
  intros [= <-]. by destruct (truthy y).
Qed.

Lemma city_of_key r ks : city_of r = Ok ks → ks = option_list (city_key r).
Proof.
  unfold city_of, city_key, getitem. destruct (r !! "city") as [c|]; simpl; [|done].
  destruct (truthy c); simpl.
  - destruct (r !! "state") as [s|]; simpl; [|done].
    intros [= <-]. by destruct (truthy s).
  - intros [= <-]. by destruct (r !! "state").
Qed.

Lemma city_of_2025_key r ks :
  city_of_2025 r = Ok ks → ks = option_list (city_key_2025 r).
Proof.
  unfold city_of_2025, city_key_2025, getitem.
  destruct (r !! "city") as [c|]; simpl; [|done].
  destruct (truthy c); simpl.
  - destruct (r !! "state") as [s|]; simpl; [|done]. by intros [= <-].
  - intros [= <-]. by destruct (r !! "state").
Qed.

Lemma occurrences_omap {K} `{EqDecision K} (key : Row → option K) k rows :
  occurrences k (omap key rows) = rows_counted key k rows.
Proof.
  unfold rows_counted. induction rows as [|r rows IH]; [done|].
  rewrite filter_cons. cbn [omap list_omap]. fold (omap key rows).
  destruct (key r) as [k'|] eqn:E.
  - cbn [occurrences]. rewrite IH.
    destruct (decide (Some k' = Some k)) as [[= ->]|Hne].
    + rewrite (decide_True (P := k = k)) by done. rewrite length_cons. lia.
    + rewrite (decide_False (P := k' = k)) by congruence. lia.
  - rewrite IH. by destruct (decide (None = Some k)).
Qed.

Lemma length_omap_le {K} (key : Row → option K) rows :
  (length (omap key rows) ≤ length rows)%nat.
Proof.
  induction rows as [|r rows IH]; [done|].
  cbn [omap list_omap]. fold (omap key rows).
  destruct (key r); rewrite !length_cons; lia.
Qed.

Lemma generate_Raise {K} (f : Row → result (list K)) rows e :
  generate f rows = Raise e → ∃ r, r ∈ rows ∧ f r = Raise e.
Proof.
  induction rows as [|r rows IH]; simpl; [done|].
  destruct (f r) as [ks|e'] eqn:E; simpl.
  - destruct (generate f rows) as [ks'|e'']; simpl; [done|].
    intros [= ->]. destruct IH as (r' & Hr' & Hf); [done|]. exists r'. set_solver.
  - intros [= ->]. exists r. set_solver.
Qed.

Lemma for_each_Raise {A St} (xs : list A) (body : A → St → result St) s e :
  for_each xs body s = Raise e → ∃ x s', x ∈ xs ∧ body x s' = Raise e.
Proof.
  revert s. induction xs as [|x xs IH]; intros s; simpl; [done|].
  destruct (body x s) as [s1|e'] eqn:E; simpl.
  - intros (x' & s' & Hx' & Hb)%IH. exists x', s'. set_solver.
  - intros [= ->]. exists x, s. set_solver.
Qed.

Lemma getitem_Raise (r : Row) k e :
  getitem r k = Raise e → e = KeyError k ∧ r !! k = None.
Proof. unfold getitem. destruct (r !! k); [done|]. by intros [= <-]. Qed.

(** ** The order of texts *)

Lemma ascii_compare_Lt_trans a b c :
  Ascii.compare a b = Lt → Ascii.compare b c = Lt → Ascii.compare a c = Lt.
Proof.
  unfold Ascii.compare. rewrite !N.compare_lt_iff. lia.
Qed.

Lemma string_compare_Lt_trans a b c :
  String.compare a b = Lt → String.compare b c = Lt → String.compare a c = Lt.
Proof.
  revert b c. induction a as [|x a IH]; intros [|y b] [|z c]; simpl; try done.
  destruct (Ascii.compare x y) eqn:Exy; try done.
  - apply Ascii.compare_eq_iff in Exy as ->.
    destruct (Ascii.compare y z); try done. apply IH.
  - intros _. destruct (Ascii.compare y z) eqn:Eyz; try done.
    + apply Ascii.compare_eq_iff in Eyz as <-. by rewrite Exy.
    + by rewrite (ascii_compare_Lt_trans _ _ _ Exy Eyz).
Qed.

Lemma string_ltb_asym a b : String.ltb a b = true → String.ltb b a = false.
Proof.
  unfold String.ltb. rewrite (String.compare_antisym a b).
  by destruct (String.compare b a).
Qed.

Lemma string_ltb_total a b : a ≠ b → String.ltb b a = false → String.ltb a b = true.
Proof.
  unfold String.ltb. intros Hne. rewrite (String.compare_antisym a b).
  destruct (String.compare b a) eqn:E; try done.
  apply String.compare_eq_iff in E. congruence.
Qed.

Lemma string_ltb_trans a b c :
  String.ltb a b = true → String.ltb b c = true → String.ltb a c = true.
Proof.
  unfold String.ltb.
  destruct (String.compare a b) eqn:E1; try done.
  destruct (String.compare b c) eqn:E2; try done.
  by rewrite (string_compare_Lt_trans _ _ _ E1 E2).
Qed.

Lemma string_not_ltb_trans a b c :
  String.ltb b a = false → String.ltb c b = false → String.ltb c a = false.
Proof.
  intros H1 H2. destruct (String.ltb c a) eqn:E; [|done].
  destruct (decide (a = b)) as [->|Hne]; [congruence|].
  pose proof (string_ltb_total a b Hne H1) as Hab.
  pose proof (string_ltb_trans _ _ _ E Hab). congruence.
Qed.

(** [sorted(keys)] of distinct texts is strictly ascending. *)
Lemma sorted_strings_ascending (ks : list string) i j a b :
  NoDup ks → (i < j)%nat →
  sorted String.ltb id ks !! i = Some a → sorted String.ltb id ks !! j = Some b →
  String.ltb a b = true.
Proof.
  intros Hnd Hij Hi Hj.
  assert (NoDup (sorted String.ltb id ks)) as Hnd' by by rewrite sorted_perm.
  apply string_ltb_total.
  - intros ->. pose proof (NoDup_lookup _ _ _ _ Hnd' Hi Hj). lia.
  - pose proof (before_lookup _ _ _ _ _ Hij Hi Hj) as Hb.
    eapply (StronglySorted_before (not_after String.ltb id)) in Hb; [exact Hb|].
    apply (sorted_sorted _ _ (λ _, True)); [..|by apply Forall_true].
    + intros x y _ _. apply string_ltb_asym.
    + intros x y z _ _ _. apply string_not_ltb_trans.
Qed.

(** ** The yearly trends *)

Lemma year_trends_spec rows ys :
  generate year_of rows = Ok ys →
  year_trends_of rows
    ((λ y, (y, default 0 (get y (Counter ys)))) <$>
       sorted String.ltb id (keys (Counter ys))).
Proof.
  intros ->%(generate_keys _ year_key); [|apply year_of_key].
  set (ys := omap year_key rows). split.
  - intros i j a b Hij Hi Hj.
    apply list_lookup_fmap_Some in Hi as (y1 & -> & Hi).
    apply list_lookup_fmap_Some in Hj as (y2 & -> & Hj).
    apply (sorted_strings_ascending (keys (Counter ys)) i j); try done.
    apply Counter_keys_NoDup.
  - intros y c. rewrite list_elem_of_fmap. split.
    + intros (y' & [= -> ->] & Hin). rewrite sorted_perm in Hin.
      apply (proj1 (Counter_keys_elem_of ys y')) in Hin.
      rewrite Counter_get, decide_True by done.
      cbn [default]. split; [by apply occurrences_pos|apply occurrences_omap].
    + intros [Hc ->]. rewrite <- occurrences_omap in Hc |- *. fold ys in Hc |- *.
      apply occurrences_pos in Hc. exists y. split.
      * by rewrite Counter_get, decide_True.
      * rewrite sorted_perm. by apply Counter_keys_elem_of.
Qed.

(** X1.  In every summary the yearly trends list each year that some row
    carries (a non-empty [year] text) once, with the number of rows that
    carry it, the years in strictly ascending order of their text. *)
Theorem year_trends_ascending rows s :
  process_flavor_rows rows = Ok s → year_trends_of rows (yearTrends s).
Proof.
  intros (ys & cs & ss & sc & bz & tb & Hys & _ & _ & _ & _ & _ & ->)%process_flavor_rows_Ok.
  by apply year_trends_spec.
Qed.

Lemma year_trends_ascending_witness :
  year_trends_of [row_austin; row_unparsable] (yearTrends summary_austin).
Proof.
  apply (year_trends_ascending [row_austin; row_unparsable] summary_austin).
  vm_compute. reflexivity.
Defined.

(** ** When [process_flavor] returns *)

Lemma getitem_is_Some (r : Row) k v : getitem r k = Ok v → is_Some (r !! k).
Proof. unfold getitem. destruct (r !! k); [by eexists|done]. Qed.

Lemma for_each_each_Ok {A St} (xs : list A) (body : A → St → result St) s s' x :
  for_each xs body s = Ok s' → x ∈ xs → ∃ s1 s2, body x s1 = Ok s2.
Proof.
  revert s. induction xs as [|y xs IH]; intros s; simpl.
  - by intros _ ?%elem_of_nil.
  - intros (s1 & H1 & Hrest)%bind_Ok [->|Hin]%elem_of_cons; eauto.
Qed.

(** A summary is produced only for a dataset whose rows carry the columns
    the reducers index directly and no infinite rating. *)
Lemma process_flavor_rows_processable rows s :
  process_flavor_rows rows = Ok s → processable rows.
Proof.
  intros (ys & cs & ss & sc & bz & tb & Hys & Hcs & Hss & Hsc & _)%process_flavor_rows_Ok
    r Hr.
  destruct (generate_each_Ok _ _ _ r Hys Hr) as [ks Hy].
  destruct (generate_each_Ok _ _ _ r Hcs Hr) as [ks' Hc].
  destruct (generate_each_Ok _ _ _ r Hss Hr) as [ks'' Hs].
  destruct (for_each_each_Ok _ _ _ _ r Hsc Hr) as (c1 & c2 & Hstar).
  repeat split.
  - unfold year_of in Hy. apply bind_Ok in Hy as (y & Hy & _).
    by eapply getitem_is_Some.
  - unfold city_of in Hc. apply bind_Ok in Hc as (c & Hc & _).
    by eapply getitem_is_Some.
  - unfold state_of in Hs. apply bind_Ok in Hs as (c & Hs & _).
    by eapply getitem_is_Some.
  - intros E. unfold star_step in Hstar. by rewrite E in Hstar.
Qed.

(** X2.  On a dataset of fewer than [2^53] rows [process_flavor] returns
    a summary exactly when every row carries the [year], [city] and
    [state] columns and no rating reads as an infinity; empty or
    unparsable fields and absent [stars_x], [categories] or [name]
    columns never make it raise. *)
Theorem process_flavor_returns_iff rows :
  Z.of_nat (length rows) < 2 ^ 53 →
  (∃ s, process_flavor_rows rows = Ok s) ↔ processable rows.
Proof.
  intros Hlen. split.
  - intros [s Hs]. by eapply process_flavor_rows_processable.
  - intros Hp. by apply process_flavor_rows_returns.
Qed.

Lemma process_flavor_returns_iff_witness :
  (∃ s, process_flavor_rows [row_austin; row_unparsable] = Ok s) ↔
  processable [row_austin; row_unparsable].
Proof.
  apply (process_flavor_returns_iff [row_austin; row_unparsable]).
  vm_compute. reflexivity.
Defined.

(** ** The order of the rows *)

Lemma rows_counted_perm {K} `{EqDecision K} (key : Row → option K) k rows rows' :
  rows ≡ₚ rows' → rows_counted key k rows = rows_counted key k rows'.
Proof. intros H. unfold rows_counted. by rewrite H. Qed.

Lemma bucket_size_perm s rows rows' :
  rows ≡ₚ rows' → bucket_size s rows = bucket_size s rows'.
Proof. intros H. unfold bucket_size. by rewrite H. Qed.

Lemma processable_perm rows rows' :
  rows ≡ₚ rows' → processable rows → processable rows'.
Proof. intros H Hp r Hr. apply Hp. by rewrite H. Qed.

(** Two lists in strictly ascending order of their keys with the same
    entries are the same list. *)
Lemma ascending_ext (l1 l2 : list (string * Z)) :
  (∀ i j a b, (i < j)%nat → l1 !! i = Some a → l1 !! j = Some b →
     String.ltb a.1 b.1 = true) →
  (∀ i j a b, (i < j)%nat → l2 !! i = Some a → l2 !! j = Some b →
     String.ltb a.1 b.1 = true) →
  (∀ x, x ∈ l1 ↔ x ∈ l2) → l1 = l2.
Proof.
  apply (sorted_ext (λ a b : string * Z, String.ltb a.1 b.1 = true)).
  intros a b H1 H2. pose proof (string_ltb_asym _ _ H1). congruence.
Qed.

Lemma year_trends_unique rows rows' out out' :
  rows ≡ₚ rows' → year_trends_of rows out → year_trends_of rows' out' → out = out'.
Proof.
  intros Hp [H1 E1] [H2 E2]. apply ascending_ext; [done..|].
  intros [y c]. rewrite E1, E2. by rewrite (rows_counted_perm _ _ _ _ Hp).
Qed.

(** X3.  The total, the yearly trends and the star distribution do not
    depend on the order of the rows: a dataset of fewer than [2^53] rows
    that is summarized is summarized in every order of its rows, with
    these three fragments unchanged. *)
Theorem order_insensitive_fragments rows rows' s :
  rows ≡ₚ rows' → Z.of_nat (length rows) < 2 ^ 53 →
  process_flavor_rows rows = Ok s →
  ∃ s', process_flavor_rows rows' = Ok s' ∧
        totalReviews s' = totalReviews s ∧
        yearTrends s' = yearTrends s ∧
        starDistribution s' = starDistribution s.
Proof.
  intros Hp Hlen Hs.
  destruct (process_flavor_rows_returns rows') as [s' Hs'].
  { eapply processable_perm; [done|]. by eapply process_flavor_rows_processable. }
  { by rewrite <- Hp. }
  exists s'. split; [done|].
  pose proof Hs as (ys & cs & ss & sc & bz & tb & Hys & _ & _ & Hsc & _ & _ & ->)%process_flavor_rows_Ok.
  pose proof Hs' as (ys' & cs' & ss' & sc' & bz' & tb' & Hys' & _ & _ & Hsc' & _ & _ & ->)%process_flavor_rows_Ok.
  cbn [totalReviews yearTrends starDistribution]. split; [by rewrite Hp|]. split.
  - symmetry. eapply year_trends_unique; [done|by apply year_trends_spec..].
  - destruct (star_distribution_spec _ _ Hsc) as [-> _].
    destruct (star_distribution_spec _ _ Hsc') as [-> _].
    by rewrite !(bucket_size_perm _ _ _ Hp).
Qed.

Lemma order_insensitive_fragments_witness :
  ∃ s', process_flavor_rows [row_unparsable; row_austin] = Ok s' ∧
        totalReviews s' = totalReviews summary_austin ∧
        yearTrends s' = yearTrends summary_austin ∧
        starDistribution s' = starDistribution summary_austin.
Proof.
  apply (order_insensitive_fragments [row_austin; row_unparsable]
           [row_unparsable; row_austin] summary_austin).
  - apply Permutation_swap.
  - vm_compute. reflexivity.
  - vm_compute. reflexivity.
Defined.

(** ** The counts add up to at most the total *)

Lemma occurrences_filter_ne {K} `{EqDecision K} (k k' : K) ks :
  k' ≠ k → occurrences k' (filter (λ x, x ≠ k) ks) = occurrences k' ks.
Proof.
  intros Hne. induction ks as [|x ks IH]; [done|].
  rewrite filter_cons. destruct (decide (x ≠ k)) as [Hx|Hx]; cbn [occurrences].
  - by rewrite IH.
  - apply dec_stable in Hx as ->. rewrite IH. by rewrite decide_False.
Qed.

Lemma length_occurrences {K} `{EqDecision K} (k : K) ks :
  Z.of_nat (length ks) =
    occurrences k ks + Z.of_nat (length (filter (λ x, x ≠ k) ks)).
Proof.
  induction ks as [|x ks IH]; [done|].
  rewrite filter_cons. cbn [occurrences]. rewrite length_cons.
  destruct (decide (x = k)) as [->|Hne].
  - rewrite decide_False by naive_solver. lia.
  - rewrite decide_True by done. rewrite length_cons. lia.
Qed.

(** Entries with distinct keys, each with the number of occurrences of its
    key in a stream, add up to at most the length of the stream, and to
    the length when every key of the stream has an entry. *)
Lemma sum_counts_le {K} `{EqDecision K} (out : list (K * Z)) ks :
  NoDup out.*1 → (∀ k c, (k, c) ∈ out → c = occurrences k ks) →
  sum_counts out ≤ Z.of_nat (length ks) ∧
  ((∀ k, k ∈ ks → k ∈ out.*1) → sum_counts out = Z.of_nat (length ks)).
Proof.
  revert ks. induction out as [|[k c] out IH]; intros ks Hnd Hc.
  - split; [simpl; lia|]. intros Hall. destruct ks as [|k ks]; [done|].
    specialize (Hall k). set_solver.
  - rewrite fmap_cons in Hnd. apply NoDup_cons in Hnd as [Hk Hnd].
    destruct (IH (filter (λ x, x ≠ k) ks) Hnd) as [Hle Heq].
    { intros k' c' Hin. rewrite occurrences_filter_ne; [apply Hc; set_solver|].
      intros ->. apply Hk. apply list_elem_of_fmap. by exists (k, c'). }
    cbn [sum_counts foldr snd]. fold (sum_counts out).
    rewrite (Hc k c) by set_solver. rewrite (length_occurrences k ks).
    split; [lia|]. intros Hall. rewrite Heq; [done|].
    intros k' [Hne Hk']%list_elem_of_filter.
    specialize (Hall k' Hk'). set_solver.
Qed.

Lemma length_omap_filter {K} (key : Row → option K) rows :
  length (omap key rows) = length (filter (λ r, is_Some (key r)) rows).
Proof.
  induction rows as [|r rows IH]; [done|].
  rewrite filter_cons. cbn [omap list_omap]. fold (omap key rows).
  destruct (key r) as [k|].
  - rewrite decide_True by by eexists. by rewrite !length_cons, IH.
  - rewrite decide_False by by inversion 1. done.
Qed.

Lemma occurrences_biz_name nm rows :
  occurrences nm (biz_name <$> rows) = Z.of_nat (length (rows_of nm rows)).
Proof.
  unfold rows_of. induction rows as [|r rows IH]; [done|].
  rewrite fmap_cons, filter_cons. cbn [occurrences]. rewrite IH.
  destruct (decide (biz_name r = nm)); [rewrite length_cons|]; lia.
Qed.

Lemma fmap_fst_pair {A B} (g : A → B) (l : list A) :
  ((λ x, (x, g x)) <$> l).*1 = l.
Proof. induction l as [|x l IH]; [done|]. rewrite !fmap_cons, IH. done. Qed.

Lemma sum_reviews_counts bs :
  sum_reviews bs = sum_counts ((λ b, (name b, reviews b)) <$> bs).
Proof.
  unfold sum_reviews, sum_counts. induction bs as [|b bs IH]; [done|].
  rewrite fmap_cons. cbn [foldr snd]. by rewrite IH.
Qed.

(** X4.  In every summary the yearly counts add up to the number of rows
    whose year is not empty, and the counts of the yearly trends, of the
    top cities, of the top states and of the star distribution, and the
    review counts of the top businesses, each add up to at most
    [totalReviews]. *)
Theorem counts_within_total rows s :
  process_flavor_rows rows = Ok s →
  sum_counts (yearTrends s)
    = Z.of_nat (length (filter (λ r, is_Some (year_key r)) rows)) ∧
  sum_counts (yearTrends s) ≤ totalReviews s ∧
  sum_counts (topCities s) ≤ totalReviews s ∧
  sum_counts (topStates s) ≤ totalReviews s ∧
  sum_counts (starDistribution s) ≤ totalReviews s ∧
  sum_reviews (topBusinesses s) ≤ totalReviews s.
Proof.
  intros (ys & cs & ss & sc & bz & tb & Hys & Hcs & Hss & Hsc & Hbz & Htb & ->)%process_flavor_rows_Ok.
  cbn [yearTrends topCities topStates starDistribution topBusinesses totalReviews].
  apply (generate_keys _ year_key) in Hys as ->; [|apply year_of_key].
  apply (generate_keys _ city_key) in Hcs as ->; [|apply city_of_key].
  apply (generate_keys _ state_key) in Hss as ->; [|apply state_of_key].
  pose proof (length_omap_le year_key rows).
  pose proof (length_omap_le city_key rows).
  pose proof (length_omap_le state_key rows).
  assert (sum_counts
            ((λ y, (y, default 0 (get y (Counter (omap year_key rows))))) <$>
               sorted String.ltb id (keys (Counter (omap year_key rows))))
          = Z.of_nat (length (omap year_key rows))) as Hy.
  { apply sum_counts_le.
    - rewrite fmap_fst_pair, sorted_perm. apply Counter_keys_NoDup.
    - intros k c (y & [= -> ->] & Hin)%list_elem_of_fmap. rewrite sorted_perm in Hin.
      apply (proj1 (Counter_keys_elem_of _ _)) in Hin.
      by rewrite Counter_get, decide_True.
    - intros k Hk. apply list_elem_of_fmap. eexists (k, _). split; [done|].
      apply list_elem_of_fmap. exists k. split; [done|].
      rewrite sorted_perm. by apply Counter_keys_elem_of. }
  rewrite Hy, <- length_omap_filter. split; [done|]. split; [lia|].
  split; [|split; [|split]].
  - destruct (most_common_ranking 10 (omap city_key rows)) as [_ Hnd Hc _ _ _].
    destruct (sum_counts_le _ (omap city_key rows) Hnd) as [Hle _]; [|lia].
    intros k c Hin. by destruct (Hc k c Hin) as (_ & -> & _).
  - destruct (most_common_ranking 10 (omap state_key rows)) as [_ Hnd Hc _ _ _].
    destruct (sum_counts_le _ (omap state_key rows) Hnd) as [Hle _]; [|lia].
    intros k c Hin. by destruct (Hc k c Hin) as (_ & -> & _).
  - destruct (star_distribution_spec _ _ Hsc) as [-> Hle]. simpl. lia.
  - destruct (top_businesses_spec rows bz tb (biz_reviews_invariant _ _ Hbz) Htb)
      as [_ Hnd Hbiz _ _].
    rewrite sum_reviews_counts.
    destruct (sum_counts_le ((λ b, (name b, reviews b)) <$> tb) (biz_name <$> rows))
      as [Hle _].
    + by rewrite <- list_fmap_compose.
    + intros k c (b & [= -> ->] & Hb)%list_elem_of_fmap.
      rewrite occurrences_biz_name. by destruct (Hbiz b Hb).
    + by rewrite length_fmap in Hle.
Qed.

Lemma counts_within_total_witness :
  sum_counts (yearTrends summary_austin)
    = Z.of_nat (length (filter (λ r, is_Some (year_key r))
                          [row_austin; row_unparsable])) ∧
  sum_counts (yearTrends summary_austin) ≤ totalReviews summary_austin ∧
  sum_counts (topCities summary_austin) ≤ totalReviews summary_austin ∧
  sum_counts (topStates summary_austin) ≤ totalReviews summary_austin ∧
  sum_counts (starDistribution summary_austin) ≤ totalReviews summary_austin ∧
  sum_reviews (topBusinesses summary_austin) ≤ totalReviews summary_austin.
Proof.
  apply (counts_within_total [row_austin; row_unparsable] summary_austin).
  vm_compute. reflexivity.
Defined.

(** ** The current-year report *)

Lemma for_each_returns {A St} (xs : list A) (body : A → St → result St) s :
  (∀ x s, x ∈ xs → ∃ s', body x s = Ok s') → ∃ s', for_each xs body s = Ok s'.
Proof.
  revert s. induction xs as [|x xs IH]; intros s H; simpl; [by eexists|].
  destruct (H x s) as [s1 ->]; [set_solver|]. simpl.
  apply IH. intros y s' Hy. apply H. set_solver.
Qed.

Lemma rated_step_ineligible r acc :
  is_eligible r = false → rated_step r acc = Ok acc.
Proof.
  unfold is_eligible, rated_step.
  destruct (rated_fields r) as [[x n]|e] eqn:E.
  - by intros ->.
  - intros _. by rewrite (rated_fields_Raise _ _ E).
Qed.

Lemma rated_step_returns r acc :
  is_Some (r !! "city") → is_Some (r !! "state") →
  (is_eligible r = true → is_Some (r !! "name")) →
  ∃ acc', rated_step r acc = Ok acc'.
Proof.
  intros [c Hc] [s Hs] Hname.
  destruct (is_eligible r) eqn:E; [|rewrite rated_step_ineligible; eauto].
  destruct Hname as [nm Hnm]; [done|].
  unfold is_eligible in E. unfold rated_step, getitem.
  destruct (rated_fields r) as [[x n]|e]; [|done].
  rewrite E, Hnm, Hc, Hs. by eexists.
Qed.

Lemma process_2025_businesses_rows_Ok rows b :
  process_2025_businesses_rows rows = Ok b →
  ∃ cs ss tr,
    generate city_of_2025 rows = Ok cs ∧ generate state_of rows = Ok ss ∧
    top_rated_of rows = Ok tr ∧
    b = mkBusinesses2025 (Z.of_nat (length rows)) (most_common 10 (Counter cs))
          (most_common 10 (Counter ss)) tr.
Proof.
  unfold process_2025_businesses_rows.
  intros (cs & Hcs & (ss & Hss & (tr & Htr & [= <-])%bind_Ok)%bind_Ok)%bind_Ok.
  by exists cs, ss, tr.
Qed.

Lemma process_2025_businesses_rows_returns rows :
  processable_2025 rows → ∃ b, process_2025_businesses_rows rows = Ok b.
Proof.
  intros Hp. unfold process_2025_businesses_rows.
  destruct (generate_Ok city_of_2025 rows) as [cs ->].
  { intros r Hr. destruct (Hp r Hr) as ([c Hc] & [s Hs] & _).
    unfold city_of_2025, getitem. rewrite Hc, Hs. simpl.
    destruct (truthy c); by eexists. }
  destruct (generate_Ok state_of rows) as [ss ->].
  { intros r Hr. destruct (Hp r Hr) as (_ & [s Hs] & _).
    unfold state_of, getitem. rewrite Hs. by eexists. }
  unfold top_rated_of.
  destruct (for_each_returns rows rated_step []) as [l ->]; [|by eexists].
  intros r acc Hr. destruct (Hp r Hr) as (? & ? & ?). by apply rated_step_returns.
Qed.

Lemma process_2025_businesses_rows_processable rows b :
  process_2025_businesses_rows rows = Ok b → processable_2025 rows.
Proof.
  intros (cs & ss & tr & Hcs & Hss & Htr & _)%process_2025_businesses_rows_Ok r Hr.
  destruct (generate_each_Ok _ _ _ r Hcs Hr) as [ks Hc].
  destruct (generate_each_Ok _ _ _ r Hss Hr) as [ks' Hs].
  unfold top_rated_of in Htr. apply bind_Ok in Htr as (l & Hl & _).
  destruct (for_each_each_Ok _ _ _ _ r Hl Hr) as (a1 & a2 & Hstep).
  split; [|split].
  - unfold city_of_2025 in Hc. apply bind_Ok in Hc as (c & Hc & _).
    by eapply getitem_is_Some.
  - unfold state_of in Hs. apply bind_Ok in Hs as (s & Hs & _).
    by eapply getitem_is_Some.
  - intros He. destruct (rated_step_Ok _ _ _ Hstep) as [[? _]|(_ & e & [_ _ Hn _ _] & _)];
      [congruence|by eexists].
Qed.

Lemma process_2025_businesses_rows_Raise rows e :
  process_2025_businesses_rows rows = Raise e →
  ∃ k, k ∈ ["city"; "state"; "name"] ∧ e = KeyError k ∧
       ∃ r, r ∈ rows ∧ r !! k = None.
Proof.
  unfold process_2025_businesses_rows.
  destruct (generate city_of_2025 rows) as [cs|e1] eqn:E1; simpl.
  2: { intros [= <-]. apply generate_Raise in E1 as (r & Hr & Hf).
       unfold city_of_2025 in Hf. destruct (getitem r "city") as [c|] eqn:G.
       - simpl in Hf. destruct (truthy c); [|done].
         destruct (getitem r "state") eqn:G'; [done|].
         injection Hf as ->. apply getitem_Raise in G' as [-> ?].
         exists "state". split; [set_solver|eauto].
       - injection Hf as ->. apply getitem_Raise in G as [-> ?].
         exists "city". split; [set_solver|eauto]. }
  destruct (generate state_of rows) as [ss|e2] eqn:E2; simpl.
  2: { intros [= <-]. apply generate_Raise in E2 as (r & Hr & Hf).
       unfold state_of in Hf. destruct (getitem r "state") eqn:G; [done|].
       injection Hf as ->. apply getitem_Raise in G as [-> ?].
       exists "state". split; [set_solver|eauto]. }
  unfold top_rated_of.
  destruct (for_each rows rated_step []) as [l|e3] eqn:E3; simpl; [done|].
  intros [= <-]. apply for_each_Raise in E3 as (r & acc & Hr & Hf).
  unfold rated_step in Hf. destruct (rated_fields r) as [[x n]|e'] eqn:F.
  2: { by rewrite (rated_fields_Raise _ _ F) in Hf. }
  destruct (10 <=? n); [|done].
  destruct (getitem r "name") as [nm|] eqn:G1; simpl in Hf.
  2: { injection Hf as ->. apply getitem_Raise in G1 as [-> ?].
       exists "name". split; [set_solver|eauto]. }
  destruct (getitem r "city") as [c|] eqn:G2; simpl in Hf.
  2: { injection Hf as ->. apply getitem_Raise in G2 as [-> ?].
       exists "city". split; [set_solver|eauto]. }
  destruct (getitem r "state") as [st|] eqn:G3; simpl in Hf; [done|].
  injection Hf as ->. apply getitem_Raise in G3 as [-> ?].
  exists "state". split; [set_solver|eauto].
Qed.

(** X5.  [process_2025_businesses] returns a report exactly when every
    row carries the [city] and [state] columns and every row that passes
    the filter of the top-rated selection carries the [name] column; a
    rating or review count that is absent or does not parse never makes
    it raise.  The [total] of a report is the number of rows, and the
    exception of a table it does not get through is the [KeyError] of a
    column that some row lacks. *)
Theorem process_2025_businesses_returns_iff rows :
  ((∃ b, process_2025_businesses_rows rows = Ok b) ↔ processable_2025 rows) ∧
  (∀ b, process_2025_businesses_rows rows = Ok b →
        total b = Z.of_nat (length rows)) ∧
  (∀ e, process_2025_businesses_rows rows = Raise e →
        ∃ k, k ∈ ["city"; "state"; "name"] ∧ e = KeyError k ∧
             ∃ r, r ∈ rows ∧ r !! k = None).
Proof.
  split; [split|split].
  - intros [b Hb]. by eapply process_2025_businesses_rows_processable.
  - apply process_2025_businesses_rows_returns.
  - by intros b (cs & ss & tr & _ & _ & _ & ->)%process_2025_businesses_rows_Ok.
  - apply process_2025_businesses_rows_Raise.
Qed.

(** X6.  In every report of [process_2025_businesses] the top cities and
    the top states are rankings with limit 10 of the keys of the rows.  A
    row counts for its city as soon as its [city] text is not empty: with
    an empty state it counts for the key that ends in the separator,
    whereas [process_flavor] leaves such a row out of its cities. *)
Theorem rank_fragments_2025 rows b :
  process_2025_businesses_rows rows = Ok b →
  ranking 10 (omap city_key_2025 rows) (topCities2025 b) ∧
  ranking 10 (omap state_key rows) (topStates2025 b) ∧
  (∀ k c, (k, c) ∈ topCities2025 b → c = rows_counted city_key_2025 k rows) ∧
  (∀ k c, (k, c) ∈ topStates2025 b → c = rows_counted state_key k rows).
Proof.
  intros (cs & ss & tr & Hcs & Hss & _ & ->)%process_2025_businesses_rows_Ok.
  apply (generate_keys _ city_key_2025) in Hcs as ->; [|apply city_of_2025_key].
  apply (generate_keys _ state_key) in Hss as ->; [|apply state_of_key].
  cbn [topCities2025 topStates2025].
  pose proof (most_common_ranking 10 (omap city_key_2025 rows)) as Hc.
  pose proof (most_common_ranking 10 (omap state_key rows)) as Hs.
  split; [done|]. split; [done|]. split.
  - intros k c Hin. rewrite <- occurrences_omap. by destruct (rk_count _ _ _ Hc k c Hin) as (_ & -> & _).
  - intros k c Hin. rewrite <- occurrences_omap. by destruct (rk_count _ _ _ Hs k c Hin) as (_ & -> & _).
Qed.

Lemma rank_fragments_2025_witness :
  ranking 10 (omap city_key_2025 [row_stateless]) (topCities2025 businesses_stateless) ∧
  ranking 10 (omap state_key [row_stateless]) (topStates2025 businesses_stateless) ∧
  (∀ k c, (k, c) ∈ topCities2025 businesses_stateless →
          c = rows_counted city_key_2025 k [row_stateless]) ∧
  (∀ k c, (k, c) ∈ topStates2025 businesses_stateless →
          c = rows_counted state_key k [row_stateless]).
Proof.
  apply (rank_fragments_2025 [row_stateless] businesses_stateless).
  vm_compute. reflexivity.
Defined.

(** X7.  The top-rated selection depends only on the rows that pass its
    filter: the rows whose rating or review count is absent or does not
    parse, or whose review count is below 10, can be removed from the
    table without changing the outcome, whatever other columns they
    lack. *)
Theorem top_rated_ignores_filtered rows :
  top_rated_of rows = top_rated_of (filter (λ r, is_eligible r = true) rows).
Proof.
  unfold top_rated_of. f_equal. generalize (@nil Rated) as acc.
  induction rows as [|r rows IH]; intros acc; [done|].
  rewrite filter_cons. destruct (decide (is_eligible r = true)) as [He|He].
  - simpl. destruct (rated_step r acc); simpl; [apply IH|done].
  - simpl. rewrite rated_step_ineligible by by destruct (is_eligible r).
    simpl. apply IH.
Qed.

(** ** The comparison tables *)

Lemma getitem_Ok (r : Row) k v : getitem r k = Ok v ↔ r !! k = Some v.
Proof. unfold getitem. destruct (r !! k); naive_solver. Qed.

Lemma int_column_Ok r k n :
  bind (getitem r k) int_of_str = Ok n ↔ int_column r k n.
Proof.
  unfold int_column, getitem. destruct (r !! k) as [v|]; simpl; naive_solver.
Qed.

Lemma float_column_Ok r k x :
  bind (getitem r k) float_of_str = Ok x ↔ float_column r k x.
Proof.
  unfold float_column, getitem. destruct (r !! k) as [v|]; simpl; naive_solver.
Qed.

Lemma comparison_row_Ok r c : comparison_row r = Ok c ↔ comparison_of r c.
Proof.
  unfold comparison_row. split.
  - intros (f & Hf%getitem_Ok & (tm & Htm%int_column_Ok & (ub & Hub%int_column_Ok &
      (ci & Hci%int_column_Ok & (ar & Har%float_column_Ok & [= <-])%bind_Ok)%bind_Ok)
      %bind_Ok)%bind_Ok)%bind_Ok.
    by split.
  - intros [Hf%getitem_Ok Htm%int_column_Ok Hub%int_column_Ok Hci%int_column_Ok
      Har%float_column_Ok].
    rewrite Hf, Htm, Hub, Hci, Har. simpl. by destruct c.
Qed.

Lemma city_comparison_row_Ok r c :
  city_comparison_row r = Ok c ↔ city_comparison_of r c.
Proof.
  unfold city_comparison_row. split.
  - intros (f & Hf%getitem_Ok & (ci & Hci%getitem_Ok &
      (n & Hn%int_column_Ok & [= <-])%bind_Ok)%bind_Ok)%bind_Ok.
    by split.
  - intros [Hf%getitem_Ok Hci%getitem_Ok Hn%int_column_Ok].
    rewrite Hf, Hci, Hn. simpl. by destruct c.
Qed.

(** X8.  [process_comparison_summary] and [process_2025_comparison]
    return exactly the records of the rows, one per row and in the order
    of the rows: the text columns as they are, the numeric columns
    coerced. *)
Theorem comparison_records rows :
  (∀ out, process_comparison_summary_rows rows = Ok out ↔
          Forall2 comparison_of rows out) ∧
  (∀ out, process_2025_comparison_rows rows = Ok out ↔
          Forall2 city_comparison_of rows out).
Proof.
  split; intros out.
  - unfold process_comparison_summary_rows. rewrite map_result_Ok.
    split; intros H; (eapply Forall2_impl; [exact H|]); intros r c;
      apply comparison_row_Ok.
  - unfold process_2025_comparison_rows. rewrite map_result_Ok.
    split; intros H; (eapply Forall2_impl; [exact H|]); intros r c;
      apply city_comparison_row_Ok.
Qed.

(** A comprehension raises the exception of its first element that
    raises. *)
Lemma map_result_Raise_first {A B} (f : A → result B) xs e :
  map_result f xs = Raise e →
  ∃ pre x post, xs = pre ++ x :: post ∧ (∀ p, p ∈ pre → ∃ y, f p = Ok y) ∧
                f x = Raise e.
Proof.
  induction xs as [|x xs IH]; simpl; [done|].
  destruct (f x) as [y|e'] eqn:E; simpl.
  - destruct (map_result f xs) as [ys|e'']; simpl; [done|].
    intros [= ->]. destruct IH as (pre & x' & post & -> & Hpre & Hx); [done|].
    exists (x :: pre), x', post. split; [done|]. split; [|done].
    intros p [->|Hp]%elem_of_cons; eauto.
  - intros [= ->]. exists [], x, xs. split; [done|]. split; [|done].
    by intros p ?%elem_of_nil.
Qed.

Lemma column_Raise {A} (r : Row) k (coerce : string → result A) e :
  (∀ v e, coerce v = Raise e → e = ValueError) →
  bind (getitem r k) coerce = Raise e →
  e = ValueError ∨ r !! k = None ∧ e = KeyError k.
Proof.
  intros Hco. unfold getitem. destruct (r !! k) as [v|]; simpl.
  - intros ->%Hco. by left.
  - intros [= <-]. by right.
Qed.

Lemma comparison_row_Raise r e :
  comparison_row r = Raise e →
  e = ValueError ∨ ∃ k, k ∈ comparison_columns ∧ r !! k = None ∧ e = KeyError k.
Proof.
  unfold comparison_row, comparison_columns.
  destruct (getitem r "Flavor") as [f|e0] eqn:E0; simpl.
  2: { intros [= <-]. unfold getitem in E0. destruct (r !! "Flavor") eqn:E; [done|].
       injection E0 as <-. right. exists "Flavor". set_solver. }
  destruct (bind (getitem r "Total Mentions") int_of_str) as [tm|e1] eqn:E1; simpl.
  2: { intros [= <-]. apply column_Raise in E1 as [->|[? ->]]; [by left| |apply int_of_str_Raise].
       right. exists "Total Mentions". set_solver. }
  destruct (bind (getitem r "Unique Businesses") int_of_str) as [ub|e2] eqn:E2; simpl.
  2: { intros [= <-]. apply column_Raise in E2 as [->|[? ->]]; [by left| |apply int_of_str_Raise].
       right. exists "Unique Businesses". set_solver. }
  destruct (bind (getitem r "Cities") int_of_str) as [ci|e3] eqn:E3; simpl.
  2: { intros [= <-]. apply column_Raise in E3 as [->|[? ->]]; [by left| |apply int_of_str_Raise].
       right. exists "Cities". set_solver. }
  destruct (bind (getitem r "Avg Review Rating") float_of_str) as [ar|e4] eqn:E4; simpl.
  2: { intros [= <-]. apply column_Raise in E4 as [->|[? ->]]; [by left| |apply float_of_str_Raise].
       right. exists "Avg Review Rating". set_solver. }
  done.
Qed.

Lemma city_comparison_row_Raise r e :
  city_comparison_row r = Raise e →
  e = ValueError ∨
  ∃ k, k ∈ city_comparison_columns ∧ r !! k = None ∧ e = KeyError k.
Proof.
  unfold city_comparison_row, city_comparison_columns.
  destruct (getitem r "flavor") as [f|e0] eqn:E0; simpl.
  2: { intros [= <-]. unfold getitem in E0. destruct (r !! "flavor") eqn:E; [done|].
       injection E0 as <-. right. exists "flavor". set_solver. }
  destruct (getitem r "city") as [c|e1] eqn:E1; simpl.
  2: { intros [= <-]. unfold getitem in E1. destruct (r !! "city") eqn:E; [done|].
       injection E1 as <-. right. exists "city". set_solver. }
  destruct (bind (getitem r "business_count") int_of_str) as [n|e2] eqn:E2; simpl.
  2: { intros [= <-]. apply column_Raise in E2 as [->|[? ->]]; [by left| |apply int_of_str_Raise].
       right. exists "business_count". set_solver. }
  done.
Qed.

(** X9.  When a comparison processor raises, it raises at the first row
    that has no record, all rows before it having one, and the exception
    is [ValueError] for a numeric column that does not coerce or the
    [KeyError] of a column that the row lacks. *)
Theorem comparison_errors rows e :
  (process_comparison_summary_rows rows = Raise e →
     fails_at_first comparison_of comparison_columns rows e) ∧
  (process_2025_comparison_rows rows = Raise e →
     fails_at_first city_comparison_of city_comparison_columns rows e).
Proof.
  split.
  - intros (pre & r & post & -> & Hpre & Hr)%map_result_Raise_first.
    exists pre, r, post. split; [done|]. split; [|split].
    + intros p [c Hc%comparison_row_Ok]%Hpre. by exists c.
    + intros c Hc%comparison_row_Ok. congruence.
    + by apply comparison_row_Raise.
  - intros (pre & r & post & -> & Hpre & Hr)%map_result_Raise_first.
    exists pre, r, post. split; [done|]. split; [|split].
    + intros p [c Hc%city_comparison_row_Ok]%Hpre. by exists c.
    + intros c Hc%city_comparison_row_Ok. congruence.
    + by apply city_comparison_row_Raise.
Qed.

Lemma comparison_errors_witness :
  fails_at_first comparison_of comparison_columns
    [comparison_row_good; comparison_row_bad] ValueError ∧
  fails_at_first city_comparison_of city_comparison_columns
    [city_comparison_row_bad] ValueError.
Proof.
  split.
  - apply (comparison_errors [comparison_row_good; comparison_row_bad] ValueError).
    vm_compute. reflexivity.
  - apply (comparison_errors [city_comparison_row_bad] ValueError).
    vm_compute. reflexivity.
Defined.

(** ** Runs of [main] *)

Lemma process_flavor_rows_total rows s :
  process_flavor_rows rows = Ok s → totalReviews s = Z.of_nat (length rows).
Proof.
  by intros (ys & cs & ss & sc & bz & tb & _ & _ & _ & _ & _ & _ & ->)%process_flavor_rows_Ok.
Qed.

Lemma process_2025_businesses_rows_total rows b :
  process_2025_businesses_rows rows = Ok b → total b = Z.of_nat (length rows).
Proof. by intros (cs & ss & tr & _ & _ & _ & ->)%process_2025_businesses_rows_Ok. Qed.


Section Runs.
Variable DictReader : string → list Row.
Variable dumps : json → string.

Ltac run_main :=
  unfold main, process_flavor, process_comparison_summary, process_2025_comparison,
    process_2025_businesses, read_csv, print, write_file, lift,
    mbind, IO_bind, bindIO; cbn [files stdout].

(** A run that returns went through the six processors, printed the
    progress lines and the closing lines, and wrote the output file. *)
Lemma main_Ok w :
  (main DictReader dumps w).1 = Ok tt →
  ∃ s1 s2 s3 c4 c5 b6,
    processed DictReader w s1 s2 s3 c4 c5 b6 ∧
    (main DictReader dumps w).2 =
      mkWorld (<[OUTPUT := output_text (dumps (data_of s1 s2 s3 c4 c5 b6))]> (files w))
        (stdout w ++ progress_lines ++
           report_lines (totalReviews s1) (totalReviews s2) (totalReviews s3) (total b6)).
Proof.
  run_main.
  destruct (files w !! "black_sesame_analysis.csv") as [t1|] eqn:F1; [|done].
  destruct (process_flavor_rows (DictReader t1)) as [s1|] eqn:P1; [|done].
  cbn [files stdout].
  destruct (files w !! "matcha_analysis.csv") as [t2|] eqn:F2; [|done].
  destruct (process_flavor_rows (DictReader t2)) as [s2|] eqn:P2; [|done].
  cbn [files stdout].
  destruct (files w !! "ube_analysis.csv") as [t3|] eqn:F3; [|done].
  destruct (process_flavor_rows (DictReader t3)) as [s3|] eqn:P3; [|done].
  cbn [files stdout].
  destruct (files w !! "flavor_comparison_summary.csv") as [t4|] eqn:F4; [|done].
  destruct (process_comparison_summary_rows (DictReader t4)) as [c4|] eqn:P4; [|done].
  cbn [files stdout].
  destruct (files w !! "asian_flavors_comparison_2025.csv") as [t5|] eqn:F5; [|done].
  destruct (process_2025_comparison_rows (DictReader t5)) as [c5|] eqn:P5; [|done].
  cbn [files stdout].
  destruct (files w !! "black_sesame_businesses_2025.csv") as [t6|] eqn:F6; [|done].
  destruct (process_2025_businesses_rows (DictReader t6)) as [b6|] eqn:P6; [|done].
  cbn [files stdout fst snd]. intros _.
  exists s1, s2, s3, c4, c5, b6. split; [split; eauto|].
  f_equal. unfold progress_lines, report_lines.
  by rewrite <- !app_assoc.
Qed.

Lemma main_run w s1 s2 s3 c4 c5 b6 :
  processed DictReader w s1 s2 s3 c4 c5 b6 →
  main DictReader dumps w =
    (Ok tt,
     mkWorld (<[OUTPUT := output_text (dumps (data_of s1 s2 s3 c4 c5 b6))]> (files w))
       (stdout w ++ progress_lines ++
          report_lines (totalReviews s1) (totalReviews s2) (totalReviews s3) (total b6))).
Proof.
  intros [(t1 & F1 & P1) (t2 & F2 & P2) (t3 & F3 & P3) (t4 & F4 & P4)
    (t5 & F5 & P5) (t6 & F6 & P6)].
  run_main. rewrite F1, P1. cbn [files stdout]. rewrite F2, P2. cbn [files stdout].
  rewrite F3, P3. cbn [files stdout]. rewrite F4, P4. cbn [files stdout].
  rewrite F5, P5. cbn [files stdout]. rewrite F6, P6. cbn [files stdout].
  f_equal. f_equal. unfold progress_lines, report_lines. by rewrite <- !app_assoc.
Qed.

(** A run that raises has printed the progress lines up to the step that
    failed and has left the files as they were. *)
Lemma main_Raise w e :
  (main DictReader dumps w).1 = Raise e →
  files (main DictReader dumps w).2 = files w ∧
  ∃ n, (1 ≤ n ≤ 6)%nat ∧
       stdout (main DictReader dumps w).2 = stdout w ++ take n progress_lines.
Proof.
  run_main.
  destruct (files w !! "black_sesame_analysis.csv") as [t1|] eqn:F1;
    [|intros _; split; [done|]; exists 1%nat; split; [lia|done]].
  destruct (process_flavor_rows (DictReader t1)) as [s1|] eqn:P1;
    [|intros _; split; [done|]; exists 1%nat; split; [lia|done]].
  cbn [files stdout].
  destruct (files w !! "matcha_analysis.csv") as [t2|] eqn:F2;
    [|intros _; split; [done|]; exists 2%nat; split; [lia|by rewrite <- !app_assoc]].
  destruct (process_flavor_rows (DictReader t2)) as [s2|] eqn:P2;
    [|intros _; split; [done|]; exists 2%nat; split; [lia|by rewrite <- !app_assoc]].
  cbn [files stdout].
  destruct (files w !! "ube_analysis.csv") as [t3|] eqn:F3;
    [|intros _; split; [done|]; exists 3%nat; split; [lia|by rewrite <- !app_assoc]].
  destruct (process_flavor_rows (DictReader t3)) as [s3|] eqn:P3;
    [|intros _; split; [done|]; exists 3%nat; split; [lia|by rewrite <- !app_assoc]].
  cbn [files stdout].
  destruct (files w !! "flavor_comparison_summary.csv") as [t4|] eqn:F4;
    [|intros _; split; [done|]; exists 4%nat; split; [lia|by rewrite <- !app_assoc]].
  destruct (process_comparison_summary_rows (DictReader t4)) as [c4|] eqn:P4;
    [|intros _; split; [done|]; exists 4%nat; split; [lia|by rewrite <- !app_assoc]].
  cbn [files stdout].
  destruct (files w !! "asian_flavors_comparison_2025.csv") as [t5|] eqn:F5;
    [|intros _; split; [done|]; exists 5%nat; split; [lia|by rewrite <- !app_assoc]].
  destruct (process_2025_comparison_rows (DictReader t5)) as [c5|] eqn:P5;
    [|intros _; split; [done|]; exists 5%nat; split; [lia|by rewrite <- !app_assoc]].
  cbn [files stdout].
  destruct (files w !! "black_sesame_businesses_2025.csv") as [t6|] eqn:F6;
    [|intros _; split; [done|]; exists 6%nat; split; [lia|by rewrite <- !app_assoc]].
  destruct (process_2025_businesses_rows (DictReader t6)) as [b6|] eqn:P6;
    [|intros _; split; [done|]; exists 6%nat; split; [lia|by rewrite <- !app_assoc]].
  done.
Qed.

(** X10.  A run of [main] that returns has printed the six progress lines
    and the five closing lines, the closing lines giving the number of
    rows of the three flavor datasets and of the current-year table, and
    has written to the output file the header comment and the
    serialization of the six results as one [const] declaration. *)
Theorem main_report w :
  (main DictReader dumps w).1 = Ok tt →
  stdout (main DictReader dumps w).2 =
    stdout w ++ progress_lines ++
      report_lines (row_count DictReader w "black_sesame_analysis.csv")
        (row_count DictReader w "matcha_analysis.csv")
        (row_count DictReader w "ube_analysis.csv")
        (row_count DictReader w "black_sesame_businesses_2025.csv") ∧
  ∃ s1 s2 s3 c4 c5 b6,
    processed DictReader w s1 s2 s3 c4 c5 b6 ∧
    files (main DictReader dumps w).2 =
      <[OUTPUT := output_text (dumps (data_of s1 s2 s3 c4 c5 b6))]> (files w).
Proof.
  intros (s1 & s2 & s3 & c4 & c5 & b6 & Hp & ->)%main_Ok. cbn [files stdout].
  split; [|by exists s1, s2, s3, c4, c5, b6].
  destruct Hp as [(t1 & F1 & P1) (t2 & F2 & P2) (t3 & F3 & P3) _ _ (t6 & F6 & P6)].
  unfold row_count. rewrite F1, F2, F3, F6.
  by rewrite (process_flavor_rows_total _ _ P1), (process_flavor_rows_total _ _ P2),
    (process_flavor_rows_total _ _ P3), (process_2025_businesses_rows_total _ _ P6).
Qed.

(** X11.  [main] changes no file but the output file, and a run that
    raises changes no file at all: it has printed the progress lines up
    to the step that failed, and an output file of an earlier run is left
    as it was.  The output file is overwritten, not extended, and is not
    read: after a run that returned, a second run returns as well and
    leaves every file as the first run left it. *)
Theorem main_writes_only_output w :
  (∀ f, f ≠ OUTPUT →
        files (main DictReader dumps w).2 !! f = files w !! f) ∧
  (∀ e, (main DictReader dumps w).1 = Raise e →
        files (main DictReader dumps w).2 = files w ∧
        ∃ n, (1 ≤ n ≤ 6)%nat ∧
             stdout (main DictReader dumps w).2 = stdout w ++ take n progress_lines) ∧
  ((main DictReader dumps w).1 = Ok tt →
     (main DictReader dumps (main DictReader dumps w).2).1 = Ok tt ∧
     files (main DictReader dumps (main DictReader dumps w).2).2
       = files (main DictReader dumps w).2).
Proof.
  split; [|split; [apply main_Raise|]].
  - intros f Hf. destruct (main DictReader dumps w).1 as [[]|e] eqn:E.
    + apply main_Ok in E as (s1 & s2 & s3 & c4 & c5 & b6 & _ & ->).
      cbn [files]. by rewrite lookup_insert_ne.
    + by destruct (main_Raise w e E) as [-> _].
  - intros (s1 & s2 & s3 & c4 & c5 & b6 & Hp & ->)%main_Ok.
    rewrite (main_run _ s1 s2 s3 c4 c5 b6).
    + cbn [fst snd files]. split; [done|]. by rewrite insert_insert_eq.
    + destruct Hp as [(t1 & F1 & P1) (t2 & F2 & P2) (t3 & F3 & P3) (t4 & F4 & P4)
        (t5 & F5 & P5) (t6 & F6 & P6)].
      split; [exists t1|exists t2|exists t3|exists t4|exists t5|exists t6];
        (split; [|done]); cbn [files]; by rewrite lookup_insert_ne.
Qed.

End Runs.

Lemma main_report_witness :
  stdout (main sample_reader (λ _, "{}") world_austin).2 =
    stdout world_austin ++ progress_lines ++
      report_lines (row_count sample_reader world_austin "black_sesame_analysis.csv")
        (row_count sample_reader world_austin "matcha_analysis.csv")
        (row_count sample_reader world_austin "ube_analysis.csv")
        (row_count sample_reader world_austin "black_sesame_businesses_2025.csv") ∧
  ∃ s1 s2 s3 c4 c5 b6,
    processed sample_reader world_austin s1 s2 s3 c4 c5 b6 ∧
    files (main sample_reader (λ _, "{}") world_austin).2 =
      <[OUTPUT := output_text ((λ _, "{}") (data_of s1 s2 s3 c4 c5 b6))]>
        (files world_austin).
Proof.
  apply (main_report sample_reader (λ _, "{}") world_austin).
  vm_compute. reflexivity.
Defined.

Lemma main_writes_only_output_witness :
  (files (main sample_reader (λ _, "{}") world_no_matcha).2 = files world_no_matcha ∧
   ∃ n, (1 ≤ n ≤ 6)%nat ∧
        stdout (main sample_reader (λ _, "{}") world_no_matcha).2 =
          stdout world_no_matcha ++ take n progress_lines) ∧
  ((main sample_reader (λ _, "{}")
      (main sample_reader (λ _, "{}") world_austin).2).1 = Ok tt ∧
   files (main sample_reader (λ _, "{}")
            (main sample_reader (λ _, "{}") world_austin).2).2
     = files (main sample_reader (λ _, "{}") world_austin).2).
Proof.
  split.
  - apply (proj1 (proj2 (main_writes_only_output sample_reader (λ _, "{}")
                           world_no_matcha))
             (FileNotFoundError "matcha_analysis.csv")).
    vm_compute. reflexivity.
  - apply (proj2 (proj2 (main_writes_only_output sample_reader (λ _, "{}")
                           world_austin))).
    vm_compute. reflexivity.
Defined.


(** ** The exceptions of the processors *)

(** The division of the rating is guarded: it never divides by zero. *)
Lemma rating_of_Raise a e : rating_of a = Raise e → e = OverflowError.
Proof.
  unfold rating_of, num_truediv.
  destruct (acc_reviews a =? 0); [done|].
  destruct (acc_total_stars a) as [m|x]; simpl.
  - destruct (float_of_ratio _ _ _); simpl; try done. by intros [= <-].
  - destruct (float_of_int (acc_reviews a)) eqn:E; simpl; [done|].
    intros [= <-]. by eapply float_of_int_Raise.
Qed.

Lemma add_stars_Raise r t e : add_stars r t = Raise e → e = OverflowError.
Proof.
  rewrite add_stars_add_rating. unfold add_rating.
  destruct (row_rating r); [apply num_add_Raise|done].
Qed.

(** X13.  When [process_flavor] raises, it raises the [KeyError] of a
    [year], [city] or [state] column that some row lacks, or
    [OverflowError]; it never raises [ValueError] or
    [ZeroDivisionError]: text that does not parse is always handled and
    the division of the rating is guarded. *)
Theorem process_flavor_errors rows e :
  process_flavor_rows rows = Raise e →
  (∃ k, k ∈ ["year"; "city"; "state"] ∧ e = KeyError k ∧
        ∃ r, r ∈ rows ∧ r !! k = None) ∨
  e = OverflowError.
Proof.
  unfold process_flavor_rows.
  destruct (generate year_of rows) as [ys|e1] eqn:E1; simpl.
  2: { intros [= <-]. apply generate_Raise in E1 as (r & Hr & Hf). left.
       unfold year_of in Hf. destruct (getitem r "year") eqn:G; [done|].
       injection Hf as ->. apply getitem_Raise in G as [-> ?].
       exists "year". split; [set_solver|eauto]. }
  destruct (generate city_of rows) as [cs|e2] eqn:E2; simpl.
  2: { intros [= <-]. apply generate_Raise in E2 as (r & Hr & Hf). left.
       unfold city_of in Hf. destruct (getitem r "city") as [c|] eqn:G.
       - simpl in Hf. destruct (truthy c); [|done].
         destruct (getitem r "state") eqn:G'; [done|].
         injection Hf as ->. apply getitem_Raise in G' as [-> ?].
         exists "state". split; [set_solver|eauto].
       - injection Hf as ->. apply getitem_Raise in G as [-> ?].
         exists "city". split; [set_solver|eauto]. }
  destruct (generate state_of rows) as [ss|e3] eqn:E3; simpl.
  2: { intros [= <-]. apply generate_Raise in E3 as (r & Hr & Hf). left.
       unfold state_of in Hf. destruct (getitem r "state") eqn:G; [done|].
       injection Hf as ->. apply getitem_Raise in G as [-> ?].
       exists "state". split; [set_solver|eauto]. }
  destruct (star_counts rows) as [sc|e4] eqn:E4; simpl.
  2: { intros [= <-]. right. apply for_each_Raise in E4 as (r & c & Hr & Hf).
       unfold star_step in Hf. destruct (star_of r) as [|e'] eqn:S; [done|].
       simpl in Hf. destruct (star_of_Raise _ _ S) as [Hc| ->].
       - by rewrite Hc in Hf.
       - by injection Hf as <-. }
  destruct (biz_reviews rows) as [bz|e5] eqn:E5; simpl.
  2: { intros [= <-]. apply for_each_Raise in E5 as (r & d & Hr & Hf).
       unfold biz_step in Hf. destruct (negb _); [done|].
       destruct (add_stars r _) as [t|e'] eqn:A; simpl in Hf.
       2: { injection Hf as <-. right. by eapply add_stars_Raise. }
       left. destruct (getitem r "city") as [c|] eqn:G; simpl in Hf.
       - destruct (getitem r "state") eqn:G'; [done|].
         injection Hf as ->. apply getitem_Raise in G' as [-> ?].
         exists "state". split; [set_solver|eauto].
       - injection Hf as ->. apply getitem_Raise in G as [-> ?].
         exists "city". split; [set_solver|eauto]. }
  destruct (map_result finalize (top_biz bz)) as [tb|e6] eqn:E6; simpl; [done|].
  intros [= <-]. right.
  apply map_result_Raise_first in E6 as (_ & item & _ & _ & _ & Hf).
  unfold finalize in Hf. destruct (rating_of item.2) eqn:R; [done|].
  injection Hf as <-. by eapply rating_of_Raise.
Qed.

Lemma process_flavor_errors_witness :
  (∃ k, k ∈ ["year"; "city"; "state"] ∧ KeyError "year" = KeyError k ∧
        ∃ r, r ∈ [row_without_year] ∧ r !! k = None) ∨
  KeyError "year" = OverflowError.
Proof.
  apply (process_flavor_errors [row_without_year] (KeyError "year")).
  vm_compute. reflexivity.
Defined.

(** ** The top businesses as a ranking *)

Lemma get_fmap_values {K V W} `{EqDecision K} (p : V → W) (d : dict K V) k :
  get k ((λ it, (it.1, p it.2)) <$> d) = p <$> get k d.
Proof.
  induction d as [|[k' v] d IH]; [done|]. rewrite fmap_cons. cbn [get fst snd].
  by destruct (decide (k' = k)).
Qed.

Lemma set_fmap_values {K V W} `{EqDecision K} (p : V → W) (d : dict K V) k v :
  (λ it, (it.1, p it.2)) <$> set k v d = set k (p v) ((λ it, (it.1, p it.2)) <$> d).
Proof.
  induction d as [|[k' v'] d IH]; [done|]. rewrite fmap_cons. cbn [set fst snd].
  destruct (decide (k' = k)); [done|]. by rewrite fmap_cons, IH.
Qed.

Lemma biz_key_None r : truthy (biz_name r) = false → biz_key r = None.
Proof. intros H%truthy_false. unfold biz_key. by rewrite decide_True. Qed.

Lemma biz_key_Some r : truthy (biz_name r) = true → biz_key r = Some (biz_name r).
Proof.
  intros H. unfold biz_key. rewrite decide_False; [done|].
  intros E%truthy_false. congruence.
Qed.

(** The review counts of the accumulators are the counter of the
    business names, in the same order. *)
Lemma biz_reviews_counts rows d :
  biz_reviews rows = Ok d →
  (λ it, (it.1, acc_reviews it.2)) <$> d = Counter (omap biz_key rows).
Proof.
  unfold biz_reviews. revert d. induction rows as [|r rows IH] using rev_ind; intros d.
  - by intros [= <-].
  - rewrite for_each_snoc. intros (d0 & H0 & Hstep)%bind_Ok.
    specialize (IH d0 H0). rewrite omap_app. cbn [omap list_omap].
    unfold biz_step in Hstep. fold (biz_name r) in Hstep.
    destruct (truthy (biz_name r)) eqn:T; simpl in Hstep.
    + rewrite (biz_key_Some r T), Counter_snoc, <- IH.
      apply bind_Ok in Hstep as (t & _ & (c & _ & (st & _ & [= <-])%bind_Ok)%bind_Ok).
      rewrite set_fmap_values. unfold incr. rewrite get_fmap_values. simpl.
      by destruct (get (biz_name r) d0).
    + rewrite (biz_key_None r T), app_nil_r. by injection Hstep as <-.
Qed.

Lemma insert_desc_fmap {A B K} (lt : K → K → bool) (key : B → K) (f : A → B) x l :
  insert_desc lt key (f x) (f <$> l) = f <$> insert_desc lt (key ∘ f) x l.
Proof.
  induction l as [|y l IH]; [done|]. rewrite fmap_cons. cbn [insert_desc]. simpl.
  destruct (lt (key (f x)) (key (f y))); [|done]. by rewrite IH, fmap_cons.
Qed.

Lemma sorted_reverse_fmap {A B K} (lt : K → K → bool) (key : B → K) (f : A → B) l :
  sorted_reverse lt key (f <$> l) = f <$> sorted_reverse lt (key ∘ f) l.
Proof.
  unfold sorted_reverse. induction l as [|x l IH]; [done|].
  rewrite fmap_cons. cbn [foldr]. by rewrite IH, insert_desc_fmap.
Qed.

Lemma finalized_name_reviews items bs :
  Forall2 (λ item b, finalize item = Ok b) items bs →
  name_reviews <$> bs = (λ it : string * Acc, (it.1, acc_reviews it.2)) <$> items.
Proof.
  induction 1 as [|item b items bs H _ IH]; [done|].
  rewrite !fmap_cons, IH. destruct (finalize_Ok _ _ H) as (Hn & _ & Hr & _).
  unfold name_reviews. by rewrite Hn, Hr.
Qed.

(** X14.  In every summary the names and review counts of the top
    businesses are the ranking with limit 10 of the business names of the
    rows (the stripped names that are not empty): besides the order by
    review count, businesses with equally many reviews stand in the order
    in which they first appear in the dataset, and all businesses are
    listed when there are at most 10. *)
Theorem top_businesses_ranked rows s :
  process_flavor_rows rows = Ok s →
  ranking 10 (omap biz_key rows) (name_reviews <$> topBusinesses s).
Proof.
  intros (ys & cs & ss & sc & bz & tb & _ & _ & _ & _ & Hbz & Htb & ->)%process_flavor_rows_Ok.
  cbn [topBusinesses]. apply map_result_Ok in Htb.
  rewrite (finalized_name_reviews _ _ Htb). unfold top_biz.
  rewrite fmap_take.
  change (λ item : string * Acc, acc_reviews item.2)
    with (snd ∘ (λ it : string * Acc, (it.1, acc_reviews it.2))).
  rewrite <- sorted_reverse_fmap, (biz_reviews_counts _ _ Hbz).
  apply (most_common_ranking 10 (omap biz_key rows)).
Qed.

Lemma top_businesses_ranked_witness :
  ranking 10 (omap biz_key [row_austin; row_unparsable])
    (name_reviews <$> topBusinesses summary_austin).
Proof.
  apply (top_businesses_ranked [row_austin; row_unparsable] summary_austin).
  vm_compute. reflexivity.
Defined.
